(** * auto_review.py: the rule-checking engine [run_checks_on_files]

    A shallow embedding of the policy checks of [src/auto_review.py]
    (lines 181-629) and the properties of its natural-language
    specification.  The helpers around the engine
    ([list_assigned_mrs], [mr_has_successful_pipeline],
    [mr_has_unresolved_discussions], [fetch_changed_c_files]) and the
    loop of [main] follow the engine, with what the requests to GitLab
    yield as arguments and the requests sent as results.

    Conventions of the embedding.
    - A source line is a Python [str]; it is modelled as a [string] whose
      characters are code points below 256.  The classes [\w], [\s], [\d]
      and the methods [strip], [split], [lower] follow Python on that
      range.
    - The messages of the issues are kept as the UTF-8 bytes of the
      source's f-strings.
    - Indices are [nat]; the brace counters, which may become negative,
      are [Z].
    - [lines[t]] outside the list raises [IndexError]; this is the only
      exception the engine can raise, and it is modelled by [result]. *)

From Stdlib Require Import String Ascii List Bool Arith ZArith Lia.
From Stdlib Require Import Permutation DecimalString Sorted.
Import ListNotations.

Local Open Scope string_scope.
Local Open Scope list_scope.
Local Open Scope bool_scope.
Local Open Scope nat_scope.

(* ================================================================== *)
(** ** Characters *)

Module Chars.

Definition code (c : ascii) : nat := nat_of_ascii c.

Definition in_range (lo hi : nat) (c : ascii) : bool :=
  (lo <=? code c) && (code c <=? hi).

(** The double quote and the backslash, by code. *)
Definition dquote : ascii := ascii_of_nat 34.
Definition squote : ascii := ascii_of_nat 39.
Definition backslash : ascii := ascii_of_nat 92.
Definition newline : ascii := ascii_of_nat 10.

Definition is_lower (c : ascii) : bool := in_range 97 122 c.
Definition is_upper (c : ascii) : bool := in_range 65 90 c.
Definition is_digit (c : ascii) : bool := in_range 48 57 c.
Definition is_underscore (c : ascii) : bool := code c =? 95.

(** [[A-Za-z0-9]], [[A-Za-z_]] and [[A-Za-z0-9_]]. *)
Definition is_ascii_alnum (c : ascii) : bool :=
  is_lower c || is_upper c || is_digit c.
Definition is_ident_start (c : ascii) : bool :=
  is_lower c || is_upper c || is_underscore c.
Definition is_ident_char (c : ascii) : bool :=
  is_ascii_alnum c || is_underscore c.

(** [str.isspace] on one character: the whitespace of [str.strip],
    [str.split] and of [\s] in a [str] pattern. *)
Definition is_space (c : ascii) : bool :=
  in_range 9 13 c || in_range 28 32 c || (code c =? 133) || (code c =? 160).

(** [str.isalnum] on one character; [\w] is this or the underscore. *)
Definition is_alnum (c : ascii) : bool :=
  is_ascii_alnum c
  || (code c =? 170) || (code c =? 178) || (code c =? 179) || (code c =? 181)
  || (code c =? 185) || (code c =? 186) || in_range 188 190 c
  || in_range 192 214 c || in_range 216 246 c || in_range 248 255 c.
Definition is_word (c : ascii) : bool := is_alnum c || is_underscore c.

(** [str.lower] on one character. *)
Definition lower_char (c : ascii) : ascii :=
  if is_upper c || (in_range 192 222 c && negb (code c =? 215))
  then ascii_of_nat (code c + 32) else c.

Definition is_char (a c : ascii) : bool := Ascii.eqb a c.
Definition not_char (a c : ascii) : bool := negb (Ascii.eqb a c).

End Chars.
Import Chars.

(* ================================================================== *)
(** ** The string methods of Python that the engine uses *)

Module Py.

Fixpoint lstrip (s : string) : string :=
  match s with
  | String c s' => if is_space c then lstrip s' else s
  | EmptyString => EmptyString
  end.

(** [rstrip]: a character is dropped when it is whitespace and everything
    behind it has been dropped. *)
Fixpoint rstrip (s : string) : string :=
  match s with
  | String c s' =>
      match rstrip s' with
      | EmptyString => if is_space c then EmptyString else String c EmptyString
      | r => String c r
      end
  | EmptyString => EmptyString
  end.

(** [s.strip()] *)
Definition strip (s : string) : string := rstrip (lstrip s).

(** [s.startswith(p)] *)
Definition startswith (p s : string) : bool := String.prefix p s.

(** [needle in hay] *)
Fixpoint contains (needle hay : string) : bool :=
  String.prefix needle hay ||
  match hay with
  | String _ hay' => contains needle hay'
  | EmptyString => false
  end.

(** [s.count(c)] for a pattern of one character. *)
Fixpoint count (c : ascii) (s : string) : nat :=
  match s with
  | String a s' => (if Ascii.eqb a c then 1 else 0) + count c s'
  | EmptyString => 0
  end.

(** [s.replace(c, '')] for a pattern of one character. *)
Fixpoint remove (c : ascii) (s : string) : string :=
  match s with
  | String a s' => if Ascii.eqb a c then remove c s' else String a (remove c s')
  | EmptyString => EmptyString
  end.

(** [s.lower()] *)
Fixpoint lower (s : string) : string :=
  match s with
  | String a s' => String (lower_char a) (lower s')
  | EmptyString => EmptyString
  end.

(** [s.split(c)]: never empty, the pieces between the separators. *)
Fixpoint split_on (c : ascii) (s : string) : list string :=
  match s with
  | EmptyString => [EmptyString]
  | String a s' =>
      match split_on c s' with
      | p :: ps => if Ascii.eqb a c then EmptyString :: p :: ps
                   else String a p :: ps
      | [] => [String a EmptyString]
      end
  end.

(** [s.split()]: the maximal runs of non-whitespace characters.  [w] is
    the run being read, in reverse. *)
Fixpoint split_ws_aux (w : list ascii) (s : string) : list string :=
  let flush (rest : list string) :=
    match w with
    | [] => rest
    | _ => string_of_list_ascii (rev w) :: rest
    end in
  match s with
  | EmptyString => flush []
  | String a s' =>
      if is_space a then flush (split_ws_aux [] s')
      else split_ws_aux (a :: w) s'
  end.
Definition split_ws (s : string) : list string := split_ws_aux [] s.

(** ["\n".join(ls)] *)
Definition join_lines (ls : list string) : string :=
  String.concat (String newline EmptyString) ls.

(** [l[a:b]] for [0 <= a] *)
Definition slice {A} (a b : nat) (l : list A) : list A :=
  firstn (b - a) (skipn a l).

(** [s[a:]] *)
Fixpoint drop (n : nat) (s : string) : string :=
  match n, s with
  | S n', String _ s' => drop n' s'
  | _, _ => s
  end.

(** [str(n)] for a natural number. *)
Definition str_of_nat (n : nat) : string :=
  NilEmpty.string_of_uint (Nat.to_uint n).

(** [str(z)] for an integer. *)
Definition str_of_Z (z : Z) : string :=
  NilEmpty.string_of_int (Z.to_int z).

End Py.

(* ================================================================== *)
(** ** Regular expressions

    The patterns of the source are values of [regex]; [exec] is the
    backtracking matcher of Python's [re] on them: alternatives are tried
    from the left, a greedy repetition tries one more iteration before it
    tries to stop, a lazy one the other way round, and the first way to
    reach the end of the pattern is the match. *)

Module Re.

Inductive regex : Type :=
| Eps                                  (* the empty pattern *)
| Cls (p : ascii -> bool)              (* one character of a class *)
| Seq (r1 r2 : regex)
| Alt (r1 r2 : regex)                  (* r1|r2 *)
| Star (greedy : bool) (r : regex)     (* r* and r*? *)
| Group (n : nat) (r : regex)          (* the n-th capturing group *)
| Backref (n : nat)                    (* \n *)
| Bos                                  (* ^ *)
| Eos                                  (* $ *)
| WordB                                (* \b *)
| NotBehind (p : ascii -> bool)        (* (?<![...]) *)
| NotAhead (p : ascii -> bool).        (* (?![...]) *)

(** A position in the subject: the character before it, its index and
    the text from it on. *)
Record cursor : Type := mkCursor {
  prev : option ascii;
  pos : nat;
  rest : string
}.

Record mstate : Type := mkState {
  cur : cursor;
  groups : list (nat * string)
}.

Definition cont : Type := mstate -> option mstate.

Definition start (s : string) : cursor := mkCursor None 0 s.

Definition class_of (p : ascii -> bool) (o : option ascii) : bool :=
  match o with Some c => p c | None => false end.

Definition next (c : cursor) : option ascii :=
  match rest c with String a _ => Some a | EmptyString => None end.

(** [$] without [re.M]: at the end, or before a newline that ends the
    subject. *)
Definition at_eos (c : cursor) : bool :=
  match rest c with
  | EmptyString => true
  | String a EmptyString => Ascii.eqb a newline
  | _ => false
  end.

Definition at_wordb (c : cursor) : bool :=
  xorb (class_of is_word (prev c)) (class_of is_word (next c)).

Fixpoint lookup_group (n : nat) (g : list (nat * string)) : option string :=
  match g with
  | (m, s) :: g' => if m =? n then Some s else lookup_group n g'
  | [] => None
  end.

(** The cursor behind the prefix [p] of the text, when [p] is one. *)
Fixpoint eat (p : string) (c : cursor) : option cursor :=
  match p with
  | EmptyString => Some c
  | String a p' =>
      match rest c with
      | String b s' =>
          if Ascii.eqb a b then eat p' (mkCursor (Some b) (S (pos c)) s')
          else None
      | EmptyString => None
      end
  end.

(** The iterations of a repetition.  An iteration has to consume a
    character (every repeated pattern of the source does), so [n], which
    starts above the length of the remaining text, is never used up. *)
Fixpoint star_loop (greedy : bool) (body : mstate -> cont -> option mstate)
    (k : cont) (n : nat) (s : mstate) : option mstate :=
  match n with
  | 0 => k s
  | S n' =>
      let again (_ : unit) :=
        body s (fun s' =>
                  if String.length (rest (cur s')) <? String.length (rest (cur s))
                  then star_loop greedy body k n' s'
                  else None) in
      if greedy
      then match again tt with Some r => Some r | None => k s end
      else match k s with Some r => Some r | None => again tt end
  end.

Fixpoint exec (r : regex) (s : mstate) (k : cont) {struct r} : option mstate :=
  match r with
  | Eps => k s
  | Cls p =>
      match rest (cur s) with
      | String a s' =>
          if p a
          then k (mkState (mkCursor (Some a) (S (pos (cur s))) s') (groups s))
          else None
      | EmptyString => None
      end
  | Seq r1 r2 => exec r1 s (fun s' => exec r2 s' k)
  | Alt r1 r2 =>
      match exec r1 s k with
      | Some x => Some x
      | None => exec r2 s k
      end
  | Star greedy r' =>
      star_loop greedy (exec r') k (S (String.length (rest (cur s)))) s
  | Group n r' =>
      exec r' s (fun s' =>
        let text := substring 0 (pos (cur s') - pos (cur s)) (rest (cur s)) in
        k (mkState (cur s') ((n, text) :: groups s')))
  | Backref n =>
      match lookup_group n (groups s) with
      | Some text =>
          match eat text (cur s) with
          | Some c' => k (mkState c' (groups s))
          | None => None
          end
      | None => None
      end
  | Bos => if pos (cur s) =? 0 then k s else None
  | Eos => if at_eos (cur s) then k s else None
  | WordB => if at_wordb (cur s) then k s else None
  | NotBehind p => if class_of p (prev (cur s)) then None else k s
  | NotAhead p => if class_of p (next (cur s)) then None else k s
  end.

(** The match that starts at a cursor. *)
Definition match_at (r : regex) (c : cursor) : option mstate :=
  exec r (mkState c []) Some.

(** [re.match(r, s)] and [r.match(s)] *)
Definition re_match (r : regex) (s : string) : option mstate :=
  match_at r (start s).

(** [re.search(r, s)]: the match at the leftmost position that has one. *)
Fixpoint search_from (r : regex) (p : option ascii) (i : nat) (s : string)
    : option mstate :=
  match match_at r (mkCursor p i s) with
  | Some st => Some st
  | None =>
      match s with
      | String a s' => search_from r (Some a) (S i) s'
      | EmptyString => None
      end
  end.
Definition re_search (r : regex) (s : string) : option mstate :=
  search_from r None 0 s.

Definition is_some {A} (o : option A) : bool :=
  match o with Some _ => true | None => false end.

(** The truth value of [re.search(r, s)] and of [re.match(r, s)]. *)
Definition found (r : regex) (s : string) : bool := is_some (re_search r s).
Definition matches (r : regex) (s : string) : bool := is_some (re_match r s).

(** [m.group(n)] of a group that took part in the match, [m.end()]. *)
Definition group (n : nat) (m : mstate) : string :=
  match lookup_group n (groups m) with Some s => s | None => EmptyString end.
Definition mend (m : mstate) : nat := pos (cur m).

(** [r.finditer(s)]: the matches from left to right, none overlapping.
    [skip] counts the characters of the last match still to be passed. *)
Fixpoint finditer_from (r : regex) (p : option ascii) (i skip : nat)
    (s : string) : list mstate :=
  let step (skip' : nat) :=
    match s with
    | String a s' => finditer_from r (Some a) (S i) skip' s'
    | EmptyString => []
    end in
  match skip with
  | S skip' => step skip'
  | 0 =>
      match match_at r (mkCursor p i s) with
      | Some st => st :: step (Nat.pred (mend st - i))
      | None => step 0
      end
  end.
Definition finditer (r : regex) (s : string) : list mstate :=
  finditer_from r None 0 0 s.

(** [re.sub(r, repl, s)] for a replacement without group references. *)
Fixpoint sub_from (r : regex) (repl : string) (p : option ascii)
    (i skip : nat) (s : string) : string :=
  match skip with
  | S skip' =>
      match s with
      | String a s' => sub_from r repl (Some a) (S i) skip' s'
      | EmptyString => EmptyString
      end
  | 0 =>
      match match_at r (mkCursor p i s) with
      | Some st =>
          match mend st - i, s with
          | S skip', String a s' =>
              (repl ++ sub_from r repl (Some a) (S i) skip' s')%string
          | 0, String a s' =>
              (repl ++ String a (sub_from r repl (Some a) (S i) 0 s'))%string
          | _, EmptyString => repl
          end
      | None =>
          match s with
          | String a s' => String a (sub_from r repl (Some a) (S i) 0 s')
          | EmptyString => EmptyString
          end
      end
  end.
Definition re_sub (r : regex) (repl s : string) : string :=
  sub_from r repl None 0 0 s.

(** *** Pattern syntax *)

Definition Chr (c : ascii) : regex := Cls (is_char c).
(** A literal under [re.I]. *)
Definition ChrI (c : ascii) : regex :=
  Cls (fun a => Ascii.eqb (lower_char a) (lower_char c)).
Definition Plus (greedy : bool) (r : regex) : regex := Seq r (Star greedy r).
Definition Opt (r : regex) : regex := Alt r Eps.

Fixpoint seqs (rs : list regex) : regex :=
  match rs with
  | [] => Eps
  | [r] => r
  | r :: rs' => Seq r (seqs rs')
  end.

Fixpoint alts (r : regex) (rs : list regex) : regex :=
  match rs with
  | [] => r
  | r' :: rs' => Alt r (alts r' rs')
  end.

(** A literal text, as [re.escape] makes one. *)
Fixpoint Lit (s : string) : regex :=
  match s with
  | EmptyString => Eps
  | String c EmptyString => Chr c
  | String c s' => Seq (Chr c) (Lit s')
  end.

Fixpoint LitI (s : string) : regex :=
  match s with
  | EmptyString => Eps
  | String c EmptyString => ChrI c
  | String c s' => Seq (ChrI c) (LitI s')
  end.

(** [\s*], [\d+], [.], [[A-Za-z_][A-Za-z0-9_]*] *)
Definition ws : regex := Star true (Cls is_space).
Definition digits : regex := Plus true (Cls is_digit).
Definition dot : regex := Cls (not_char newline).
Definition any : regex := Cls (fun _ => true).
Definition ident : regex :=
  Seq (Cls is_ident_start) (Star true (Cls is_ident_char)).

End Re.
Import Re.

(* ================================================================== *)
(** ** The patterns of the engine *)

Module Patterns.

(** [style_patterns]: camelCase, snake_case, CamelCase. *)
Definition camel_style : regex :=          (* ^ [a-z] [A-Za-z0-9]* $ *)
  seqs [Bos; Cls is_lower; Star true (Cls is_ascii_alnum); Eos].
Definition snake_style : regex :=          (* ^ [a-z] [a-z0-9_]* $ *)
  seqs [Bos; Cls is_lower;
        Star true (Cls (fun c => is_lower c || is_digit c || is_underscore c));
        Eos].
Definition pascal_style : regex :=         (* ^ [A-Z] [A-Za-z0-9]* $ *)
  seqs [Bos; Cls is_upper; Star true (Cls is_ascii_alnum); Eos].

Definition style_patterns : list (regex * string) :=
  [(camel_style, "camelCase"); (snake_style, "snake_case");
   (pascal_style, "CamelCase")].

(** [func_def_re]; the pattern, its tokens set apart by blanks:
    [^ [\w\*\s]+? \b ( [A-Za-z_][A-Za-z0-9_]* ) \s* \( ( [^;]* ) \) \s* \{] *)
Definition func_def_re : regex :=
  seqs [Bos;
        Plus false (Cls (fun c => is_word c || is_char "*"%char c || is_space c));
        WordB; Group 1 ident; ws; Chr "("%char;
        Group 2 (Star true (Cls (not_char ";"%char)));
        Chr ")"%char; ws; Chr "{"%char].

(** [(?<![_A-Za-z0-9]) ( -? \d+ ( \. \d+ )? ) (?![_A-Za-z0-9])] *)
Definition number_literal_re : regex :=
  seqs [NotBehind is_ident_char;
        Group 1 (seqs [Opt (Chr "-"%char); digits;
                       Opt (Group 2 (Seq (Chr "."%char) digits))]);
        NotAhead is_ident_char].

Definition alloc_names : regex :=          (* malloc|realloc|calloc *)
  alts (Lit "malloc") [Lit "realloc"; Lit "calloc"].

Definition scanf_re : regex := seqs [WordB; Lit "scanf"; ws; Chr "("%char].
Definition malloc_re : regex := seqs [WordB; Group 1 alloc_names; ws; Chr "("%char].
Definition exit_re : regex := seqs [WordB; Lit "exit"; ws; Chr "("%char].
Definition goto_re : regex := seqs [WordB; Lit "goto"; WordB].

Definition translit_tokens : list string :=
  ["vvod"; "vivod"; "chislo"; "soobshchenie"; "massiv"; "stroka"; "otvet";
   "perechislenie"].

(** [& \s* [A-Za-z_][A-Za-z0-9_]* \s* \[] *)
Definition amp_arr_index_re : regex := seqs [Chr "&"%char; ws; ident; ws; Chr "["%char].

(** [^ \s* #], [^ \s* //], [^ \s* /\*] *)
Definition hash_line_re : regex := seqs [Bos; ws; Chr "#"%char].
Definition slashes_line_re : regex := seqs [Bos; ws; Lit "//"].
Definition block_line_re : regex := seqs [Bos; ws; Lit "/*"].

(** [r'\b' + re.escape(t) + r'\b'], which the source searches with
    [re.I] for a transliteration token and without for a parameter. *)
Definition word_re (t : string) : regex := seqs [WordB; Lit t; WordB].
Definition word_re_i (t : string) : regex := seqs [WordB; LitI t; WordB].

(** [/\* .*? \*/] and [// .*] *)
Definition block_comment_re : regex := seqs [Lit "/*"; Star false dot; Lit "*/"].
Definition line_comment_re : regex := seqs [Lit "//"; Star true dot].

(** A quote [q], then characters other than [q] and the backslash or
    a backslash and one character, any number of times as a group, then
    [q]: the patterns of the string and of the character literal. *)
Definition quoted_re (q : ascii) : regex :=
  seqs [Chr q;
        Star true (Group 1 (Alt (Cls (fun c => not_char q c && not_char backslash c))
                                (Seq (Chr backslash) dot)));
        Chr q].
Definition string_literal_re : regex := quoted_re dquote.
Definition char_literal_re : regex := quoted_re squote.

(** [( ^ | \s ) & \s* ( [A-Za-z_][A-Za-z0-9_]* ) \s* $ $ [^$$]+ \]], as
    the source has it: behind the name come two end anchors, one or more
    characters other than the dollar and a closing bracket. *)
Definition amp_index_pattern : regex :=
  seqs [Group 1 (Alt Bos (Cls is_space)); Chr "&"%char; ws; Group 2 ident; ws;
        Eos; Eos; Plus true (Cls (not_char "$"%char)); Chr "]"%char].

Definition return_re : regex := word_re "return".

(** [\b (?:int|char|float|double|long|short|size_t|unsigned|struct) \s+]
    [( [A-Za-z_][A-Za-z0-9_]* )] *)
Definition var_decl_re : regex :=
  seqs [WordB;
        alts (Lit "int") [Lit "char"; Lit "float"; Lit "double"; Lit "long";
                          Lit "short"; Lit "size_t"; Lit "unsigned"; Lit "struct"];
        Plus true (Cls is_space); Group 1 ident].

(** [\d+ \. \d+] and [==|>=|<=] *)
Definition fraction_re : regex := seqs [digits; Chr "."%char; digits].
Definition compare_re : regex := alts (Lit "==") [Lit ">="; Lit "<="].

(** [\b ( \w+ ) \s* = \s* \1 \s* \+ \s* 0 \b] and the same with
    [\*] and [1] *)
Definition self_op_re (op digit : ascii) : regex :=
  seqs [WordB; Group 1 (Plus true (Cls is_word)); ws; Chr "="%char; ws; Backref 1;
        ws; Chr op; ws; Chr digit; WordB].

(** The patterns of the allocation check (rule 15); [v] is the assigned
    variable, an identifier, so [re.escape(v)] is [v]. *)

(** [\b ( if|while ) \s* \( \s* ! \s* \( * \s* ( [A-Za-z_][A-Za-z0-9_]* )]
    [\s* = \s* ( malloc|realloc|calloc ) \s* \(] *)
Definition alloc_in_condition_re : regex :=
  seqs [WordB; Group 1 (Alt (Lit "if") (Lit "while")); ws; Chr "("%char; ws;
        Chr "!"%char; ws; Star true (Chr "("%char); ws; Group 2 ident; ws; Chr "="%char; ws;
        Group 3 alloc_names; ws; Chr "("%char].

(** [( [A-Za-z_][A-Za-z0-9_]* ) \s* = \s* .* \b ( malloc|realloc|calloc )]
    [\s* \(] *)
Definition alloc_assign_re : regex :=
  seqs [Group 1 ident; ws; Chr "="%char; ws; Star true dot; WordB;
        Group 2 alloc_names; ws; Chr "("%char].

(** [\b if \s* \( \s*] *)
Definition if_open : list regex := [WordB; Lit "if"; ws; Chr "("%char; ws].

Definition if_not_re (v : string) : regex :=        (* if (!v) *)
  seqs (if_open ++ [Chr "!"%char; ws; Lit v; ws; Chr ")"%char]).
Definition if_cmp_re (v op rhs : string) : regex :=  (* if (v op rhs) *)
  seqs (if_open ++ [Lit v; ws; Lit op; ws; Lit rhs; ws; Chr ")"%char]).
Definition assert_re (v : string) : regex :=         (* assert(v != NULL) *)
  seqs [Lit "assert"; ws; Chr "("%char; ws; Lit v; ws; Lit "!="; ws; Lit "NULL";
        ws; Chr ")"%char].
Definition if_not_return_re (v : string) : regex :=  (* if (!v) return *)
  seqs (if_open ++ [Chr "!"%char; ws; Lit v; ws; Chr ")"%char; ws; Lit "return"]).
Definition if_truthy_re (v : string) : regex :=      (* if (v) *)
  seqs (if_open ++ [Lit v; ws; Chr ")"%char]).

(** [\b if \s* \( \s* ( [A-Za-z_][A-Za-z0-9_]* ) \s* \( \s* v [\s,)]] *)
Definition if_call_re (v : string) : regex :=
  seqs (if_open ++ [Group 1 ident; ws; Chr "("%char; ws; Lit v;
                    Cls (fun c => is_space c || is_char ","%char c || is_char ")"%char c)]).
Definition cmp_tail_re (op rhs : string) : regex :=  (* == \s* NULL *)
  seqs [Lit op; ws; Lit rhs].

(** The patterns of the global-variable scan (rule 27). *)
Definition block_comment_s_re : regex :=   (* /\* .*? \*/ with re.S *)
  seqs [Lit "/*"; Star false any; Lit "*/"].
Definition typedef_re : regex := seqs [Bos; ws; Lit "typedef"; WordB].
Definition extern_re : regex := seqs [Bos; ws; Lit "extern"; WordB].
Definition static_re : regex := seqs [Bos; ws; Lit "static"; WordB].

(** [^ \s* ( struct|enum|union ) \b [^{;]* ; \s* $] *)
Definition type_decl_re : regex :=
  seqs [Bos; ws; Group 1 (alts (Lit "struct") [Lit "enum"; Lit "union"]);
        WordB; Star true (Cls (fun c => not_char "{"%char c && not_char ";"%char c));
        Chr ";"%char; ws; Eos].

(** [^ \s* (?:const|volatile|unsigned|signed|register)? \s*]
    [(?:struct|enum|union| [A-Za-z_][A-Za-z0-9_\s\*]+? ) \s+]
    [( [A-Za-z_][A-Za-z0-9_]* ) \s* (?: $ $ .* $ $ | \= .+ )? \s* ; \s* $]
    with [re.S] *)
Definition global_var_re : regex :=
  seqs [Bos; ws;
        Opt (alts (Lit "const") [Lit "volatile"; Lit "unsigned"; Lit "signed";
                                 Lit "register"]);
        ws;
        alts (Lit "struct")
             [Lit "enum"; Lit "union";
              Seq (Cls is_ident_start)
                  (Plus false (Cls (fun c => is_ident_char c || is_space c
                                             || is_char "*"%char c)))];
        Plus true (Cls is_space); Group 1 ident; ws;
        Opt (Alt (seqs [Eos; Eos; Star true any; Eos; Eos])
                 (seqs [Chr "="%char; Plus true any]));
        ws; Chr ";"%char; ws; Eos].

End Patterns.
Import Patterns.

(* ================================================================== *)
(** ** Issues and the exception of the engine *)

(** An issue of [run_checks_on_files]: the dictionary with the keys
    ['file'], ['line'], ['rule'] and ['message']. *)
Record Issue : Type := mkIssue {
  file : string;
  line : nat;
  rule : nat;
  message : string
}.

(** The outcome of a computation that indexes a list. *)
Inductive result (A : Type) : Type :=
| OK (a : A)
| IndexError.
Arguments OK {A} a.
Arguments IndexError {A}.

Definition bind {A B} (r : result A) (f : A -> result B) : result B :=
  match r with
  | OK a => f a
  | IndexError => IndexError
  end.

Notation "x <- r ;; k" := (bind r (fun x => k))
  (at level 61, r at next level, right associativity).

Module Messages.
Local Open Scope string_scope.

Definition allowed : string := "camelCase, snake_case, CamelCase".

Definition translit_msg (t : string) : string :=
  "Найден транслит '" ++ t ++ "'; используйте переводчик (правило 3).".
Definition amp_index_msg : string := "&arr[i] запрещено. БАН (правило 0).".
Definition func_style_msg (fname : string) : string :=
  "Функция '" ++ fname
  ++ "' не соответствует ни одному из допустимых стилей имён ("
  ++ allowed ++ ") (правило 2).".
Definition var_style_msg (vname : string) : string :=
  "Переменная '" ++ vname
  ++ "' не соответствует ни одному из допустимых стилей имён ("
  ++ allowed ++ ") (правило 2).".
Definition line_params_msg (fname : string) (param_count : nat) : string :=
  "У функции '" ++ fname ++ "' " ++ Py.str_of_nat param_count
  ++ " параметров (правило 12: предел 5).".
Definition returns_msg (fname : string) (return_count : nat) : string :=
  "Функция '" ++ fname ++ "' содержит " ++ Py.str_of_nat return_count
  ++ " return (правило 10: максимум 2).".
Definition length_msg (fname : string) (func_len : nat) : string :=
  "Функция '" ++ fname ++ "' содержит " ++ Py.str_of_nat func_len
  ++ " строк (правило 4: предел 30).".
Definition nesting_msg (fname : string) (nesting : Z) : string :=
  "Вложенность функции '" ++ fname ++ "' составляет " ++ Py.str_of_Z nesting
  ++ " > 3 (правило 12).".
Definition span_params_msg (fname : string) (param_count : nat) : string :=
  "Функция '" ++ fname ++ "' содержит " ++ Py.str_of_nat param_count
  ++ " параметров (rule 12).".
Definition unused_param_msg (pn fname : string) : string :=
  "Параметр '" ++ pn ++ "' не используется в функции '" ++ fname
  ++ "' (правило 18).".
Definition scanf_msg : string :=
  "scanf: возвращаемое значение не проверяется (правило 8).".
Definition exit_msg : string := "Использование функции exit() (правило 25).".
Definition goto_msg : string := "Использование goto (правило 26).".
Definition float_cmp_msg : string :=
  "Вещественное число сравнивается некорректно (правило 14).".
Definition magic_msg (val : string) : string :=
  "Магическая константа " ++ val ++ " (разрешено: 0,1,-1). (правило 5).".
Definition redundant_msg : string :=
  "Лишние вычисления (например, x = x + 0) (rule 21).".

End Messages.
Import Messages.

(* ================================================================== *)
(** ** The pass over the lines (rules 3, 0, 2, 12, 10) *)

(** [enumerate(l, start)] *)
Fixpoint enumerate {A} (start : nat) (l : list A) : list (nat * A) :=
  match l with
  | [] => []
  | x :: l' => (start, x) :: enumerate (S start) l'
  end.

(** The first style whose pattern matches the name, if any. *)
Fixpoint first_style (pats : list (regex * string)) (name : string)
    : option string :=
  match pats with
  | [] => None
  | (pat, sname) :: pats' =>
      if matches pat name then Some sname else first_style pats' name
  end.
Definition matched_style (name : string) : option string :=
  first_style style_patterns name.

(** Lines that begin with a directive or a comment are not looked at. *)
Definition skipped_line (l : string) : bool :=
  matches hash_line_re l || matches slashes_line_re l || matches block_line_re l.

Definition translit_issues (path : string) (i : nat) (l : string) : list Issue :=
  flat_map (fun t =>
              if found (word_re_i t) l
              then [mkIssue path i 3 (translit_msg t)] else [])
           translit_tokens.

(** The line without block comments, line comment, string and character
    literals. *)
Definition strip_text (l : string) : string :=
  let ln := re_sub block_comment_re "" l in
  let ln := re_sub line_comment_re "" ln in
  let ln := re_sub string_literal_re "" ln in
  re_sub char_literal_re "" ln.

Definition amp_index_issues (path : string) (i : nat) (l : string)
    : list Issue :=
  let ln := strip_text l in
  match re_search amp_index_pattern ln with
  | Some m =>
      let end_pos := mend m in
      let exempt :=
        match String.get end_pos ln with
        | Some c => is_char ")"%char c || is_char "*"%char c
        | None => false
        end in
      if (String.length ln <=? end_pos) || negb exempt
      then [mkIssue path i 0 amp_index_msg] else []
  | None => []
  end.

(** [func_def_re.match(line.strip())]: the name and the parameter text. *)
Definition func_def (l : string) : option (string * string) :=
  match re_match func_def_re (Py.strip l) with
  | Some m => Some (group 1 m, Py.strip (group 2 m))
  | None => None
  end.

(** The number of parameters: the commas plus one, unless the parameter
    text is empty or [void]. *)
Definition param_count (params : string) : nat :=
  if negb (String.eqb params "") && negb (String.eqb params "void")
  then Py.count ","%char params + 1 else 0.

(** The count of [return] of rule 10, over the lines [ls] behind line
    [i]: the loop [for j in range(i, len(lines))], where [i] is the
    number of the definition line counted from one. *)
Fixpoint count_returns (ls : list string) (brace_level : Z)
    (return_count : nat) (inside_function : bool) : nat :=
  match ls with
  | [] => return_count
  | l :: ls' =>
      let opens := Py.contains "{" l in
      let brace_level :=
        if opens then (brace_level + Z.of_nat (Py.count "{"%char l))%Z
        else brace_level in
      let inside_function := inside_function || opens in
      let return_count :=
        if inside_function && found return_re l
        then return_count + 1 else return_count in
      if Py.contains "}" l && inside_function
      then
        let brace_level := (brace_level - Z.of_nat (Py.count "}"%char l))%Z in
        if (brace_level =? 0)%Z then return_count
        else count_returns ls' brace_level return_count inside_function
      else count_returns ls' brace_level return_count inside_function
  end.

Definition func_style_issues (path : string) (i : nat) (fname : string)
    : list Issue :=
  match matched_style fname with
  | Some _ => []
  | None => [mkIssue path i 2 (func_style_msg fname)]
  end.

Definition line_param_issues (path : string) (i : nat) (fname params : string)
    : list Issue :=
  if 5 <? param_count params
  then [mkIssue path i 12 (line_params_msg fname (param_count params))]
  else [].

Definition return_issues (path : string) (lines : list string) (i : nat)
    (fname : string) : list Issue :=
  let return_count := count_returns (skipn i lines) 0%Z 0 false in
  if 2 <? return_count
  then [mkIssue path i 10 (returns_msg fname return_count)] else [].

Definition func_line_issues (path : string) (lines : list string) (i : nat)
    (l : string) : list Issue :=
  match func_def l with
  | Some (fname, params) =>
      func_style_issues path i fname
      ++ line_param_issues path i fname params
      ++ return_issues path lines i fname
  | None => []
  end.

(** The first [type name] of the line. *)
Definition var_decl (l : string) : option string :=
  match re_search var_decl_re l with
  | Some m => Some (group 1 m)
  | None => None
  end.

Definition var_style_issues (path : string) (i : nat) (l : string)
    : list Issue :=
  match var_decl l with
  | Some vname =>
      match matched_style vname with
      | Some _ => []
      | None => [mkIssue path i 2 (var_style_msg vname)]
      end
  | None => []
  end.

(** The body of the loop over [enumerate(lines, start=1)]. *)
Definition line_checks (path : string) (lines : list string) (i : nat)
    (l : string) : list Issue :=
  if skipped_line l then []
  else translit_issues path i l
       ++ amp_index_issues path i l
       ++ func_line_issues path lines i l
       ++ var_style_issues path i l.

Definition line_pass (path : string) (lines : list string) : list Issue :=
  flat_map (fun il => line_checks path lines (fst il) (snd il))
           (enumerate 1 lines).

(* ================================================================== *)
(** ** The pass over the functions (rules 4, 12, 18, 8, 15, 25, 26, 14) *)

(** A located function: name, parameter text, the indices (from zero) of
    its first and last line and the deepest brace level seen. *)
Record span : Type := mkSpan {
  sp_name : string;
  sp_params : string;
  sp_start : nat;
  sp_end : nat;
  sp_max_brace : Z
}.

(** The braces of one line, character by character. *)
Fixpoint count_braces (s : string) (brace : Z) (started : bool) : Z * bool :=
  match s with
  | EmptyString => (brace, started)
  | String ch s' =>
      if is_char "{"%char ch then count_braces s' (brace + 1)%Z true
      else if is_char "}"%char ch then count_braces s' (brace - 1)%Z started
      else count_braces s' brace started
  end.

Definition two_quotes : string := String dquote (String dquote EmptyString).

(** The loop [while j < nlines] that looks for the end of the body; [ls]
    are the lines from [j] on.  The result is [end_idx], which is
    [nlines] when the braces never close, and [max_brace]. *)
Fixpoint find_end (ls : list string) (j : nat) (brace : Z) (started : bool)
    (max_brace : Z) : nat * Z :=
  match ls with
  | [] => (j, max_brace)
  | l :: ls' =>
      let lnos := re_sub string_literal_re two_quotes l in
      let '(brace, started) := count_braces lnos brace started in
      let max_brace := if started then Z.max max_brace brace else max_brace in
      if started && (brace =? 0)%Z then (j, max_brace)
      else find_end ls' (S j) brace started max_brace
  end.

Section Scan.

Context {A : Type}.
Variable lines : list string.
(** What the loop does with a located function. *)
Variable act : span -> result (list A).

(** The loop [while idx < nlines] of the source.  Every turn moves [idx]
    forward, so [nlines] turns are enough: see [scan_fuel]. *)
Fixpoint scan (fuel idx : nat) : result (list A) :=
  match fuel with
  | 0 => OK []
  | S fuel' =>
      match nth_error lines idx with
      | None => OK []
      | Some l =>
          if Py.startswith "#" (Py.strip l) then scan fuel' (S idx)
          else
            match func_def l with
            | Some (fname, params) =>
                let '(end_idx, max_brace) :=
                  find_end (skipn idx lines) idx 0%Z false 0%Z in
                out <- act (mkSpan fname params idx end_idx max_brace) ;;
                more <- scan fuel' (S end_idx) ;;
                OK (out ++ more)
            | None => scan fuel' (S idx)
            end
      end
  end.

End Scan.

Section SpanChecks.

Variable path : string.
Variable lines : list string.

Definition nlines : nat := length lines.

(** [range(start_idx, min(end_idx+1, nlines))] with the lines at these
    indices. *)
Definition span_lines (sp : span) : list (nat * string) :=
  enumerate (sp_start sp)
            (Py.slice (sp_start sp) (Nat.min (sp_end sp + 1) nlines) lines).

Definition func_len (sp : span) : nat := sp_end sp - sp_start sp + 1.

Definition length_issues (sp : span) : list Issue :=
  if 30 <? func_len sp
  then [mkIssue path (sp_start sp + 1) 4 (length_msg (sp_name sp) (func_len sp))]
  else [].

Definition nesting (sp : span) : Z := Z.max 0 (sp_max_brace sp - 1).

Definition nesting_issues (sp : span) : list Issue :=
  if (3 <? nesting sp)%Z
  then [mkIssue path (sp_start sp + 1) 12 (nesting_msg (sp_name sp) (nesting sp))]
  else [].

Definition span_param_issues (sp : span) : list Issue :=
  if 5 <? param_count (sp_params sp)
  then [mkIssue path (sp_start sp + 1) 12
                (span_params_msg (sp_name sp) (param_count (sp_params sp)))]
  else [].

(** The name of one parameter: the last word of its text without the
    characters [*], [[], []] and [.]; none when nothing is left. *)
Definition bracket_dot_re : regex :=       (* [\[\].]* *)
  Star true (Cls (fun c => is_char "["%char c || is_char "]"%char c
                           || is_char "."%char c)).

Definition param_name (p : string) : list string :=
  match rev (Py.split_ws p) with
  | [] => []
  | last :: _ =>
      let name := Py.strip (Py.remove "*"%char last) in
      let name := re_sub bracket_dot_re "" name in
      if String.eqb name "" then [] else [name]
  end.

Definition param_names (params : string) : list string :=
  if negb (String.eqb params "") && negb (String.eqb params "void")
  then flat_map (fun p => param_name (Py.strip p)) (Py.split_on ","%char params)
  else [].

(** [body_text]: the lines of the function, the definition line
    included, joined by newlines. *)
Definition body_text (sp : span) : string :=
  Py.join_lines
    (if sp_end sp <? nlines
     then Py.slice (sp_start sp) (sp_end sp + 1) lines
     else skipn (sp_start sp) lines).

Definition unused_param_issues (sp : span) : list Issue :=
  flat_map (fun pn =>
              if negb (String.eqb pn "") && negb (found (word_re pn) (body_text sp))
              then [mkIssue path (sp_start sp + 1) 18
                            (unused_param_msg pn (sp_name sp))]
              else [])
           (param_names (sp_params sp)).

(** Rule 8: a [scanf] whose surroundings, three lines up and down, have
    none of [==], [!=], [if], [return], [=]. *)
Definition scanf_context (sp : span) (k : nat) : string :=
  Py.join_lines (Py.slice (Nat.max (sp_start sp) (k - 3))
                          (Nat.min nlines (k + 4)) lines).

Definition scanf_issues (sp : span) : list Issue :=
  flat_map (fun kl =>
              let k := fst kl in
              if found scanf_re (snd kl)
              then
                let context := scanf_context sp k in
                if negb (Py.contains "==" context)
                   && negb (Py.contains "!=" context)
                   && negb (Py.contains "if" context)
                   && negb (Py.contains "return" context)
                   && negb (Py.contains "=" context)
                then [mkIssue path (k + 1) 8 scanf_msg] else []
              else [])
           (span_lines sp).

(** Rule 15.  Whether [check_line] guards the variable [v]. *)
Definition guards (v check_line : string) : bool :=
  found (if_not_re v) check_line
  || found (if_cmp_re v "==" "NULL") check_line
  || found (if_cmp_re v "==" "0") check_line
  || found (if_cmp_re v "!=" "NULL") check_line
  || found (if_cmp_re v "!=" "0") check_line
  || found (assert_re v) check_line
  || found (if_not_return_re v) check_line
  || found (if_truthy_re v) check_line
  || match re_search (if_call_re v) check_line with
     | Some func_call_null =>
         let after := Py.drop (mend func_call_null - 1) check_line in
         found (cmp_tail_re "==" "NULL") after
         || found (cmp_tail_re "==" "0") after
         || found (cmp_tail_re "!=" "NULL") after
         || found (cmp_tail_re "!=" "0") after
     | None => false
     end.

(** The loop [for t in range(k+1, min(k+11, end_idx+1))]: [lines[t]] is
    read before anything else, and raises behind the last line. *)
Fixpoint guard_search (v : string) (ts : list nat) : result bool :=
  match ts with
  | [] => OK false
  | t :: ts' =>
      match nth_error lines t with
      | None => IndexError
      | Some check_line =>
          if guards v check_line then OK true else guard_search v ts'
      end
  end.

(** [range(a, b)] *)
Definition range (a b : nat) : list nat := seq a (b - a).

(** The allocations of the function and whether each was found to be
    checked; the source computes this and reports nothing. *)
Fixpoint alloc_checks (sp : span) (kls : list (nat * string))
    : result (list (nat * bool)) :=
  match kls with
  | [] => OK []
  | (k, l) :: kls' =>
      if found alloc_in_condition_re l then alloc_checks sp kls'
      else
        match re_search alloc_assign_re l with
        | Some m =>
            let v := group 1 m in
            checked <- guard_search v (range (k + 1)
                                             (Nat.min (k + 11) (sp_end sp + 1))) ;;
            more <- alloc_checks sp kls' ;;
            OK ((k + 1, checked) :: more)
        | None => alloc_checks sp kls'
        end
  end.

Definition exit_goto_issues (sp : span) : list Issue :=
  flat_map (fun kl =>
              (if found exit_re (snd kl)
               then [mkIssue path (fst kl + 1) 25 exit_msg] else [])
              ++ (if found goto_re (snd kl)
                  then [mkIssue path (fst kl + 1) 26 goto_msg] else []))
           (span_lines sp).

Definition float_cmp_issues (sp : span) : list Issue :=
  flat_map (fun kl =>
              if found fraction_re (snd kl) && found compare_re (snd kl)
              then [mkIssue path (fst kl + 1) 14 float_cmp_msg] else [])
           (span_lines sp).

(** The detectors on one located function, in the order of the source. *)
Definition span_checks (sp : span) : result (list Issue) :=
  let before :=
    length_issues sp ++ nesting_issues sp ++ span_param_issues sp
    ++ unused_param_issues sp ++ scanf_issues sp in
  _ <- alloc_checks sp (span_lines sp) ;;
  OK (before ++ exit_goto_issues sp ++ float_cmp_issues sp).

Definition span_pass : result (list Issue) :=
  scan lines span_checks nlines 0.

End SpanChecks.

(* ================================================================== *)
(** ** Rules 5 and 21, the global-variable scan, the whole engine *)

(** Rule 5: the numeric literals of a line other than 0, 1 and -1; lines
    that begin with [#] or contain [enum] or [define] are passed over. *)
Definition magic_skipped (l : string) : bool :=
  Py.startswith "#" (Py.strip l) || Py.contains "enum" l
  || Py.contains "define" (Py.lower l).

Definition is_allowed_literal (val : string) : bool :=
  String.eqb val "0" || String.eqb val "1" || String.eqb val "-1".

Definition magic_values (l : string) : list string :=
  filter (fun val => negb (is_allowed_literal val))
         (map (group 1) (finditer number_literal_re l)).

Definition magic_line_issues (path : string) (i : nat) (l : string)
    : list Issue :=
  if magic_skipped l then []
  else map (fun val => mkIssue path i 5 (magic_msg val)) (magic_values l).

Definition magic_issues (path : string) (lines : list string) : list Issue :=
  flat_map (fun il => magic_line_issues path (fst il) (snd il))
           (enumerate 1 lines).

(** Rule 21 *)
Definition redundant_line_issues (path : string) (i : nat) (l : string)
    : list Issue :=
  if found (self_op_re "+" "0") l || found (self_op_re "*" "1") l
  then [mkIssue path i 21 redundant_msg] else [].

Definition redundant_issues (path : string) (lines : list string)
    : list Issue :=
  flat_map (fun il => redundant_line_issues path (fst il) (snd il))
           (enumerate 1 lines).

(** *** The global-variable scan (rule 27)

    The source computes the names below and reports nothing. *)

Fixpoint first_func_line (ls : list string) (idx_l : nat) : option nat :=
  match ls with
  | [] => None
  | l :: ls' =>
      if matches func_def_re (Py.strip l) then Some idx_l
      else first_func_line ls' (S idx_l)
  end.

Definition search_region (lines : list string) : list string :=
  let scan_limit :=
    match first_func_line lines 0 with
    | Some n => n
    | None => Nat.min (length lines) 300
    end in
  firstn scan_limit lines.

Definition region_skipped (l : string) : bool :=
  Py.startswith "#" (Py.strip l) || matches slashes_line_re l
  || matches block_line_re l.

(** The lines from [j] up to the first one with a semicolon: the lines,
    the index behind them and whether a semicolon was found. *)
Fixpoint collect_block (ls : list string) (j : nat)
    : list string * nat * bool :=
  match ls with
  | [] => ([], j, false)
  | l :: ls' =>
      if Py.contains ";" l then ([l], S j, true)
      else let '(block, j', found_semicolon) := collect_block ls' (S j) in
           (l :: block, j', found_semicolon)
  end.

(** The block without comments, stripped. *)
Definition block_token (block_lines : list string) : string :=
  let raw_block := Py.join_lines block_lines in
  let no_comments := re_sub block_comment_s_re "" raw_block in
  let no_comments := re_sub line_comment_re "" no_comments in
  Py.strip no_comments.

Definition has_parens (tok : string) : bool :=
  Py.contains "(" tok && Py.contains ")" tok.

Section GlobalScan.

Variable region : list string.

(** The inner loop [while i < len(search_region)], which starts again at
    the first line; the findings are the line numbers and the names. *)
Fixpoint global_inner (fuel i : nat) : list (nat * string) :=
  match fuel with
  | 0 => []
  | S fuel' =>
      match nth_error region i with
      | None => []
      | Some l =>
          if region_skipped l then global_inner fuel' (S i)
          else
            let '(block_lines, j, found_semicolon) :=
              collect_block (skipn i region) i in
            if negb found_semicolon then global_inner fuel' j
            else
              let tok := block_token block_lines in
              if matches typedef_re tok || matches type_decl_re tok
                 || has_parens tok || matches extern_re tok
                 || matches static_re tok
              then global_inner fuel' j
              else
                match re_search global_var_re tok with
                | Some var_match =>
                    (i + 1, group 1 var_match) :: global_inner fuel' j
                | None => global_inner fuel' j
                end
      end
  end.

(** The outer loop: the first block that is a candidate hands over to
    the inner loop, behind which [i] is at the end of the region. *)
Fixpoint global_outer (fuel i : nat) : list (nat * string) :=
  match fuel with
  | 0 => []
  | S fuel' =>
      match nth_error region i with
      | None => []
      | Some l =>
          if region_skipped l then global_outer fuel' (S i)
          else
            let '(block_lines, j, found_semicolon) :=
              collect_block (skipn i region) i in
            if negb found_semicolon then global_outer fuel' j
            else
              let tok := block_token block_lines in
              if matches typedef_re tok || matches type_decl_re tok
                 || has_parens tok
                 || String.eqb tok "" || String.eqb tok ";"
              then global_outer fuel' j
              else global_inner (length region) 0
      end
  end.

End GlobalScan.

Definition global_var_findings (lines : list string) : list (nat * string) :=
  let region := search_region lines in
  global_outer region (length region) 0.

(** *** One file, and all files *)

(** The body of the loop over the files. *)
Definition check_file (path : string) (lines : list string)
    : result (list Issue) :=
  let line_level := line_pass path lines in
  span_level <- span_pass path lines ;;
  let magic := magic_issues path lines in
  let redundant := redundant_issues path lines in
  let _ := global_var_findings lines in
  OK (line_level ++ span_level ++ magic ++ redundant).

(** [run_checks_on_files]; the dictionary is the list of its items in
    the order of iteration. *)
Definition run_checks_on_files (file_lines_map : list (string * list string))
    : result (list Issue) :=
  fold_left (fun acc item =>
               issues <- acc ;;
               found_here <- check_file (fst item) (snd item) ;;
               OK (issues ++ found_here))
            file_lines_map (OK []).

(* ================================================================== *)
(** ** Notions used to state the properties *)

(** The number of elements of a list with a property. *)
Definition count_if {A : Type} (P : A -> bool) (l : list A) : nat :=
  length (filter P l).

(** An action run over the elements of a list one after the other, the
    outputs appended.  [scan_collect] shows that the loop over the
    functions does this with the located functions, [run_collect] that
    the loop over the files does it with the files. *)
Fixpoint collect {S A : Type} (act : S -> result (list A)) (l : list S)
    : result (list A) :=
  match l with
  | [] => OK []
  | x :: l' =>
      out <- act x ;; more <- collect act l' ;; OK (out ++ more)
  end.

(** The analysis of one item of the dictionary. *)
Definition check_item (item : string * list string) : result (list Issue) :=
  check_file (fst item) (snd item).

(** The functions the loop locates from [idx] on, and all of them. *)
Definition spans_from (lines : list string) (fuel idx : nat) : list span :=
  match scan lines (fun sp => OK [sp]) fuel idx with
  | OK sps => sps
  | IndexError => []
  end.

Definition function_spans (lines : list string) : list span :=
  spans_from lines (length lines) 0.

(** What the loop establishes about a function it locates. *)
Definition located (lines : list string) (sp : span) : Prop :=
  exists l,
    nth_error lines (sp_start sp) = Some l
    /\ Py.startswith "#" (Py.strip l) = false
    /\ func_def l = Some (sp_name sp, sp_params sp)
    /\ find_end (skipn (sp_start sp) lines) (sp_start sp) 0%Z false 0%Z
       = (sp_end sp, sp_max_brace sp).

(** The rule numbers of the two passes. *)
Definition line_rules : list nat := [3; 0; 2; 12; 10].
Definition span_rules : list nat := [4; 12; 18; 8; 25; 26; 14].

(** Whether a name fits one of the three accepted styles. *)
Definition fits_a_style (name : string) : bool :=
  matches camel_style name || matches snake_style name
  || matches pascal_style name.

(** The issues of a file with a given rule at a given line. *)
Definition is_rule_at (path : string) (r ln : nat) (x : Issue) : bool :=
  String.eqb (file x) path && (rule x =? r) && (line x =? ln).

(** The messages of the two parameter-count issues begin differently
    from that of the nesting issue, which has rule 12 as well. *)
Definition is_params_msg (msg : string) : bool :=
  String.prefix "У функции '" msg || String.prefix "Функция '" msg.

Definition is_param_count_issue (path : string) (ln : nat) (x : Issue)
    : bool :=
  is_rule_at path 12 ln x && is_params_msg (message x).



(** The inputs of the examples. *)
Definition puts_line : string :=       (* puts("vvod 42"); *)
  ("puts(" ++ String dquote ("vvod 42" ++ String dquote ");"))%string.
Definition sign_lines : list string :=
  ["int sign(int x) {"; "if (x > 0) return 1;"; "if (x < 0) return -1;";
   "return 0;"; "}"].
Definition counter_lines : list string :=
  ["int counter;"; "int main() {"; "p = malloc(1);"; "}"].
Definition pair_lines : list string :=
  ["int f(int a, int b) {"; "return a;"; "}"].
Definition six_lines : list string :=
  ["int f(int a, int b, int c, int d, int e, int g) {";
   "return a + b + c + d + e + g;"; "}"].


(* ================================================================== *)
(** ** Notions used to state the further properties *)

(** Whether every character of a text is in a class. *)
Fixpoint all_chars (p : ascii -> bool) (s : string) : bool :=
  match s with
  | EmptyString => true
  | String a s' => p a && all_chars p s'
  end.

(** A text without the newline that ends it, if one does. *)
Fixpoint chomp (s : string) : string :=
  match s with
  | EmptyString => EmptyString
  | String a EmptyString =>
      if Ascii.eqb a newline then EmptyString else s
  | String a s' => String a (chomp s')
  end.

(** A first character of one class, then characters of another. *)
Definition shaped (first others : ascii -> bool) (s : string) : bool :=
  match s with
  | EmptyString => false
  | String c s' => first c && all_chars others s'
  end.

(** The three accepted styles, character by character. *)
Definition is_camel (name : string) : bool :=
  shaped is_lower is_ascii_alnum (chomp name).
Definition is_snake (name : string) : bool :=
  shaped is_lower (fun c => is_lower c || is_digit c || is_underscore c)
         (chomp name).
Definition is_pascal (name : string) : bool :=
  shaped is_upper is_ascii_alnum (chomp name).

(** The braces of the lines [ls], string literals replaced, counted on
    from a level. *)
Fixpoint braces_over (ls : list string) (brace : Z) (started : bool)
    : Z * bool :=
  match ls with
  | [] => (brace, started)
  | l :: ls' =>
      let '(brace, started) :=
        count_braces (re_sub string_literal_re two_quotes l) brace started in
      braces_over ls' brace started
  end.

(** Whether, behind line [j], a brace has been opened since line [start]
    and all braces since then are closed. *)
Definition closed_at (lines : list string) (start j : nat) : bool :=
  let '(brace, started) := braces_over (Py.slice start (j + 1) lines) 0%Z false in
  started && (brace =? 0)%Z.

(** A text that a word can end in front of: empty, or beginning with a
    character that is not a word character. *)
Definition no_word_start (t : string) : bool :=
  match t with
  | EmptyString => true
  | String c _ => negb (is_word c)
  end.

(* ================================================================== *)
(** ** The helpers around the engine and the loop of [main]

    The requests to GitLab are not part of the embedding: a function
    that sends a GET request takes what the request yields, a value of
    [response], as an argument, and the POST requests that [main] sends
    are the [action]s it returns, in the order of sending.  Logging and
    [time.sleep] are left out.  The JSON of a response is taken to have
    the shape the code reads: lists of objects, an id an integer, a
    status, a title and a path a string, [resolvable] and [resolved]
    truth values; a key that may be missing is an [option]. *)

(** What a GET request yields: the decoded JSON, the [HTTPError] of
    [raise_for_status], or another exception. *)
Inductive response (A : Type) : Type :=
| Got (a : A)
| HttpError
| Failed.
Arguments Got {A} a.
Arguments HttpError {A}.
Arguments Failed {A}.

(** The exceptions that reach the handler at the end of the script. *)
Inductive exn : Type :=
| RequestFailed        (* an exception of a request that is not caught *)
| LineIndexError.      (* the IndexError of the engine *)

Inductive outcome (A : Type) : Type :=
| Done (a : A)
| Raised (e : exn).
Arguments Done {A} a.
Arguments Raised {A} e.

(** *** [mr_has_successful_pipeline] *)

Record pipeline : Type := mkPipeline {
  pl_id : option Z;
  pl_status : option string
}.

(** [p.get("id", 0)] *)
Definition pipeline_key (p : pipeline) : Z :=
  match pl_id p with Some n => n | None => 0%Z end.

(** [sorted(pipelines, key=..., reverse=True)]: the stable sort by
    falling key, by insertion from the right. *)
Fixpoint insert_desc (p : pipeline) (l : list pipeline) : list pipeline :=
  match l with
  | [] => [p]
  | q :: l' =>
      if (pipeline_key p <? pipeline_key q)%Z then q :: insert_desc p l'
      else p :: l
  end.
Definition sorted_desc (l : list pipeline) : list pipeline :=
  fold_right insert_desc [] l.

Definition is_success (p : pipeline) : bool :=
  match pl_status p with
  | Some status => String.eqb status "success"
  | None => false
  end.

Definition mr_has_successful_pipeline (r : response (list pipeline))
    : outcome bool :=
  match r with
  | Got pipelines =>
      match sorted_desc pipelines with
      | [] => Done false
      | latest :: _ => Done (is_success latest)
      end
  | HttpError => Done false
  | Failed => Raised RequestFailed
  end.

(** *** [mr_has_unresolved_discussions] *)

Record note : Type := mkNote {
  nt_resolvable : option bool;
  nt_resolved : option bool
}.
Record discussion : Type := mkDiscussion {
  ds_resolvable : option bool;
  ds_resolved : option bool;
  ds_notes : list note
}.

(** [x.get("resolvable", False) and not x.get("resolved", False)] *)
Definition is_open (resolvable resolved : option bool) : bool :=
  match resolvable with Some b => b | None => false end
  && negb (match resolved with Some b => b | None => false end).

Definition mr_has_unresolved_discussions (r : response (list discussion))
    : outcome bool :=
  match r with
  | Got discussions =>
      Done (existsb (fun d =>
                       is_open (ds_resolvable d) (ds_resolved d)
                       || existsb (fun n => is_open (nt_resolvable n)
                                                    (nt_resolved n))
                                  (ds_notes d))
                    discussions)
  | HttpError => Done true
  | Failed => Raised RequestFailed
  end.

(** *** [list_assigned_mrs] *)

Section Pages.

Context {A : Type}.
(** What the request for a page yields. *)
Variable page_of : nat -> response (list A).

(** The loop [while True]; [None] when the turns are used up. *)
Fixpoint list_pages (turns page : nat) (mrs : list A)
    : option (outcome (list A)) :=
  match turns with
  | 0 => None
  | S turns' =>
      match page_of page with
      | Got chunk =>
          match chunk with
          | [] => Some (Done mrs)
          | _ =>
              if length chunk <? 100 then Some (Done (mrs ++ chunk))
              else list_pages turns' (page + 1) (mrs ++ chunk)
          end
      | _ => Some (Raised RequestFailed)
      end
  end.

Definition list_assigned_mrs (turns : nat) : option (outcome (list A)) :=
  list_pages turns 1 [].

End Pages.

(** *** [fetch_changed_c_files] *)

(** [str.splitlines] for characters below 256: the line ends are
    [\n], [\r], [\r\n], [\v], [\f], [\x1c], [\x1d], [\x1e] and [\x85]. *)
Definition is_line_end (c : ascii) : bool :=
  in_range 10 13 c || in_range 28 30 c || (code c =? 133).

Fixpoint splitlines_from (line_rev : list ascii) (s : string) : list string :=
  match s with
  | EmptyString =>
      match line_rev with
      | [] => []
      | _ => [string_of_list_ascii (rev line_rev)]
      end
  | String c s' =>
      if is_line_end c then
        string_of_list_ascii (rev line_rev)
        :: match s' with
           | String d s'' =>
               if (code c =? 13) && (code d =? 10) then splitlines_from [] s''
               else splitlines_from [] s'
           | EmptyString => splitlines_from [] s'
           end
      else splitlines_from (c :: line_rev) s'
  end.
Definition splitlines (s : string) : list string := splitlines_from [] s.

(** [s.endswith(suffix)] *)
Definition endswith (suffix s : string) : bool :=
  let n := String.length s - String.length suffix in
  (String.length suffix <=? String.length s)
  && String.eqb (Py.drop n s) suffix.

(** [result[k] = v] on a dictionary as the list of its items. *)
Fixpoint dict_set {V : Type} (k : string) (v : V) (d : list (string * V))
    : list (string * V) :=
  match d with
  | [] => [(k, v)]
  | (k', v') :: d' =>
      if String.eqb k' k then (k, v) :: d' else (k', v') :: dict_set k v d'
  end.

Fixpoint dict_get {V : Type} (k : string) (d : list (string * V)) : option V :=
  match d with
  | [] => None
  | (k', v) :: d' => if String.eqb k' k then Some v else dict_get k d'
  end.

(** One entry of ["changes"]: its ["new_path"] and what the request for
    the raw file yields, the text when the status is 200. *)
Record change : Type := mkChange {
  new_path : option string;
  raw_text : option string
}.

Definition is_c_path (p : string) : bool := endswith ".c" p || endswith ".h" p.

Definition fetch_step (result : list (string * list string)) (ch : change)
    : list (string * list string) :=
  match new_path ch with
  | None => result
  | Some p =>
      if String.eqb p "" then result
      else if negb (is_c_path p) then result
      else match raw_text ch with
           | Some text => dict_set p (splitlines text) result
           | None => result
           end
  end.

Definition fetch_changed_c_files (r : response (list change))
    : outcome (list (string * list string)) :=
  match r with
  | Got changes => Done (fold_left fetch_step changes [])
  | HttpError => Done []
  | Failed => Raised RequestFailed
  end.

(** *** The loop of [main] *)

Record merge_request : Type := mkMR {
  mr_project : Z;
  mr_iid : Z;
  mr_title : string;
  mr_has_conflicts : bool;
  (* the ['resolved'] of the entries of ["discussions"] *)
  mr_discussions : list (option bool)
}.

(** What the requests for one merge request yield. *)
Record responses : Type := mkResponses {
  rs_pipelines : response (list pipeline);
  rs_discussions : response (list discussion);
  rs_changes : response (list change);
  rs_approved : bool      (* whether the request to approve succeeds *)
}.

(** An issue of [main]: file and line may be [None]. *)
Record finding : Type := mkFinding {
  f_file : option string;
  f_line : option nat;
  f_rule : nat;
  f_message : string
}.

Definition of_issue (i : Issue) : finding :=
  mkFinding (Some (file i)) (Some (line i)) (rule i) (message i).

(** The POST requests. *)
Inductive action : Type :=
| Approve (project iid : Z)
| PostNote (project iid : Z) (body : string)
| PostInline (project iid : Z) (path : string) (line : nat) (body : string).

(** [(?i)\blab\s*\d+\b] *)
Definition lab_title_re : regex := seqs [WordB; LitI "lab"; ws; digits; WordB].

Definition nl : string := String newline EmptyString.

Module MainText.
Local Open Scope string_scope.

Definition title_msg : string :=
  "Назовите понятно merge request (например, 'lab 1') (правило 0).".
Definition conflict_msg : string :=
  "В Merge Request обнаружены конфликты слияния. Их необходимо разрешить перед merge.".
Definition discussion_msg : string :=
  "В Merge Request есть неразрешённые дискуссии. Пожалуйста, разрешите все обсуждения перед слиянием.".
Definition pass_summary : string :=
  ":white_check_mark Вас проверила автоматика Lint-Bot :cop: : не найдено нарушений. Lint-Bot :cop: доволен"
  ++ nl ++ nl ++ "Проверены правила: 0..29." ++ nl ++ nl.
Definition approved_text : string :=
  nl ++ "Решение: Автоматически установлен Approve." ++ nl.
Definition not_approved_text : string :=
  nl ++ "Решение: Approve не установлен (check token/permissions)." ++ nl.
Definition fail_head : list string :=
  [":x: Вас проверила автоматика Lint-Bot :cop: : найдены возможные нарушения.";
   ""; "Результат:"].
Definition note_head : string :=
  "Результаты автоматического ревью:" ++ nl ++ nl.

End MainText.
Import MainText.

Definition title_issues (title : string) : list finding :=
  if found lab_title_re title then []
  else [mkFinding None None 0 title_msg].

Definition conflict_issues (has_conflicts : bool) : list finding :=
  if has_conflicts then [mkFinding None None 0 conflict_msg] else [].

(** The loop over ["discussions"], which ends behind its first turn. *)
Definition discussion_issues (discussions : list (option bool))
    : list finding :=
  match discussions with
  | [] => []
  | d :: _ =>
      if negb (match d with Some b => b | None => true end)
      then [mkFinding None None 0 discussion_msg] else []
  end.

(** [it.get('file') and it.get('line')] as a truth value. *)
Definition has_place (it : finding) : option (string * nat) :=
  match f_file it, f_line it with
  | Some p, Some n =>
      if negb (String.eqb p "") && negb (n =? 0) then Some (p, n) else None
  | _, _ => None
  end.

Definition place_text (it : finding) : string :=
  match has_place it with
  | Some (p, n) => (p ++ ":" ++ Py.str_of_nat n)%string
  | None =>
      match f_file it with
      | Some p => if String.eqb p "" then "(project)" else p
      | None => "(project)"
      end
  end.

Definition summary_line (it : finding) : string :=
  ("- Rule " ++ Py.str_of_nat (f_rule it) ++ ": " ++ place_text it ++ " — "
   ++ f_message it)%string.

Definition inline_text (it : finding) : string :=
  ("Правило " ++ Py.str_of_nat (f_rule it) ++ ": " ++ f_message it)%string.

Definition inline_actions (project iid : Z) (issues : list finding)
    : list action :=
  flat_map (fun it =>
              match has_place it with
              | Some (p, n) => [PostInline project iid p n (inline_text it)]
              | None => []
              end)
           issues.

Definition lift {A : Type} (r : result A) : outcome A :=
  match r with
  | OK a => Done a
  | IndexError => Raised LineIndexError
  end.

Definition obind {A B : Type} (o : outcome A) (f : A -> outcome B)
    : outcome B :=
  match o with
  | Done a => f a
  | Raised e => Raised e
  end.

(** The issues of the merge request itself. *)
Definition early_issues (mr : merge_request) : list finding :=
  title_issues (mr_title mr) ++ conflict_issues (mr_has_conflicts mr)
  ++ discussion_issues (mr_discussions mr).

(** The requests that report the issues of a merge request. *)
Definition report (approve_on_pass approved : bool) (project iid : Z)
    (issues : list finding) : list action :=
  match issues with
  | [] =>
      if approve_on_pass
      then [Approve project iid;
            PostNote project iid
              (pass_summary ++ (if approved then approved_text
                                else not_approved_text))%string]
      else [PostNote project iid pass_summary]
  | _ =>
      let summary_text :=
        Py.join_lines (fail_head ++ map summary_line issues) in
      inline_actions project iid issues
      ++ [PostNote project iid (note_head ++ summary_text)%string]
  end.

(** One turn of the loop [for mr in mrs] of [main]. *)
Definition review (approve_on_pass : bool) (mr : merge_request)
    (rs : responses) : outcome (list action) :=
  let early := early_issues mr in
  obind (mr_has_successful_pipeline (rs_pipelines rs)) (fun ok_pipeline =>
  if negb ok_pipeline then Done []
  else
    obind (mr_has_unresolved_discussions (rs_discussions rs)) (fun _ =>
    obind (fetch_changed_c_files (rs_changes rs)) (fun files =>
    obind (match files with
           | [] => Done []
           | _ => lift (run_checks_on_files files)
           end) (fun found_issues =>
    Done (report approve_on_pass (rs_approved rs)
                 (mr_project mr) (mr_iid mr)
                 (map of_issue found_issues ++ early)))))).

(** The loop: the requests sent, and the exception that ended it, if
    one did. *)
Fixpoint review_all (approve_on_pass : bool)
    (mrs : list (merge_request * responses)) : list action * option exn :=
  match mrs with
  | [] => ([], None)
  | (mr, rs) :: mrs' =>
      match review approve_on_pass mr rs with
      | Done acts =>
          let '(more, e) := review_all approve_on_pass mrs' in
          (acts ++ more, e)
      | Raised e => ([], Some e)
      end
  end.

(** The entries of a page; none when the request failed. *)
Definition chunk_of {A : Type} (r : response (list A)) : list A :=
  match r with
  | Got c => c
  | _ => []
  end.

(** What [fetch_changed_c_files] keeps true of its dictionary. *)
Definition fetched_from (changes : list change)
    (result : list (string * list string)) : Prop :=
  NoDup (map fst result)
  /\ forall path lines, In (path, lines) result ->
       is_c_path path = true
       /\ exists text, In (mkChange (Some path) (Some text)) changes
                       /\ lines = splitlines text.

(** Merge requests and responses for the examples. *)
Definition lab_mr : merge_request := mkMR 7 3 "Lab 1: sorting" false [].
Definition untitled_mr : merge_request := mkMR 7 4 "fix" false [].
Definition responses_with (text : string) : responses :=
  mkResponses (Got [mkPipeline (Some 5%Z) (Some "success")])
              (Got [])
              (Got [mkChange (Some "a.c") (Some text)])
              true.
Definition clean_text : string :=
  ("int main(void) {" ++ nl ++ "return 0;" ++ nl ++ "}" ++ nl)%string.
Definition unclosed_text : string :=
  ("int main() {" ++ nl ++ "p = malloc(4);")%string.
Definition open_discussion : discussion :=
  mkDiscussion (Some true) (Some false) [].

(* ================================================================== *)
(** * Properties *)

(** The patterns and the text functions stay folded in the proofs about
    the structure of the output. *)
Arguments found : simpl never.
Arguments matches : simpl never.
Arguments re_search : simpl never.
Arguments re_match : simpl never.
Arguments re_sub : simpl never.
Arguments finditer : simpl never.
Arguments func_def : simpl never.
Arguments var_decl : simpl never.
Arguments matched_style : simpl never.
Arguments strip_text : simpl never.
Arguments skipped_line : simpl never.
Arguments magic_skipped : simpl never.
Arguments magic_values : simpl never.
Arguments count_returns : simpl never.
Arguments param_count : simpl never.
Arguments param_names : simpl never.
Arguments find_end : simpl never.
Arguments Py.strip : simpl never.
Arguments Py.startswith : simpl never.
Arguments Py.str_of_nat : simpl never.
Arguments Py.str_of_Z : simpl never.
Arguments Py.slice : simpl never.
Arguments body_text : simpl never.
Arguments scanf_context : simpl never.
Arguments guards : simpl never.

(** ** Lists, [enumerate] and [result] *)

Section ListFacts.

Context {A : Type}.

Lemma in_enumerate (l : list A) (s i : nat) (x : A) :
  In (i, x) (enumerate s l) <-> s <= i /\ nth_error l (i - s) = Some x.
Proof.
  revert s. induction l as [|a l IH]; intros s; simpl.
  - split; [tauto|]. intros [_ H]. destruct (i - s); discriminate.
  - rewrite IH. split.
    + intros [H | [Hle H]].
      * inversion H; subst. split; [lia|]. now rewrite Nat.sub_diag.
      * split; [lia|]. replace (i - s) with (S (i - S s)) by lia. exact H.
    + intros [Hle H]. destruct (Nat.eq_dec s i) as [-> | Hne].
      * rewrite Nat.sub_diag in H. simpl in H. left. congruence.
      * right. split; [lia|].
        replace (i - s) with (S (i - S s)) in H by lia. exact H.
Qed.

Lemma enumerate_app (l1 l2 : list A) (s : nat) :
  enumerate s (l1 ++ l2) = enumerate s l1 ++ enumerate (s + length l1) l2.
Proof.
  revert s. induction l1 as [|a l1 IH]; intros s; simpl.
  - now rewrite Nat.add_0_r.
  - rewrite IH. do 3 f_equal. lia.
Qed.

Lemma enumerate_fst_ge (l : list A) (s : nat) (p : nat * A) :
  In p (enumerate s l) -> s <= fst p.
Proof.
  destruct p as [i x]. rewrite in_enumerate. simpl. tauto.
Qed.

Lemma nth_error_split_at (l : list A) (i : nat) (x : A) :
  nth_error l i = Some x ->
  exists l1 l2, l = l1 ++ x :: l2 /\ length l1 = i.
Proof.
  intros H. apply nth_error_split in H. exact H.
Qed.

Lemma count_if_app (P : A -> bool) (l1 l2 : list A) :
  count_if P (l1 ++ l2) = count_if P l1 + count_if P l2.
Proof. unfold count_if. now rewrite filter_app, length_app. Qed.

Lemma count_if_none (P : A -> bool) (l : list A) :
  (forall x, In x l -> P x = false) -> count_if P l = 0.
Proof.
  unfold count_if. induction l as [|a l IH]; intros H; simpl; [reflexivity|].
  rewrite (H a) by now left. apply IH. intros x Hx. apply H. now right.
Qed.

Lemma count_if_flat_map_none {B : Type} (P : A -> bool) (f : B -> list A)
    (l : list B) :
  (forall b x, In b l -> In x (f b) -> P x = false) ->
  count_if P (flat_map f l) = 0.
Proof.
  intros H. apply count_if_none. intros x Hx.
  apply in_flat_map in Hx. destruct Hx as [b [Hb Hx]]. eauto.
Qed.

End ListFacts.

Lemma bind_OK {A B : Type} (r : result A) (f : A -> result B) (b : B) :
  bind r f = OK b -> exists a, r = OK a /\ f a = OK b.
Proof. destruct r as [a|]; simpl; [eauto | discriminate]. Qed.

(** ** The loop over the functions *)

Lemma scan_spans (lines : list string) (fuel idx : nat) :
  scan lines (fun sp => OK [sp]) fuel idx = OK (spans_from lines fuel idx).
Proof.
  unfold spans_from. revert idx.
  induction fuel as [|fuel IH]; intros idx; simpl; [reflexivity|].
  destruct (nth_error lines idx) as [l|]; [|reflexivity].
  destruct (Py.startswith "#" (Py.strip l)); [apply IH|].
  destruct (func_def l) as [[fname params]|]; [|apply IH].
  destruct (find_end _ _ _ _ _) as [end_idx max_brace]. simpl.
  specialize (IH (S end_idx)).
  destruct (scan lines _ fuel (S end_idx)); [reflexivity | discriminate].
Qed.

Lemma scan_collect {A : Type} (lines : list string)
    (act : span -> result (list A)) (fuel idx : nat) :
  scan lines act fuel idx = collect act (spans_from lines fuel idx).
Proof.
  revert idx. induction fuel as [|fuel IH]; intros idx.
  - reflexivity.
  - unfold spans_from. simpl.
    destruct (nth_error lines idx) as [l|]; [|reflexivity].
    destruct (Py.startswith "#" (Py.strip l)); [apply IH|].
    destruct (func_def l) as [[fname params]|]; [|apply IH].
    destruct (find_end _ _ _ _ _) as [end_idx max_brace]. simpl.
    rewrite scan_spans. simpl. now rewrite IH.
Qed.

Lemma collect_app {S A : Type} (act : S -> result (list A))
    (l1 l2 : list S) (out : list A) :
  collect act (l1 ++ l2) = OK out ->
  exists o1 o2, collect act l1 = OK o1 /\ collect act l2 = OK o2
                /\ out = o1 ++ o2.
Proof.
  revert out. induction l1 as [|sp l1 IH]; intros out H; simpl in *.
  - exists [], out. auto.
  - apply bind_OK in H. destruct H as [o [Ho H]].
    apply bind_OK in H. destruct H as [more [Hmore H]].
    inversion H; subst; clear H.
    destruct (IH _ Hmore) as [o1 [o2 [H1 [H2 ->]]]].
    exists (o ++ o1), o2. rewrite Ho, H1. simpl.
    rewrite app_assoc. auto.
Qed.

Lemma collect_in {S A : Type} (act : S -> result (list A))
    (sps : list S) (out : list A) (x : A) :
  collect act sps = OK out ->
  (In x out <-> exists sp o, In sp sps /\ act sp = OK o /\ In x o).
Proof.
  revert out. induction sps as [|sp sps IH]; intros out H; simpl in *.
  - inversion H; subst. split; [contradiction|]. now intros [sp [o [[] _]]].
  - apply bind_OK in H. destruct H as [o [Ho H]].
    apply bind_OK in H. destruct H as [more [Hmore H]].
    inversion H; subst; clear H. rewrite in_app_iff, (IH _ Hmore).
    split.
    + intros [Hx | [sp' [o' [Hin [Hact Hx]]]]].
      * exists sp, o. auto.
      * exists sp', o'. auto.
    + intros [sp' [o' [[<- | Hin] [Hact Hx]]]].
      * left. congruence.
      * right. eauto.
Qed.

Lemma collect_all_OK {S A : Type} (act : S -> result (list A))
    (sps : list S) (out : list A) (sp : S) :
  collect act sps = OK out -> In sp sps -> exists o, act sp = OK o.
Proof.
  revert out. induction sps as [|sp' sps IH]; intros out H Hin; simpl in *.
  - contradiction.
  - apply bind_OK in H. destruct H as [o [Ho H]].
    apply bind_OK in H. destruct H as [more [Hmore H]].
    destruct Hin as [<- | Hin]; eauto.
Qed.

Lemma find_end_bounds (ls : list string) (j : nat) (brace : Z)
    (started : bool) (max_brace : Z) :
  j <= fst (find_end ls j brace started max_brace) <= j + length ls.
Proof.
  revert j brace started max_brace.
  induction ls as [|l ls IH]; intros j brace started max_brace.
  - unfold find_end. simpl. lia.
  - unfold find_end; fold find_end.
    destruct (count_braces _ brace started) as [brace' started'].
    destruct (started' && (brace' =? 0)%Z).
    + simpl. lia.
    + match goal with |- context [find_end ls ?a ?b ?c ?d] =>
        specialize (IH a b c d) end. simpl length. lia.
Qed.

Lemma scan_fuel {A : Type} (lines : list string)
    (act : span -> result (list A)) (f1 f2 idx : nat) :
  length lines <= idx + f1 -> length lines <= idx + f2 ->
  scan lines act f1 idx = scan lines act f2 idx.
Proof.
  revert f2 idx. induction f1 as [|f1 IH]; intros f2 idx H1 H2.
  - assert (Hn : nth_error lines idx = None) by (apply nth_error_None; lia).
    destruct f2; simpl; [reflexivity | now rewrite Hn].
  - destruct f2 as [|f2].
    + assert (Hn : nth_error lines idx = None) by (apply nth_error_None; lia).
      simpl. now rewrite Hn.
    + simpl. destruct (nth_error lines idx) as [l|]; [|reflexivity].
      destruct (Py.startswith "#" (Py.strip l)); [apply IH; lia|].
      destruct (func_def l) as [[fname params]|]; [|apply IH; lia].
      pose proof (find_end_bounds (skipn idx lines) idx 0%Z false 0%Z) as Hb.
      destruct (find_end _ _ _ _ _) as [end_idx max_brace]. simpl in Hb.
      destruct (act _); simpl; [|reflexivity].
      rewrite (IH f2 (S end_idx)) by lia. reflexivity.
Qed.

Lemma spans_from_located (lines : list string) (fuel idx : nat) (sp : span) :
  In sp (spans_from lines fuel idx) -> located lines sp /\ idx <= sp_start sp.
Proof.
  revert idx. induction fuel as [|fuel IH]; intros idx.
  - unfold spans_from. simpl. contradiction.
  - unfold spans_from. simpl.
    destruct (nth_error lines idx) as [l|] eqn:Hl; [|contradiction].
    destruct (Py.startswith "#" (Py.strip l)) eqn:Hh.
    { intros H. destruct (IH _ H). split; [assumption | lia]. }
    destruct (func_def l) as [[fname params]|] eqn:Hf.
    2:{ intros H. destruct (IH _ H). split; [assumption | lia]. }
    pose proof (find_end_bounds (skipn idx lines) idx 0%Z false 0%Z) as Hb.
    destruct (find_end _ _ _ _ _) as [end_idx max_brace] eqn:He.
    simpl in Hb. simpl. rewrite scan_spans. simpl.
    intros [<- | H].
    + split; [|simpl; lia]. exists l. simpl. auto.
    + destruct (IH _ H). split; [assumption | lia].
Qed.

Lemma located_start_unique (lines : list string) (sp sp' : span) :
  located lines sp -> located lines sp' -> sp_start sp = sp_start sp' ->
  sp = sp'.
Proof.
  intros [l [Hl [_ [Hf He]]]] [l' [Hl' [_ [Hf' He']]]] Hs.
  destruct sp, sp'. simpl in *. subst.
  rewrite Hl in Hl'. inversion Hl'; subst.
  rewrite Hf in Hf'. rewrite He in He'. congruence.
Qed.

Lemma located_end (lines : list string) (sp : span) :
  located lines sp -> sp_start sp <= sp_end sp <= length lines.
Proof.
  intros [l [Hl [_ [_ He]]]].
  pose proof (find_end_bounds (skipn (sp_start sp) lines) (sp_start sp)
                0%Z false 0%Z) as Hb.
  rewrite He in Hb. simpl in Hb. rewrite length_skipn in Hb.
  assert (sp_start sp < length lines) by (apply nth_error_Some; congruence).
  lia.
Qed.

Lemma spans_from_starts (lines : list string) (fuel idx : nat) :
  NoDup (map sp_start (spans_from lines fuel idx)).
Proof.
  revert idx. induction fuel as [|fuel IH]; intros idx.
  - unfold spans_from. simpl. constructor.
  - unfold spans_from. simpl.
    destruct (nth_error lines idx) as [l|] eqn:Hl; [|constructor].
    destruct (Py.startswith "#" (Py.strip l)); [apply IH|].
    destruct (func_def l) as [[fname params]|]; [|apply IH].
    pose proof (find_end_bounds (skipn idx lines) idx 0%Z false 0%Z) as Hb.
    destruct (find_end _ _ _ _ _) as [end_idx max_brace].
    simpl in Hb. simpl. rewrite scan_spans. simpl.
    constructor; [|apply IH].
    intros Hin. apply in_map_iff in Hin. destruct Hin as [sp' [Hs Hin]].
    apply spans_from_located in Hin. lia.
Qed.

Lemma function_spans_located (lines : list string) (sp : span) :
  In sp (function_spans lines) -> located lines sp.
Proof. intros H. now apply spans_from_located in H. Qed.

(** The outputs for one element counted among those for all, when the
    elements have distinct keys and the property tells the key. *)
Lemma collect_count {S K : Type} (key : S -> K)
    (act : S -> result (list Issue)) (P : Issue -> bool)
    (sps : list S) (out : list Issue) (sp : S) (o : list Issue) :
  collect act sps = OK out ->
  NoDup (map key sps) -> In sp sps -> act sp = OK o ->
  (forall sp' o' x, In sp' sps -> key sp' <> key sp ->
                    act sp' = OK o' -> In x o' -> P x = false) ->
  count_if P out = count_if P o.
Proof.
  revert out. induction sps as [|sp0 sps IH]; intros out Hc Hnd Hin Ho Hother.
  - contradiction.
  - simpl in Hc. apply bind_OK in Hc. destruct Hc as [o0 [Ho0 Hc]].
    apply bind_OK in Hc. destruct Hc as [more [Hmore Hc]].
    inversion Hc; subst; clear Hc. rewrite count_if_app.
    simpl in Hnd. inversion Hnd as [|? ? Hnotin Hnd']; subst.
    destruct Hin as [-> | Hin].
    + rewrite Ho in Ho0. inversion Ho0; subst.
      rewrite (count_if_none P more); [lia|].
      intros x Hx. apply (collect_in _ _ _ x Hmore) in Hx.
      destruct Hx as [sp' [o' [Hin' [Hact Hx]]]].
      apply (Hother sp' o'); auto; [now right|].
      intros Heq. apply Hnotin. rewrite <- Heq. now apply in_map.
    + rewrite (count_if_none P o0).
      * simpl. apply IH; auto. intros sp' o' x Hin' Hne. apply Hother; auto.
        now right.
      * intros x Hx. apply (Hother sp0 o0); auto; [now left|].
        intros Heq. apply Hnotin. rewrite Heq. now apply in_map.
Qed.

(** ** What each detector can emit *)

Ltac in_cases H :=
  repeat match type of H with
  | In _ (_ ++ _) => apply in_app_or in H; destruct H as [H | H]
  | In _ [] => contradiction H
  | In _ [_] => destruct H as [H | []]; try subst
  | In _ (if ?c then _ else _) => let E := fresh "E" in destruct c eqn:E
  | In _ (match ?o with Some _ => _ | None => _ end) =>
      let E := fresh "E" in destruct o eqn:E
  | In _ (let (_, _) := ?p in _) => destruct p
  end.

Lemma translit_issues_in (path : string) (i : nat) (l : string) (x : Issue) :
  In x (translit_issues path i l) <->
  exists t, In t translit_tokens /\ found (word_re_i t) l = true
            /\ x = mkIssue path i 3 (translit_msg t).
Proof.
  unfold translit_issues. rewrite in_flat_map. split.
  - intros [t [Ht H]]. exists t. in_cases H. auto.
  - intros [t [Ht [Hf ->]]]. exists t. rewrite Hf. simpl. auto.
Qed.

Lemma line_checks_facts (path : string) (lines : list string) (i : nat)
    (l : string) (x : Issue) :
  In x (line_checks path lines i l) ->
  file x = path /\ line x = i /\ In (rule x) line_rules.
Proof.
  unfold line_checks, amp_index_issues, func_line_issues, func_style_issues,
    line_param_issues, return_issues, var_style_issues, line_rules.
  intros H. destruct (skipped_line l); [contradiction|].
  apply in_app_or in H. destruct H as [H | H].
  { apply translit_issues_in in H. destruct H as [t [_ [_ ->]]].
    simpl. auto. }
  in_cases H; simpl; auto 10.
Qed.

Lemma in_line_pass (path : string) (lines : list string) (x : Issue) :
  In x (line_pass path lines) <->
  exists i l, nth_error lines i = Some l
              /\ In x (line_checks path lines (S i) l).
Proof.
  unfold line_pass. rewrite in_flat_map. split.
  - intros [[i l] [Hin H]]. apply in_enumerate in Hin. simpl in H.
    destruct Hin as [Hle Hn]. exists (i - 1), l.
    replace (S (i - 1)) with i by lia. auto.
  - intros [i [l [Hn H]]]. exists (S i, l). split; [|exact H].
    apply in_enumerate. split; [lia|]. simpl. now rewrite Nat.sub_0_r.
Qed.

Lemma line_pass_facts (path : string) (lines : list string) (x : Issue) :
  In x (line_pass path lines) ->
  file x = path /\ In (rule x) line_rules.
Proof.
  intros H. apply in_line_pass in H. destruct H as [i [l [_ H]]].
  apply line_checks_facts in H. tauto.
Qed.

Lemma span_lines_in (lines : list string) (sp : span) (k : nat) (l : string) :
  In (k, l) (span_lines lines sp) ->
  sp_start sp <= k /\ nth_error lines k = Some l.
Proof.
  unfold span_lines. intros H. apply in_enumerate in H.
  destruct H as [Hle H]. split; [assumption|].
  unfold Py.slice in H. rewrite nth_error_firstn in H.
  destruct (_ <? _); [|discriminate].
  rewrite nth_error_skipn in H. replace k with (sp_start sp + (k - sp_start sp))
    by lia. exact H.
Qed.

Lemma span_checks_facts (path : string) (lines : list string) (sp : span)
    (o : list Issue) (x : Issue) :
  span_checks path lines sp = OK o -> In x o ->
  file x = path /\ In (rule x) span_rules /\ sp_start sp + 1 <= line x
  /\ (In (rule x) [4; 12; 18] -> line x = sp_start sp + 1).
Proof.
  unfold span_checks. intros H Hx.
  apply bind_OK in H. destruct H as [checks [_ H]].
  inversion H; subst; clear H.
  unfold length_issues, nesting_issues, span_param_issues,
    unused_param_issues, scanf_issues, exit_goto_issues, float_cmp_issues,
    span_rules in Hx.
  repeat (apply in_app_or in Hx; destruct Hx as [Hx | Hx]);
    try (apply in_flat_map in Hx; destruct Hx as [y [Hy Hx]];
         try (destruct y as [k l]; apply span_lines_in in Hy));
    in_cases Hx; simpl in *;
    (split; [reflexivity|];
     split; [auto 10|];
     split; [lia|]; intros Hr;
     repeat (destruct Hr as [Hr | Hr]; try discriminate);
     solve [auto | contradiction]).
Qed.

Lemma magic_issues_in (path : string) (lines : list string) (x : Issue) :
  In x (magic_issues path lines) <->
  exists i l val, nth_error lines i = Some l /\ magic_skipped l = false
                  /\ In val (magic_values l)
                  /\ x = mkIssue path (S i) 5 (magic_msg val).
Proof.
  unfold magic_issues, magic_line_issues. rewrite in_flat_map. split.
  - intros [[i l] [Hin H]]. apply in_enumerate in Hin. simpl in H.
    destruct Hin as [Hle Hn]. destruct (magic_skipped l) eqn:E; [contradiction|].
    apply in_map_iff in H. destruct H as [val [<- Hv]].
    exists (i - 1), l, val. replace (S (i - 1)) with i by lia. auto.
  - intros [i [l [val [Hn [Hs [Hv ->]]]]]]. exists (S i, l). split.
    + apply in_enumerate. split; [lia|]. simpl. now rewrite Nat.sub_0_r.
    + simpl. rewrite Hs. apply in_map_iff. eauto.
Qed.

Lemma redundant_issues_facts (path : string) (lines : list string)
    (x : Issue) :
  In x (redundant_issues path lines) -> file x = path /\ rule x = 21.
Proof.
  unfold redundant_issues, redundant_line_issues. intros H.
  apply in_flat_map in H. destruct H as [[i l] [_ H]].
  in_cases H. simpl. auto.
Qed.

(** The output of one file, taken apart. *)
Lemma check_file_parts (path : string) (lines : list string)
    (out : list Issue) :
  check_file path lines = OK out ->
  exists span_level,
    collect (span_checks path lines) (function_spans lines) = OK span_level
    /\ out = line_pass path lines ++ span_level ++ magic_issues path lines
             ++ redundant_issues path lines.
Proof.
  unfold check_file, span_pass. intros H.
  apply bind_OK in H. destruct H as [span_level [Hs H]].
  inversion H; subst; clear H. exists span_level. split; [|reflexivity].
  rewrite scan_collect in Hs. exact Hs.
Qed.

Lemma span_level_facts (path : string) (lines : list string)
    (sps : list span) (span_level : list Issue) (x : Issue) :
  collect (span_checks path lines) sps = OK span_level ->
  In x span_level -> file x = path /\ In (rule x) span_rules.
Proof.
  intros Hc Hx. apply (collect_in _ _ _ x Hc) in Hx.
  destruct Hx as [sp [o [_ [Ho Hx]]]].
  destruct (span_checks_facts _ _ _ _ _ Ho Hx) as [? [? _]]. auto.
Qed.

(** Every issue of a file carries its path and one of thirteen rule
    numbers. *)
Lemma check_file_rules (path : string) (lines : list string)
    (out : list Issue) (x : Issue) :
  check_file path lines = OK out -> In x out ->
  file x = path /\ In (rule x) (line_rules ++ span_rules ++ [5; 21]).
Proof.
  intros H Hx. apply check_file_parts in H.
  destruct H as [span_level [Hc ->]].
  repeat (apply in_app_or in Hx; destruct Hx as [Hx | Hx]).
  - apply line_pass_facts in Hx. destruct Hx as [? Hr]. split; [assumption|].
    apply in_or_app. now left.
  - destruct (span_level_facts _ _ _ _ _ Hc Hx) as [? Hr].
    split; [assumption|]. apply in_or_app. right. apply in_or_app. now left.
  - apply magic_issues_in in Hx. destruct Hx as [i [l [val [_ [_ [_ ->]]]]]].
    simpl. auto 20.
  - apply redundant_issues_facts in Hx. destruct Hx as [? ->].
    split; [assumption|]. simpl. auto 20.
Qed.

(** ** The loop over the files *)

Lemma run_collect_acc (files : list (string * list string))
    (acc : result (list Issue)) :
  fold_left (fun acc item =>
               issues <- acc ;;
               found_here <- check_file (fst item) (snd item) ;;
               OK (issues ++ found_here))
            files acc
  = (issues <- acc ;; more <- collect check_item files ;; OK (issues ++ more)).
Proof.
  revert acc. induction files as [|item files IH]; intros acc; simpl.
  - destruct acc; simpl; [now rewrite app_nil_r | reflexivity].
  - rewrite IH. destruct acc as [issues|]; simpl; [|reflexivity].
    unfold check_item at 2.
    destruct (check_file (fst item) (snd item)) as [o|]; simpl; [|reflexivity].
    destruct (collect check_item files); simpl; [|reflexivity].
    now rewrite app_assoc.
Qed.

Lemma run_collect (files : list (string * list string)) :
  run_checks_on_files files = collect check_item files.
Proof.
  unfold run_checks_on_files. rewrite run_collect_acc. simpl.
  destruct (collect check_item files); reflexivity.
Qed.

Lemma run_single (item : string * list string) :
  run_checks_on_files [item] = check_item item.
Proof.
  rewrite run_collect. simpl. destruct (check_item item); simpl;
    [now rewrite app_nil_r | reflexivity].
Qed.

Lemma collect_outputs {S A : Type} (act : S -> result (list A)) (l : list S)
    (out : list A) :
  collect act l = OK out ->
  exists outs, Forall2 (fun x o => act x = OK o) l outs /\ out = concat outs.
Proof.
  revert out. induction l as [|x l IH]; intros out H; simpl in H.
  - inversion H. exists []. split; [constructor | reflexivity].
  - apply bind_OK in H. destruct H as [o [Ho H]].
    apply bind_OK in H. destruct H as [more [Hmore H]].
    inversion H; subst; clear H. destruct (IH _ Hmore) as [outs [Hf ->]].
    exists (o :: outs). split; [now constructor | reflexivity].
Qed.

Lemma collect_error {S A : Type} (act : S -> result (list A)) (l : list S) :
  collect act l = IndexError -> exists x, In x l /\ act x = IndexError.
Proof.
  induction l as [|x l IH]; simpl; [discriminate|].
  destruct (act x) as [o|] eqn:Ho; simpl.
  - destruct (collect act l); simpl; [discriminate|].
    intros _. destruct IH as [y [Hy Hact]]; eauto.
  - eauto.
Qed.

Lemma collect_permutation {S A : Type} (act : S -> result (list A))
    (l l' : list S) (out : list A) :
  Permutation l l' -> collect act l = OK out ->
  exists out', collect act l' = OK out' /\ Permutation out out'.
Proof.
  intros Hp. revert out. induction Hp; intros out H.
  - exists out. auto.
  - simpl in H. apply bind_OK in H. destruct H as [o [Ho H]].
    apply bind_OK in H. destruct H as [more [Hmore H]].
    inversion H; subst; clear H. destruct (IHHp _ Hmore) as [out' [H' Hperm]].
    exists (o ++ out'). simpl. rewrite Ho, H'. simpl.
    split; [reflexivity | now apply Permutation_app_head].
  - simpl in H. apply bind_OK in H. destruct H as [oy [Hy H]].
    apply bind_OK in H. destruct H as [more [Hmore H]].
    inversion H; subst; clear H.
    apply bind_OK in Hmore. destruct Hmore as [ox [Hx H]].
    apply bind_OK in H. destruct H as [rest [Hrest H]].
    inversion H; subst; clear H.
    exists (ox ++ oy ++ rest). simpl. rewrite Hx, Hy, Hrest. simpl.
    split; [reflexivity|]. rewrite !app_assoc.
    apply Permutation_app_tail, Permutation_app_comm.
  - destruct (IHHp1 _ H) as [o1 [H1 P1]].
    destruct (IHHp2 _ H1) as [o2 [H2 P2]].
    exists o2. split; [assumption | now transitivity o1].
Qed.

(** ** The matcher *)

Lemma star_loop_fail (greedy : bool) (body : mstate -> cont -> option mstate)
    (k : cont) (n : nat) (s : mstate) :
  (forall s', k s' = None) ->
  (forall s1 k1, (forall s', k1 s' = None) -> body s1 k1 = None) ->
  star_loop greedy body k n s = None.
Proof.
  intros Hk Hbody. revert s. induction n as [|n IH]; intros s; simpl.
  - apply Hk.
  - rewrite Hk. rewrite Hbody.
    + now destruct greedy.
    + intros s'. destruct (_ <? _); [apply IH | reflexivity].
Qed.

(** A pattern cannot match when what follows it cannot. *)
Lemma exec_fail (r : regex) (s : mstate) (k : cont) :
  (forall s', k s' = None) -> exec r s k = None.
Proof.
  revert s k.
  induction r as [| p | r1 IH1 r2 IH2 | r1 IH1 r2 IH2 | g r IH | n r IH | n
                  | | | | p | p]; intros s k Hk; cbn [exec].
  - apply Hk.
  - destruct (rest (cur s)); [reflexivity|]. destruct (p a); auto.
  - apply IH1. intros s'. now apply IH2.
  - rewrite IH1 by assumption. now apply IH2.
  - apply star_loop_fail; [assumption|]. intros s1 k1 Hk1. now apply IH.
  - apply IH. intros s'. apply Hk.
  - destruct (lookup_group n (groups s)) as [text|]; [|reflexivity].
    destruct (eat text (cur s)); auto.
  - destruct (pos (cur s) =? 0); auto.
  - destruct (at_eos (cur s)); auto.
  - destruct (at_wordb (cur s)); auto.
  - destruct (class_of p (prev (cur s))); auto.
  - destruct (class_of p (next (cur s))); auto.
Qed.

Lemma exec_seq_fail (r1 r2 : regex) (s : mstate) (k : cont) :
  (forall s', exec r2 s' k = None) -> exec (Seq r1 r2) s k = None.
Proof. intros H. simpl. now apply exec_fail. Qed.

(** The end of the address-of pattern: behind the end of the text there
    is no character left for the bracket. *)
Lemma amp_tail_fails (s : mstate) (k : cont) :
  exec (seqs [Eos; Eos; Plus true (Cls (not_char "$"%char)); Chr "]"%char])
       s k = None.
Proof.
  destruct s as [[p i r] g]. destruct r as [|a [|b r]].
  - reflexivity.
  - cbn. unfold at_eos. cbn.
    destruct (Ascii.eqb a "010") eqn:E; [|reflexivity].
    destruct (not_char "$" a); reflexivity.
  - reflexivity.
Qed.

Lemma amp_index_never_matches (c : cursor) :
  match_at amp_index_pattern c = None.
Proof.
  unfold match_at, amp_index_pattern.
  change (seqs [?a; ?b; ?c0; ?d; ?e; Eos; Eos; ?f; ?g])
    with (Seq a (Seq b (Seq c0 (Seq d (Seq e (seqs [Eos; Eos; f; g])))))).
  do 5 (apply exec_seq_fail; intros). apply amp_tail_fails.
Qed.

Lemma amp_index_never_found (s : string) :
  re_search amp_index_pattern s = None.
Proof.
  unfold re_search. generalize (@None ascii) 0.
  induction s as [|a s IH]; intros p i; simpl;
    rewrite amp_index_never_matches; auto.
Qed.

(** Blanks in front of what a pattern goes on with are those that
    [lstrip] removes. *)
Lemma star_space_lstrip (greedy : bool) (k : cont) (n : nat) (s r : mstate) :
  star_loop greedy (exec (Cls is_space)) k n s = Some r ->
  exists s', k s' = Some r
             /\ Py.lstrip (rest (cur s')) = Py.lstrip (rest (cur s)).
Proof.
  revert s. induction n as [|n IH]; intros s; simpl.
  - intros H. exists s. auto.
  - assert (Hbody :
      match rest (cur s) with
      | String a s' =>
          if is_space a
          then (if String.length
                     (rest (cur (mkState (mkCursor (Some a) (S (pos (cur s))) s')
                                         (groups s))))
                   <? String.length (rest (cur s))
                then star_loop greedy (exec (Cls is_space)) k n
                       (mkState (mkCursor (Some a) (S (pos (cur s))) s')
                                (groups s))
                else None)
          else None
      | EmptyString => None
      end = Some r ->
      exists s', k s' = Some r
                 /\ Py.lstrip (rest (cur s')) = Py.lstrip (rest (cur s))).
    { destruct (rest (cur s)) as [|a t] eqn:Hr; [discriminate|].
      destruct (is_space a) eqn:Ha; [|discriminate].
      destruct (_ <? _); [|discriminate].
      intros H. apply IH in H. destruct H as [s' [Hk Hl]].
      exists s'. split; [assumption|]. simpl in Hl. simpl. now rewrite Ha. }
    destruct greedy.
    + destruct (match rest (cur s) with EmptyString => _ | String _ _ => _ end)
        eqn:E.
      * intros H. inversion H; subst. now apply Hbody.
      * intros H. exists s. auto.
    + destruct (k s) eqn:E.
      * intros H. inversion H; subst. exists s. auto.
      * exact Hbody.
Qed.

(** A line that the pass over the lines skips starts, behind its blanks,
    with [#] or [/]. *)
Lemma skipped_line_first (l : string) :
  skipped_line l = true ->
  exists c t, Py.lstrip l = String c t /\ (c = "#"%char \/ c = "/"%char).
Proof.
  assert (Hgen : forall c r,
    is_space c = false ->
    matches (Seq Bos (Seq ws r)) l = true ->
    (forall s k res, exec r s k = Some res ->
                     exists t, rest (cur s) = String c t) ->
    exists t, Py.lstrip l = String c t).
  { intros c r Hc H Hr. unfold matches, re_match, match_at, start, ws in H.
    cbn [exec cur pos Nat.eqb] in H.
    destruct (star_loop _ _ _ _ _) as [res|] eqn:E; [|discriminate].
    apply star_space_lstrip in E. destruct E as [s' [Hk Hl]].
    apply Hr in Hk. destruct Hk as [t Ht]. rewrite Ht in Hl.
    cbn [Py.lstrip cur rest] in Hl. rewrite Hc in Hl. eauto. }
  assert (Hfirst : forall c r s k res,
    exec (Seq (Chr c) r) s k = Some res -> exists t, rest (cur s) = String c t).
  { intros c r s k res. cbn [exec Chr].
    destruct (rest (cur s)) as [|a t]; [discriminate|].
    unfold is_char. destruct (Ascii.eqb c a) eqn:Ea; [|discriminate].
    apply Ascii.eqb_eq in Ea. subst. eauto. }
  unfold skipped_line. intros H.
  apply orb_true_iff in H. destruct H as [H | H];
    [apply orb_true_iff in H; destruct H as [H | H]|].
  - destruct (Hgen "#"%char (Seq (Chr "#"%char) Eps)) as [t Ht];
      [reflexivity | | apply Hfirst | eauto].
    unfold matches, re_match, match_at in *. exact H.
  - destruct (Hgen "/"%char (Lit "//")) as [t Ht];
      [reflexivity | exact H | apply Hfirst | eauto].
  - destruct (Hgen "/"%char (Lit "/*")) as [t Ht];
      [reflexivity | exact H | apply Hfirst | eauto].
Qed.

Lemma rstrip_first (c : ascii) (t : string) :
  is_space c = false -> exists t', Py.rstrip (String c t) = String c t'.
Proof.
  intros Hc. simpl. rewrite Hc. destruct (Py.rstrip t); eauto.
Qed.

(** A line on which [func_def_re] matches is none that the pass over the
    lines skips: the pattern needs a word character, a star or a blank
    first, and [strip] leaves no blank there. *)
Lemma func_def_not_skipped (l : string) (fp : string * string) :
  func_def l = Some fp -> skipped_line l = false.
Proof.
  intros Hf. destruct (skipped_line l) eqn:Hs; [|reflexivity].
  apply skipped_line_first in Hs. destruct Hs as [c [t [Hl Hc]]].
  unfold func_def, Py.strip in Hf. rewrite Hl in Hf.
  destruct (rstrip_first c t) as [t' Ht'].
  { destruct Hc; subst; reflexivity. }
  rewrite Ht' in Hf.
  assert (Hnone : re_match func_def_re (String c t') = None).
  { destruct Hc; subst; reflexivity. }
  rewrite Hnone in Hf. discriminate.
Qed.

(** ** Strings and messages *)

Lemma string_length_append (a b : string) :
  String.length (a ++ b)%string = String.length a + String.length b.
Proof. induction a as [|c a IH]; simpl; [reflexivity | now rewrite IH]. Qed.

Lemma append_inj_l (p a b : string) : (p ++ a = p ++ b)%string -> a = b.
Proof.
  induction p as [|c p IH]; simpl; intros H; [assumption|].
  inversion H. auto.
Qed.

Lemma append_inj_r (a b q : string) : (a ++ q = b ++ q)%string -> a = b.
Proof.
  revert b. induction a as [|c a IH]; intros b H.
  - apply (f_equal String.length) in H. rewrite !string_length_append in H.
    destruct b; [reflexivity | simpl in H; lia].
  - destruct b as [|d b].
    + apply (f_equal String.length) in H.
      rewrite !string_length_append in H. simpl in H. lia.
    + simpl in H. inversion H. f_equal. auto.
Qed.

Lemma translit_msg_inj (t t' : string) :
  translit_msg t = translit_msg t' -> t = t'.
Proof.
  unfold translit_msg. intros H. apply append_inj_l in H.
  now apply append_inj_r in H.
Qed.

Lemma magic_msg_inj (v v' : string) : magic_msg v = magic_msg v' -> v = v'.
Proof.
  unfold magic_msg. intros H. apply append_inj_l in H.
  now apply append_inj_r in H.
Qed.

Lemma func_style_msg_inj (f f' : string) :
  func_style_msg f = func_style_msg f' -> f = f'.
Proof.
  unfold func_style_msg. intros H. apply append_inj_l in H.
  now apply append_inj_r in H.
Qed.

Lemma var_style_msg_inj (v v' : string) :
  var_style_msg v = var_style_msg v' -> v = v'.
Proof.
  unfold var_style_msg. intros H. apply append_inj_l in H.
  now apply append_inj_r in H.
Qed.

Lemma unused_param_msg_inj (pn pn' fname : string) :
  unused_param_msg pn fname = unused_param_msg pn' fname -> pn = pn'.
Proof.
  unfold unused_param_msg. intros H. apply append_inj_l in H.
  now apply append_inj_r in H.
Qed.

Lemma func_var_style_msg (f v : string) : func_style_msg f <> var_style_msg v.
Proof. unfold func_style_msg, var_style_msg. simpl. discriminate. Qed.

(** ** The issues of one line of one file *)

Lemma check_file_in (path : string) (lines : list string) (out : list Issue)
    (x : Issue) :
  check_file path lines = OK out ->
  exists span_level,
    collect (span_checks path lines) (function_spans lines) = OK span_level
    /\ (In x out <->
        In x (line_pass path lines) \/ In x span_level
        \/ In x (magic_issues path lines)
        \/ In x (redundant_issues path lines)).
Proof.
  intros H. apply check_file_parts in H. destruct H as [sl [Hc ->]].
  exists sl. split; [assumption|]. rewrite !in_app_iff. tauto.
Qed.

(** An issue of the pass over the lines with the number of line [i]
    comes from the checks of that line. *)
Lemma line_pass_at (path : string) (lines : list string) (i : nat)
    (l : string) (x : Issue) :
  nth_error lines i = Some l -> line x = S i ->
  (In x (line_pass path lines) <-> In x (line_checks path lines (S i) l)).
Proof.
  intros Hl Hx. rewrite in_line_pass. split.
  - intros [i' [l' [Hl' H]]].
    pose proof (line_checks_facts _ _ _ _ _ H) as [_ [Hline _]].
    assert (i' = i) by lia. subst. congruence.
  - eauto.
Qed.

(** Issues with the rules 3, 0, 2 and 10 come from the pass over the
    lines only. *)
Lemma line_only_rule (path : string) (lines : list string) (out : list Issue)
    (x : Issue) :
  check_file path lines = OK out -> In (rule x) [3; 0; 2; 10] ->
  (In x out <-> In x (line_pass path lines)).
Proof.
  intros H Hr. destruct (check_file_in _ _ _ x H) as [sl [Hc Hin]].
  rewrite Hin. split; [|tauto].
  intros [Hx | [Hx | [Hx | Hx]]]; [assumption | exfalso ..].
  - destruct (span_level_facts _ _ _ _ _ Hc Hx) as [_ Hs].
    unfold span_rules in Hs. simpl in Hr, Hs.
    repeat (destruct Hr as [Hr | Hr]; [rewrite <- Hr in Hs;
      repeat (destruct Hs as [Hs | Hs]; [discriminate|]); contradiction|]).
    contradiction.
  - apply magic_issues_in in Hx. destruct Hx as [? [? [? [_ [_ [_ ->]]]]]].
    simpl in Hr. repeat (destruct Hr as [Hr | Hr]; [discriminate|]).
    contradiction.
  - apply redundant_issues_facts in Hx. destruct Hx as [_ Hx].
    rewrite Hx in Hr. simpl in Hr.
    repeat (destruct Hr as [Hr | Hr]; [discriminate|]). contradiction.
Qed.

Lemma translit_reported_iff (path : string) (lines : list string)
    (out : list Issue) (i : nat) (l t : string) :
  check_file path lines = OK out -> nth_error lines i = Some l ->
  In t translit_tokens ->
  (In (mkIssue path (S i) 3 (translit_msg t)) out
   <-> skipped_line l = false /\ found (word_re_i t) l = true).
Proof.
  intros H Hl Ht. rewrite (line_only_rule _ _ _ _ H) by (simpl; auto).
  rewrite (line_pass_at _ _ i l) by auto.
  unfold line_checks. destruct (skipped_line l).
  { split; [contradiction | intros [? _]; discriminate]. }
  rewrite in_app_iff, translit_issues_in. split.
  - intros [[t' [_ [Hf Heq]]] | Hx].
    + apply (f_equal message) in Heq. cbn [message] in Heq.
      apply translit_msg_inj in Heq. subst. auto.
    + exfalso. unfold amp_index_issues, func_line_issues, func_style_issues,
        line_param_issues, return_issues, var_style_issues in Hx.
      in_cases Hx; discriminate.
  - intros [_ Hf]. left. eauto.
Qed.

Lemma magic_reported_iff (path : string) (lines : list string)
    (out : list Issue) (i : nat) (l val : string) :
  check_file path lines = OK out -> nth_error lines i = Some l ->
  (In (mkIssue path (S i) 5 (magic_msg val)) out
   <-> magic_skipped l = false /\ In val (magic_values l)).
Proof.
  intros H Hl. destruct (check_file_in _ _ _ (mkIssue path (S i) 5 (magic_msg val)) H)
    as [sl [Hc Hin]].
  rewrite Hin, magic_issues_in. split.
  - intros [Hx | [Hx | [Hx | Hx]]].
    + exfalso. apply line_pass_facts in Hx. destruct Hx as [_ Hr].
      simpl in Hr. repeat (destruct Hr as [Hr | Hr]; [discriminate|]).
      contradiction.
    + exfalso. destruct (span_level_facts _ _ _ _ _ Hc Hx) as [_ Hr].
      simpl in Hr. repeat (destruct Hr as [Hr | Hr]; [discriminate|]).
      contradiction.
    + destruct Hx as [i' [l' [val' [Hl' [Hs [Hv Heq]]]]]].
      pose proof (f_equal line Heq) as Hi. cbn [line] in Hi.
      apply (f_equal message) in Heq. cbn [message] in Heq.
      apply magic_msg_inj in Heq. inversion Hi. subst.
      rewrite Hl in Hl'. inversion Hl'; subst. auto.
    + exfalso. apply redundant_issues_facts in Hx. destruct Hx as [_ Hx].
      discriminate.
  - intros [Hs Hv]. right. right. left. exists i, l, val. auto.
Qed.

(** ** One file among the files of a run

    The keys of a dictionary are distinct, so the issues that carry a
    path are those of the file under it. *)

Section OneFile.

Variable files : list (string * list string).
Variable out : list Issue.
Hypothesis Hrun : run_checks_on_files files = OK out.
Hypothesis Hkeys : NoDup (map fst files).
Variable path : string.
Variable lines : list string.
Hypothesis Hfile : In (path, lines) files.

Lemma run_file_OK : exists o, check_file path lines = OK o.
Proof.
  rewrite run_collect in Hrun.
  destruct (collect_all_OK _ _ _ _ Hrun Hfile) as [o Ho]. eauto.
Qed.

Lemma same_key_same_file (item : string * list string) :
  In item files -> fst item = path -> item = (path, lines).
Proof.
  clear Hrun. induction files as [|f fs IH]; [contradiction|].
  simpl in Hkeys. inversion Hkeys as [|? ? Hnotin Hnd]; subst.
  intros Hin Hfst. destruct Hin as [-> | Hin], Hfile as [Heq | Hin'].
  - assumption.
  - exfalso. apply Hnotin. rewrite Hfst.
    change path with (fst (path, lines)). now apply in_map.
  - exfalso. apply Hnotin. rewrite Heq. simpl. rewrite <- Hfst.
    now apply in_map.
  - now apply IH.
Qed.

Lemma run_in_file (o : list Issue) (x : Issue) :
  check_file path lines = OK o -> file x = path -> (In x out <-> In x o).
Proof.
  intros Ho Hx. rewrite run_collect in Hrun.
  rewrite (collect_in _ _ _ x Hrun). split.
  - intros [item [o' [Hin [Hact Hxo]]]].
    assert (Hp : fst item = path).
    { destruct (check_file_rules _ _ _ _ Hact Hxo) as [Hf _]. congruence. }
    rewrite (same_key_same_file item Hin Hp) in Hact.
    unfold check_item in Hact. simpl in Hact. congruence.
  - intros Hxo. exists (path, lines), o. auto.
Qed.

Lemma run_count_file (o : list Issue) (P : Issue -> bool) :
  check_file path lines = OK o ->
  (forall x, P x = true -> file x = path) ->
  count_if P out = count_if P o.
Proof.
  intros Ho HP. rewrite run_collect in Hrun.
  apply (collect_count fst check_item P files out (path, lines) o); auto.
  intros item o' x Hin Hne Hact Hxo.
  destruct (P x) eqn:E; [|reflexivity]. exfalso. apply Hne.
  destruct (check_file_rules _ _ _ _ Hact Hxo) as [Hf _].
  simpl. rewrite <- Hf. now apply HP.
Qed.

End OneFile.


(** Rule 0 is never reported: the pattern of the source cannot match. *)
(** X1. The engine never reports rule 0: no issue of a returned list
    has the rule 0, whatever the files are. *)
Lemma rule_0_never_reported (files : list (string * list string))
    (out : list Issue) (x : Issue) :
  run_checks_on_files files = OK out -> In x out -> rule x <> 0.
Proof.
  intros Hrun Hx Hr. rewrite run_collect in Hrun.
  apply (collect_in _ _ _ x Hrun) in Hx.
  destruct Hx as [[path lines] [o [_ [Ho Hx]]]]. unfold check_item in Ho.
  simpl in Ho. assert (H3 : In (rule x) [3; 0; 2; 10]) by (rewrite Hr; simpl; auto).
  apply (line_only_rule _ _ _ x Ho H3) in Hx.
  apply in_line_pass in Hx. destruct Hx as [i [l [_ Hx]]].
  unfold line_checks in Hx. destruct (skipped_line l); [contradiction|].
  apply in_app_or in Hx. destruct Hx as [Hx | Hx].
  { apply translit_issues_in in Hx. destruct Hx as [t [_ [_ ->]]].
    discriminate. }
  unfold amp_index_issues in Hx. rewrite amp_index_never_found in Hx.
  unfold func_line_issues, func_style_issues, line_param_issues,
    return_issues, var_style_issues in Hx.
  in_cases Hx; discriminate.
Qed.

(** ** Counting the issues of one line and of one function *)

Lemma line_pass_count (path : string) (lines : list string) (i : nat)
    (l : string) (P : Issue -> bool) :
  nth_error lines i = Some l ->
  (forall x, P x = true -> line x = S i) ->
  count_if P (line_pass path lines)
  = count_if P (line_checks path lines (S i) l).
Proof.
  intros Hl HP. unfold line_pass.
  destruct (nth_error_split_at _ _ _ Hl) as [l1 [l2 [Heq Hlen]]].
  assert (Hoff : forall (ls : list (nat * string)),
    (forall p, In p ls -> fst p <> S i) ->
    count_if P (flat_map (fun il => line_checks path lines (fst il) (snd il)) ls)
    = 0).
  { intros ls Hls. apply count_if_flat_map_none. intros p x Hp Hx.
    destruct (P x) eqn:E; [|reflexivity]. exfalso.
    apply line_checks_facts in Hx. destruct Hx as [_ [Hline _]].
    apply (Hls p Hp). rewrite <- Hline. now apply HP. }
  set (f := fun il : nat * string => line_checks path lines (fst il) (snd il))
    in *.
  change (line_checks path lines (S i) l) with (f (S i, l)).
  clearbody f. subst lines.
  rewrite enumerate_app. simpl enumerate.
  rewrite flat_map_app. simpl flat_map. rewrite !count_if_app.
  rewrite !Hoff; [rewrite Hlen; simpl; lia | |].
  - intros p Hp. apply enumerate_fst_ge in Hp. lia.
  - intros [j l'] Hp. apply in_enumerate in Hp. destruct Hp as [Hj Hp].
    assert (j - 1 < length l1) by (apply nth_error_Some; congruence).
    simpl. lia.
Qed.

Lemma span_level_count (path : string) (lines : list string)
    (span_level o : list Issue) (sp : span) (P : Issue -> bool) :
  collect (span_checks path lines) (function_spans lines) = OK span_level ->
  In sp (function_spans lines) -> span_checks path lines sp = OK o ->
  (forall x, P x = true ->
             line x = sp_start sp + 1 /\ In (rule x) [4; 12; 18]) ->
  count_if P span_level = count_if P o.
Proof.
  intros Hc Hsp Ho HP.
  apply (collect_count sp_start (span_checks path lines) P
           (function_spans lines) span_level sp o); auto.
  - apply spans_from_starts.
  - intros sp' o' x Hsp' Hne Ho' Hx. destruct (P x) eqn:E; [|reflexivity].
    exfalso. destruct (HP x E) as [Hline Hrule].
    destruct (span_checks_facts _ _ _ _ _ Ho' Hx) as [_ [_ [_ Hl']]].
    apply Hne. specialize (Hl' Hrule). lia.
Qed.

Lemma span_checks_split (path : string) (lines : list string) (sp : span)
    (o : list Issue) :
  span_checks path lines sp = OK o ->
  exists others,
    o = length_issues path sp ++ nesting_issues path sp
        ++ span_param_issues path sp ++ unused_param_issues path lines sp
        ++ others
    /\ forall x, In x others -> In (rule x) [8; 25; 26; 14].
Proof.
  unfold span_checks. intros H. apply bind_OK in H.
  destruct H as [checks [_ H]]. inversion H; subst; clear H.
  exists (scanf_issues path lines sp ++ exit_goto_issues path lines sp
          ++ float_cmp_issues path lines sp).
  split; [now rewrite <- !app_assoc|].
  intros x Hx. unfold scanf_issues, exit_goto_issues, float_cmp_issues in Hx.
  repeat (apply in_app_or in Hx; destruct Hx as [Hx | Hx]);
    apply in_flat_map in Hx; destruct Hx as [y [_ Hx]];
    in_cases Hx; simpl; auto.
Qed.

Lemma unused_param_issues_rule (path : string) (lines : list string)
    (sp : span) (x : Issue) :
  In x (unused_param_issues path lines sp) -> rule x = 18.
Proof.
  unfold unused_param_issues. intros H. apply in_flat_map in H.
  destruct H as [pn [_ H]]. in_cases H. reflexivity.
Qed.



Lemma is_rule_at_true (path : string) (r ln : nat) (x : Issue) :
  is_rule_at path r ln x = true ->
  file x = path /\ rule x = r /\ line x = ln.
Proof.
  unfold is_rule_at. intros H.
  apply andb_true_iff in H. destruct H as [H Hl].
  apply andb_true_iff in H. destruct H as [Hf Hr].
  apply String.eqb_eq in Hf. apply Nat.eqb_eq in Hr, Hl. auto.
Qed.


Section OneFunction.

Variable files : list (string * list string).
Variable out : list Issue.
Hypothesis Hrun : run_checks_on_files files = OK out.
Hypothesis Hkeys : NoDup (map fst files).
Variable path : string.
Variable lines : list string.
Hypothesis Hfile : In (path, lines) files.
Variable sp : span.
Hypothesis Hsp : In sp (function_spans lines).



End OneFunction.

Lemma is_param_count_issue_rule (path : string) (ln : nat) (x : Issue) :
  is_param_count_issue path ln x = true ->
  file x = path /\ rule x = 12 /\ line x = ln.
Proof.
  unfold is_param_count_issue. intros H. apply andb_true_iff in H.
  destruct H as [H _]. now apply is_rule_at_true.
Qed.

Lemma count_one (P : Issue -> bool) (x : Issue) :
  P x = true -> count_if P [x] = 1.
Proof. intros H. unfold count_if. simpl. now rewrite H. Qed.

Lemma is_params_msg_line (fname : string) (n : nat) :
  is_params_msg (line_params_msg fname n) = true.
Proof. destruct fname; reflexivity. Qed.

Lemma is_params_msg_span (fname : string) (n : nat) :
  is_params_msg (span_params_msg fname n) = true.
Proof. destruct fname; reflexivity. Qed.

Lemma is_params_msg_nesting (fname : string) (z : Z) :
  is_params_msg (nesting_msg fname z) = false.
Proof. reflexivity. Qed.

Section ParameterCount.

Variable files : list (string * list string).
Variable out : list Issue.
Hypothesis Hrun : run_checks_on_files files = OK out.
Hypothesis Hkeys : NoDup (map fst files).
Variable path : string.
Variable lines : list string.
Hypothesis Hfile : In (path, lines) files.
Variable sp : span.
Hypothesis Hsp : In sp (function_spans lines).
Hypothesis Hmany : 5 < param_count (sp_params sp).

Let ln : nat := sp_start sp + 1.
Let line_issue : Issue :=
  mkIssue path ln 12
          (line_params_msg (sp_name sp) (param_count (sp_params sp))).
Let span_issue : Issue :=
  mkIssue path ln 12
          (span_params_msg (sp_name sp) (param_count (sp_params sp))).

Lemma line_param_issue_in :
  exists l, nth_error lines (sp_start sp) = Some l
            /\ line_checks path lines (S (sp_start sp)) l
               = translit_issues path (S (sp_start sp)) l
                 ++ amp_index_issues path (S (sp_start sp)) l
                 ++ (func_style_issues path (S (sp_start sp)) (sp_name sp)
                     ++ [line_issue]
                     ++ return_issues path lines (S (sp_start sp)) (sp_name sp))
                 ++ var_style_issues path (S (sp_start sp)) l.
Proof.
  destruct (function_spans_located _ _ Hsp) as [l [Hl [_ [Hf _]]]].
  exists l. split; [assumption|].
  unfold line_checks. rewrite (func_def_not_skipped _ _ Hf).
  unfold func_line_issues. rewrite Hf. unfold line_param_issues.
  apply Nat.ltb_lt in Hmany. rewrite Hmany.
  unfold line_issue, ln. now rewrite Nat.add_1_r.
Qed.

Lemma span_param_issue_in (o : list Issue) :
  span_checks path lines sp = OK o ->
  exists others,
    o = length_issues path sp ++ nesting_issues path sp ++ [span_issue]
        ++ unused_param_issues path lines sp ++ others
    /\ forall x, In x others -> In (rule x) [8; 25; 26; 14].
Proof.
  intros Ho. apply span_checks_split in Ho.
  destruct Ho as [others [-> Hothers]]. exists others.
  split; [|assumption]. unfold span_param_issues.
  apply Nat.ltb_lt in Hmany. now rewrite Hmany.
Qed.

Lemma param_count_issues_in : In line_issue out /\ In span_issue out.
Proof.
  destruct (run_file_OK _ _ Hrun _ _ Hfile) as [o Ho].
  destruct (check_file_in _ _ _ line_issue Ho) as [sl [Hc Hline]].
  destruct (check_file_in _ _ _ span_issue Ho) as [sl' [Hc' Hspan]].
  rewrite Hc in Hc'. inversion Hc'; subst sl'; clear Hc'.
  split.
  - rewrite (run_in_file files out Hrun Hkeys path lines Hfile o line_issue
               Ho eq_refl).
    apply Hline. left. apply in_line_pass.
    destruct line_param_issue_in as [l [Hl Heq]].
    exists (sp_start sp), l. split; [assumption|]. rewrite Heq.
    rewrite !in_app_iff. simpl. tauto.
  - rewrite (run_in_file files out Hrun Hkeys path lines Hfile o span_issue
               Ho eq_refl).
    apply Hspan. right. left. apply (collect_in _ _ _ span_issue Hc).
    destruct (collect_all_OK _ _ _ _ Hc Hsp) as [osp Hosp].
    exists sp, osp. split; [assumption|]. split; [assumption|].
    destruct (span_param_issue_in osp Hosp) as [others [-> _]].
    rewrite !in_app_iff. simpl. tauto.
Qed.

Lemma param_count_issues_count :
  count_if (is_param_count_issue path ln) out = 2.
Proof.
  set (P := is_param_count_issue path ln).
  assert (Hnot : forall l, (forall x, In x l -> rule x <> 12) ->
            count_if P l = 0).
  { intros l Hl. apply count_if_none. intros x Hx.
    destruct (P x) eqn:E; [|reflexivity]. exfalso.
    apply is_param_count_issue_rule in E. apply (Hl x Hx). tauto. }
  destruct (run_file_OK _ _ Hrun _ _ Hfile) as [o Ho].
  rewrite (run_count_file files out Hrun Hkeys path lines Hfile o P Ho).
  2:{ intros x Hx. apply is_param_count_issue_rule in Hx. tauto. }
  apply check_file_parts in Ho. destruct Ho as [sl [Hc ->]].
  destruct (collect_all_OK _ _ _ _ Hc Hsp) as [osp Hosp].
  rewrite !count_if_app.
  rewrite (span_level_count path lines sl osp sp P Hc Hsp Hosp).
  2:{ intros x Hx. apply is_param_count_issue_rule in Hx.
      destruct Hx as [_ [Hr Hl]]. split; [assumption|]. rewrite Hr.
      simpl. auto. }
  destruct line_param_issue_in as [l [Hl Heq]].
  rewrite (line_pass_count path lines (sp_start sp) l P Hl).
  2:{ intros x Hx. apply is_param_count_issue_rule in Hx. unfold ln in Hx.
      lia. }
  rewrite Heq. destruct (span_param_issue_in osp Hosp) as [others [-> Hothers]].
  rewrite !count_if_app.
  rewrite (Hnot (translit_issues _ _ _)), (Hnot (amp_index_issues _ _ _)),
    (Hnot (func_style_issues _ _ _)), (Hnot (return_issues _ _ _ _)),
    (Hnot (var_style_issues _ _ _)), (Hnot (length_issues _ _)),
    (Hnot (unused_param_issues _ _ _)), (Hnot others),
    (Hnot (magic_issues _ _)), (Hnot (redundant_issues _ _)).
  - rewrite (count_one P line_issue), (count_one P span_issue).
    + assert (Hnest : count_if P (nesting_issues path sp) = 0).
      { apply count_if_none. unfold nesting_issues. intros x Hx.
        in_cases Hx. unfold P, is_param_count_issue. cbn [message].
        rewrite is_params_msg_nesting. apply andb_false_r. }
      rewrite Hnest. reflexivity.
    + unfold P, is_param_count_issue, is_rule_at, span_issue.
      cbn [file line rule message].
      now rewrite String.eqb_refl, !Nat.eqb_refl, is_params_msg_span.
    + unfold P, is_param_count_issue, is_rule_at, line_issue.
      cbn [file line rule message].
      now rewrite String.eqb_refl, !Nat.eqb_refl, is_params_msg_line.
  - intros x Hx. apply redundant_issues_facts in Hx. destruct Hx as [_ ->].
    discriminate.
  - intros x Hx. apply magic_issues_in in Hx.
    destruct Hx as [? [? [? [_ [_ [_ ->]]]]]]. discriminate.
  - intros x Hx Heq'. apply Hothers in Hx. rewrite Heq' in Hx. simpl in Hx.
    repeat (destruct Hx as [Hx | Hx]; [discriminate|]). contradiction.
  - intros x Hx. apply unused_param_issues_rule in Hx. rewrite Hx.
    discriminate.
  - unfold length_issues. intros x Hx. in_cases Hx. discriminate.
  - unfold var_style_issues. intros x Hx. in_cases Hx. discriminate.
  - unfold return_issues. intros x Hx. in_cases Hx. discriminate.
  - unfold func_style_issues. intros x Hx. in_cases Hx. discriminate.
  - unfold amp_index_issues. intros x Hx. in_cases Hx. discriminate.
  - intros x Hx. apply translit_issues_in in Hx.
    destruct Hx as [t [_ [_ ->]]]. discriminate.
Qed.

End ParameterCount.

(** ** Unused parameters *)

Lemma param_names_nonempty (params pn : string) :
  In pn (param_names params) -> String.eqb pn "" = false.
Proof.
  unfold param_names. intros H. in_cases H.
  apply in_flat_map in H. destruct H as [p [_ H]].
  unfold param_name in H. destruct (rev (Py.split_ws (Py.strip p))); [contradiction|].
  in_cases H. assumption.
Qed.

(** ** The fuel of the repetitions and of the loops is enough *)

Lemma star_loop_ext (greedy : bool) (body : mstate -> cont -> option mstate)
    (k1 k2 : cont) (n : nat) (s : mstate) :
  (forall s0 c1 c2, (forall s', c1 s' = c2 s') -> body s0 c1 = body s0 c2) ->
  (forall s', k1 s' = k2 s') ->
  star_loop greedy body k1 n s = star_loop greedy body k2 n s.
Proof.
  intros Hbody Hk. revert s. induction n as [|n IH]; intros s; simpl.
  - apply Hk.
  - rewrite (Hk s).
    rewrite (Hbody s _ (fun s' =>
               if String.length (rest (cur s')) <? String.length (rest (cur s))
               then star_loop greedy body k2 n s' else None)).
    + reflexivity.
    + intros s'. destruct (_ <? _); [apply IH | reflexivity].
Qed.

Lemma exec_ext (r : regex) (s : mstate) (k1 k2 : cont) :
  (forall s', k1 s' = k2 s') -> exec r s k1 = exec r s k2.
Proof.
  revert s k1 k2.
  induction r as [| p | r1 IH1 r2 IH2 | r1 IH1 r2 IH2 | g r IH | n r IH | n
                  | | | | p | p]; intros s k1 k2 Hk; cbn [exec];
    try (rewrite Hk; reflexivity).
  - destruct (rest (cur s)); [reflexivity|]. now rewrite Hk.
  - apply IH1. intros s'. now apply IH2.
  - rewrite (IH1 s k1 k2 Hk), (IH2 s k1 k2 Hk). reflexivity.
  - apply star_loop_ext; [|assumption]. intros s0 c1 c2 Hc. now apply IH.
  - apply IH. intros s'. apply Hk.
  - destruct (lookup_group n (groups s)) as [text|]; [|reflexivity].
    destruct (eat text (cur s)); [apply Hk | reflexivity].
Qed.

(** More fuel than the characters that are left changes nothing: the
    branch for no fuel of [star_loop] is never taken by [exec]. *)
Lemma star_loop_fuel (greedy : bool) (r : regex) (k : cont) (n1 n2 : nat)
    (s : mstate) :
  String.length (rest (cur s)) < n1 -> String.length (rest (cur s)) < n2 ->
  star_loop greedy (exec r) k n1 s = star_loop greedy (exec r) k n2 s.
Proof.
  revert n2 s. induction n1 as [|n1 IH]; intros n2 s H1 H2; [lia|].
  destruct n2 as [|n2]; [lia|]. simpl.
  rewrite (exec_ext r s _ (fun s' =>
             if String.length (rest (cur s')) <? String.length (rest (cur s))
             then star_loop greedy (exec r) k n2 s' else None)).
  - reflexivity.
  - intros s'. destruct (_ <? _) eqn:E; [|reflexivity].
    apply Nat.ltb_lt in E. apply IH; lia.
Qed.

Lemma collect_block_forward (ls : list string) (j : nat) :
  ls <> [] -> j < snd (fst (collect_block ls j)).
Proof.
  revert j. induction ls as [|l ls IH]; intros j Hne; [contradiction|].
  simpl. destruct (Py.contains ";" l); [simpl; lia|].
  destruct ls as [|l' ls'].
  - simpl. lia.
  - specialize (IH (S j) ltac:(discriminate)).
    destruct (collect_block (l' :: ls') (S j)) as [[block j'] found_semicolon].
    simpl in *. lia.
Qed.

Lemma collect_block_index (region : list string) (i : nat) (l : string) :
  nth_error region i = Some l ->
  i < snd (fst (collect_block (skipn i region) i)).
Proof.
  intros H. apply collect_block_forward. intros Hnil.
  assert (Hlen : length (skipn i region) = 0) by now rewrite Hnil.
  rewrite length_skipn in Hlen.
  assert (i < length region) by (apply nth_error_Some; congruence). lia.
Qed.

Lemma global_inner_fuel (region : list string) (f1 f2 i : nat) :
  length region <= i + f1 -> length region <= i + f2 ->
  global_inner region f1 i = global_inner region f2 i.
Proof.
  revert f2 i. induction f1 as [|f1 IH]; intros f2 i H1 H2.
  - assert (Hn : nth_error region i = None) by (apply nth_error_None; lia).
    destruct f2; simpl; [reflexivity | now rewrite Hn].
  - destruct f2 as [|f2].
    + assert (Hn : nth_error region i = None) by (apply nth_error_None; lia).
      simpl. now rewrite Hn.
    + simpl. destruct (nth_error region i) as [l|] eqn:Hl; [|reflexivity].
      destruct (region_skipped l); [apply IH; lia|].
      pose proof (collect_block_index region i l Hl) as Hj.
      destruct (collect_block (skipn i region) i) as [[block j] found_semicolon].
      simpl in Hj.
      rewrite (IH f2 j) by lia.
      reflexivity.
Qed.

Lemma global_outer_fuel (region : list string) (f1 f2 i : nat) :
  length region <= i + f1 -> length region <= i + f2 ->
  global_outer region f1 i = global_outer region f2 i.
Proof.
  revert f2 i. induction f1 as [|f1 IH]; intros f2 i H1 H2.
  - assert (Hn : nth_error region i = None) by (apply nth_error_None; lia).
    destruct f2; simpl; [reflexivity | now rewrite Hn].
  - destruct f2 as [|f2].
    + assert (Hn : nth_error region i = None) by (apply nth_error_None; lia).
      simpl. now rewrite Hn.
    + simpl. destruct (nth_error region i) as [l|] eqn:Hl; [|reflexivity].
      destruct (region_skipped l); [apply IH; lia|].
      pose proof (collect_block_index region i l Hl) as Hj.
      destruct (collect_block (skipn i region) i) as [[block j] found_semicolon].
      simpl in Hj.
      rewrite (IH f2 j) by lia.
      reflexivity.
Qed.

(* ================================================================== *)
(** * The claims *)

(** C1 (the code departs from the claim).  The claim: the line
    [int x = arr[5] + &y[2];] gets a rule-0 issue.  On the code it gets
    none: the pattern that is searched asks for the end of the text
    where the opening bracket should be, and cannot match any line,
    although the line does contain the address of an array element, as
    the pattern [amp_arr_index_re] of the same file finds.  The engine
    reports the two magic numbers of the line and nothing else. *)
Theorem amp_index_line_not_reported :
  found amp_arr_index_re "int x = arr[5] + &y[2];" = true
  /\ re_search amp_index_pattern (strip_text "int x = arr[5] + &y[2];") = None
  /\ run_checks_on_files [("a.c", ["int x = arr[5] + &y[2];"])]
     = OK [mkIssue "a.c" 1 5 (magic_msg "5"); mkIssue "a.c" 1 5 (magic_msg "2")].
Proof. repeat split; vm_compute; reflexivity. Qed.

(** C2, as the claim states it, fails: a transliteration word and a
    magic number that occur only in the comment at the end of a line
    are both reported, and so are those inside a string literal. *)
Lemma comment_text_is_reported :
  strip_text "x = y; // vvod 42" = "x = y; "
  /\ strip_text puts_line = "puts();"
  /\ run_checks_on_files [("a.c", ["x = y; // vvod 42"])]
     = OK [mkIssue "a.c" 1 3 (translit_msg "vvod");
           mkIssue "a.c" 1 5 (magic_msg "42")]
  /\ run_checks_on_files [("a.c", [puts_line])]
     = OK [mkIssue "a.c" 1 3 (translit_msg "vvod");
           mkIssue "a.c" 1 5 (magic_msg "42")].
Proof. repeat split; vm_compute; reflexivity. Qed.

(** C2 (amended).  The detectors of rule 3 and of rule 5 read the line
    as it is, comments and literals included.  For a line [l] of a file,
    with number [i+1]: a transliteration token [t] is reported exactly
    when [l] does not begin, behind blanks, with [#], [//] or [/*] and [t]
    occurs in [l] as a whole word, in any case; a numeric literal [val]
    is reported exactly when [l] does not begin with [#], does not
    contain [enum] or, in any case, [define], and [val] is a numeric
    literal of [l] other than 0, 1 and -1. *)
Theorem raw_line_is_searched (files : list (string * list string))
    (out : list Issue) (path : string) (lines : list string) (i : nat)
    (l : string) :
  run_checks_on_files files = OK out -> NoDup (map fst files) ->
  In (path, lines) files -> nth_error lines i = Some l ->
  (forall t, In t translit_tokens ->
     (In (mkIssue path (S i) 3 (translit_msg t)) out
      <-> skipped_line l = false /\ found (word_re_i t) l = true))
  /\ (forall val,
        In (mkIssue path (S i) 5 (magic_msg val)) out
        <-> magic_skipped l = false /\ In val (magic_values l)).
Proof.
  intros Hrun Hkeys Hfile Hl.
  destruct (run_file_OK _ _ Hrun _ _ Hfile) as [o Ho].
  split.
  - intros t Ht.
    rewrite (run_in_file files out Hrun Hkeys path lines Hfile o
               (mkIssue path (S i) 3 (translit_msg t)) Ho eq_refl).
    now apply (translit_reported_iff path lines).
  - intros val.
    rewrite (run_in_file files out Hrun Hkeys path lines Hfile o
               (mkIssue path (S i) 5 (magic_msg val)) Ho eq_refl).
    now apply (magic_reported_iff path lines).
Qed.

Lemma raw_line_is_searched_witness :
  In (mkIssue "a.c" 1 3 (translit_msg "vvod"))
     [mkIssue "a.c" 1 3 (translit_msg "vvod"); mkIssue "a.c" 1 5 (magic_msg "42")]
  <-> skipped_line "x = y; // vvod 42" = false
      /\ found (word_re_i "vvod") "x = y; // vvod 42" = true.
Proof.
  refine (proj1 (raw_line_is_searched
                   [("a.c", ["x = y; // vvod 42"])] _ "a.c"
                   ["x = y; // vvod 42"] 0 "x = y; // vvod 42" _ _ _ _)
                "vvod" _).
  - vm_compute. reflexivity.
  - repeat constructor. simpl. tauto.
  - simpl. auto.
  - reflexivity.
  - simpl. auto.
Defined.




(** C4 (the code departs from the claim).  The claim: rule 18 is
    reported for a parameter exactly when its name never occurs as a
    whole word in the body of the function, and so it is for a
    parameter that is declared and never used in the body.  On the code
    the function [f] below gets no issue, though no line behind its
    definition line holds its parameter [b].  The text that is searched
    for the name, [body_text], begins with the definition line itself,
    and the parameter list on that line holds the name: [b] is found
    there.  The comment of the source says that the names are looked
    for inside the function body. *)
Theorem plain_unused_parameter_not_reported :
  func_def "int f(int a, int b) {" = Some ("f", "int a, int b")
  /\ function_spans pair_lines = [mkSpan "f" "int a, int b" 0 2 1%Z]
  /\ param_names "int a, int b" = ["a"; "b"]
  /\ found (word_re "b") (Py.join_lines (skipn 1 pair_lines)) = false
  /\ found (word_re "b")
            (body_text pair_lines (mkSpan "f" "int a, int b" 0 2 1%Z)) = true
  /\ run_checks_on_files [("a.c", pair_lines)] = OK [].
Proof. repeat split; vm_compute; reflexivity. Qed.

(** C5 (the code departs from the claim).  The claim: a function with
    three [return] statements gets one rule-10 issue with the count 3.
    On the code the function [sign] below gets none.  The count starts
    at the line with the index [i], the number of the definition line
    counted from one: the line behind the definition.  The opening
    brace of the definition line is not seen, the count waits for a
    brace that the body does not have and stays 0; started at the
    definition line it is 3. *)
Theorem three_returns_not_reported :
  func_def "int sign(int x) {" = Some ("sign", "int x")
  /\ count_returns (skipn 1 sign_lines) 0%Z 0 false = 0
  /\ count_returns sign_lines 0%Z 0 false = 3
  /\ run_checks_on_files [("a.c", sign_lines)] = OK [].
Proof. repeat split; vm_compute; reflexivity. Qed.



(** C7.  Whenever the engine returns, no issue of its output has the
    rule 15 or the rule 27, although the allocation check has run to
    its end on every located function of every file. *)
Theorem suppressed_rules_never_reported (files : list (string * list string))
    (out : list Issue) :
  run_checks_on_files files = OK out ->
  (forall x, In x out -> rule x <> 15 /\ rule x <> 27)
  /\ (forall path lines sp,
        In (path, lines) files -> In sp (function_spans lines) ->
        exists checks, alloc_checks lines sp (span_lines lines sp) = OK checks).
Proof.
  intros Hrun. split.
  - intros x Hx. rewrite run_collect in Hrun.
    apply (collect_in _ _ _ x Hrun) in Hx.
    destruct Hx as [[path lines] [o [_ [Ho Hx]]]].
    destruct (check_file_rules _ _ _ _ Ho Hx) as [_ Hr].
    simpl in Hr. split; intros Heq; rewrite Heq in Hr;
      repeat (destruct Hr as [Hr | Hr]; [discriminate|]); contradiction.
  - intros path lines sp Hfile Hsp.
    destruct (run_file_OK _ _ Hrun _ _ Hfile) as [o Ho].
    apply check_file_parts in Ho. destruct Ho as [sl [Hc _]].
    destruct (collect_all_OK _ _ _ _ Hc Hsp) as [osp Hosp].
    unfold span_checks in Hosp. apply bind_OK in Hosp.
    destruct Hosp as [checks [Hchecks _]]. eauto.
Qed.

(** The allocation of line 3 is found unchecked and the global variable
    of line 1 is found, and neither is reported. *)
Lemma suppressed_rules_witness :
  alloc_checks counter_lines (mkSpan "main" "" 1 3 1)
               (span_lines counter_lines (mkSpan "main" "" 1 3 1))
  = OK [(3, false)]
  /\ global_var_findings counter_lines = [(1, "counter")]
  /\ run_checks_on_files [("a.c", counter_lines)] = OK []
  /\ (forall x : Issue, In x [] -> rule x <> 15 /\ rule x <> 27).
Proof.
  split; [vm_compute; reflexivity|].
  split; [vm_compute; reflexivity|].
  split; [vm_compute; reflexivity|].
  exact (proj1 (suppressed_rules_never_reported
                  [("a.c", counter_lines)] []
                  ltac:(vm_compute; reflexivity))).
Defined.

(** C8 (the code departs from the claim).  The claim: the engine
    returns a list for every input, files with unbalanced braces
    included.  On the file below, whose function is not closed, it
    raises [IndexError]: the allocation check looks for a guard in the
    lines up to [end_idx], which is [nlines] here, and reads
    [lines[nlines]].  Without the allocation the same file is analysed
    to its end. *)
Theorem unclosed_function_raises :
  function_spans ["int main() {"; "p = malloc(4);"]
  = [mkSpan "main" "" 0 2 1%Z]
  /\ run_checks_on_files [("a.c", ["int main() {"; "p = malloc(4);"])]
     = IndexError
  /\ run_checks_on_files [("a.c", ["int main() {"; "goto end;"])]
     = OK [mkIssue "a.c" 2 26 goto_msg].
Proof. repeat split; vm_compute; reflexivity. Qed.

(** C9.  The files are analysed independently of each other.  When the
    engine returns for a dictionary, it returns for each of its files
    alone, and the outputs of the files, concatenated in any order of
    the files, are a permutation of the output for the dictionary; when
    it raises, it raises for one of the files alone. *)
Theorem per_file_independence (files files' : list (string * list string)) :
  Permutation files files' ->
  match run_checks_on_files files with
  | OK out =>
      exists outs,
        Forall2 (fun item o => run_checks_on_files [item] = OK o) files' outs
        /\ Permutation out (concat outs)
  | IndexError =>
      exists item, In item files' /\ run_checks_on_files [item] = IndexError
  end.
Proof.
  intros Hp. rewrite run_collect.
  destruct (collect check_item files) as [out|] eqn:Hc.
  - destruct (collect_permutation _ _ _ _ Hp Hc) as [out' [Hc' Hperm]].
    apply collect_outputs in Hc'. destruct Hc' as [outs [Hf ->]].
    exists outs. split; [|assumption].
    clear - Hf. induction Hf; constructor; auto. now rewrite run_single.
  - apply collect_error in Hc. destruct Hc as [item [Hin Herr]].
    exists item. split.
    + now apply (Permutation_in _ Hp).
    + now rewrite run_single.
Qed.

Lemma per_file_independence_witness :
  exists outs,
    Forall2 (fun item o => run_checks_on_files [item] = OK o)
            [("b.c", ["x = x + 0;"]); ("a.c", ["int my_Var2;"])] outs
    /\ Permutation [mkIssue "a.c" 1 2 (var_style_msg "my_Var2");
                    mkIssue "b.c" 1 21 redundant_msg]
                   (concat outs).
Proof.
  exact (per_file_independence
           [("a.c", ["int my_Var2;"]); ("b.c", ["x = x + 0;"])]
           [("b.c", ["x = x + 0;"]); ("a.c", ["int my_Var2;"])]
           (perm_swap _ _ [])).
Defined.

(** C10.  For a located function with more than five parameters the
    engine reports the number of parameters twice at the definition
    line, under rule 12 both times: once in the pass over the lines and
    once in the pass over the functions; these are the only two issues
    about the number of parameters at that line. *)
Theorem parameter_count_reported_twice (files : list (string * list string))
    (out : list Issue) (path : string) (lines : list string) (sp : span) :
  run_checks_on_files files = OK out -> NoDup (map fst files) ->
  In (path, lines) files -> In sp (function_spans lines) ->
  5 < param_count (sp_params sp) ->
  In (mkIssue path (sp_start sp + 1) 12
              (line_params_msg (sp_name sp) (param_count (sp_params sp)))) out
  /\ In (mkIssue path (sp_start sp + 1) 12
                 (span_params_msg (sp_name sp) (param_count (sp_params sp))))
        out
  /\ count_if (is_param_count_issue path (sp_start sp + 1)) out = 2.
Proof.
  intros Hrun Hkeys Hfile Hsp Hmany.
  destruct (param_count_issues_in files out Hrun Hkeys path lines Hfile sp
              Hsp Hmany) as [H1 H2].
  split; [exact H1|]. split; [exact H2|].
  exact (param_count_issues_count files out Hrun Hkeys path lines Hfile sp
           Hsp Hmany).
Qed.

Lemma parameter_count_reported_twice_witness :
  In (mkIssue "a.c" 1 12 (line_params_msg "f" 6))
     [mkIssue "a.c" 1 12 (line_params_msg "f" 6);
      mkIssue "a.c" 1 12 (span_params_msg "f" 6)]
  /\ In (mkIssue "a.c" 1 12 (span_params_msg "f" 6))
        [mkIssue "a.c" 1 12 (line_params_msg "f" 6);
         mkIssue "a.c" 1 12 (span_params_msg "f" 6)]
  /\ count_if (is_param_count_issue "a.c" 1)
              [mkIssue "a.c" 1 12 (line_params_msg "f" 6);
               mkIssue "a.c" 1 12 (span_params_msg "f" 6)] = 2.
Proof.
  refine (parameter_count_reported_twice
            [("a.c", six_lines)] _ "a.c" six_lines
            (mkSpan "f" "int a, int b, int c, int d, int e, int g" 0 2 1%Z)
            _ _ _ _ _).
  - vm_compute. reflexivity.
  - repeat constructor. simpl. tauto.
  - simpl. auto.
  - vm_compute. auto.
  - vm_compute. lia.
Defined.

(* ================================================================== *)
(** * Further properties *)

(** ** Rule 0 *)

Lemma rule_0_never_reported_witness : 5 <> 0.
Proof.
  exact (rule_0_never_reported
           [("a.c", ["int x = arr[5] + &y[2];"])]
           [mkIssue "a.c" 1 5 (magic_msg "5"); mkIssue "a.c" 1 5 (magic_msg "2")]
           (mkIssue "a.c" 1 5 (magic_msg "5"))
           ltac:(vm_compute; reflexivity) ltac:(simpl; auto)).
Defined.

(* ================================================================== *)
(** * Further properties of the engine *)

(** ** When the engine raises *)

Lemma guard_search_OK (lines : list string) (v : string) (ts : list nat) :
  (forall t, In t ts -> t < length lines) ->
  exists checked, guard_search lines v ts = OK checked.
Proof.
  induction ts as [|t ts IH]; intros H; simpl; [eauto|].
  destruct (nth_error lines t) as [check_line|] eqn:E.
  - destruct (guards v check_line); [eauto|]. apply IH. intros t' Ht'.
    apply H. now right.
  - exfalso. apply nth_error_None in E. specialize (H t (or_introl eq_refl)).
    lia.
Qed.

(** The allocation check fails only on an assignment from an allocation
    in one of the last ten lines of the file, in a function that is not
    closed. *)
Lemma alloc_checks_error (lines : list string) (sp : span)
    (kls : list (nat * string)) :
  alloc_checks lines sp kls = IndexError ->
  exists k l, In (k, l) kls /\ found alloc_in_condition_re l = false
              /\ found alloc_assign_re l = true
              /\ length lines < sp_end sp + 1 /\ length lines < k + 11.
Proof.
  induction kls as [|[k l] kls IH]; simpl; [discriminate|].
  destruct (found alloc_in_condition_re l) eqn:Ec.
  { intros H. destruct (IH H) as [k' [l' [Hin H']]]. exists k', l'. auto. }
  unfold found at 1. destruct (re_search alloc_assign_re l) as [m|] eqn:Ea.
  2:{ intros H. destruct (IH H) as [k' [l' [Hin H']]]. exists k', l'. auto. }
  destruct (guard_search lines (group 1 m) _) as [checked|] eqn:Eg; simpl.
  - destruct (alloc_checks lines sp kls); simpl; [discriminate|].
    intros _. destruct (IH eq_refl) as [k' [l' [Hin H']]]. exists k', l'. auto.
  - intros _. exists k, l. split; [now left|]. split; [assumption|].
    split; [unfold found; now rewrite Ea|].
    destruct (Nat.le_gt_cases (Nat.min (k + 11) (sp_end sp + 1)) (length lines))
      as [Hle | Hgt]; [|lia].
    exfalso.
    destruct (guard_search_OK lines (group 1 m)
                (range (k + 1) (Nat.min (k + 11) (sp_end sp + 1)))) as [c Hc].
    + intros t Ht. unfold range in Ht. apply in_seq in Ht. lia.
    + congruence.
Qed.

(** X2. The only way the engine raises.  When [run_checks_on_files]
    raises, a file of the dictionary has a located function whose braces
    never close (its end is the number of lines of the file), and among
    the last ten lines of the file a line of that function on which the
    result of an allocation is assigned, outside a condition of the
    form [if (!(p = malloc(]: the look-ahead of rule 15 for that line
    reads behind the last line. *)
Theorem engine_raises_only_unclosed (files : list (string * list string)) :
  run_checks_on_files files = IndexError ->
  exists path lines sp k l,
    In (path, lines) files /\ In sp (function_spans lines)
    /\ sp_end sp = length lines
    /\ sp_start sp <= k /\ nth_error lines k = Some l
    /\ length lines < k + 11
    /\ found alloc_in_condition_re l = false
    /\ found alloc_assign_re l = true.
Proof.
  intros H. rewrite run_collect in H. apply collect_error in H.
  destruct H as [[path lines] [Hin H]]. unfold check_item, check_file in H.
  simpl in H. unfold span_pass in H. rewrite scan_collect in H.
  destruct (collect (span_checks path lines) _) as [sl|] eqn:Hc;
    [discriminate|].
  apply collect_error in Hc. destruct Hc as [sp [Hsp Herr]].
  unfold span_checks in Herr.
  destruct (alloc_checks lines sp (span_lines lines sp)) eqn:Ea;
    [discriminate|].
  apply alloc_checks_error in Ea.
  destruct Ea as [k [l [Hkl [Hc [Ha [Hend Hk]]]]]].
  apply span_lines_in in Hkl. destruct Hkl as [Hstart Hl].
  pose proof (located_end _ _ (function_spans_located _ _ Hsp)) as Hb.
  exists path, lines, sp, k, l. repeat split; auto; lia.
Qed.

Lemma engine_raises_only_unclosed_witness :
  exists path lines sp k l,
    In (path, lines) [("a.c", ["int main() {"; "p = malloc(4);"])]
    /\ In sp (function_spans lines)
    /\ sp_end sp = length lines
    /\ sp_start sp <= k /\ nth_error lines k = Some l
    /\ length lines < k + 11
    /\ found alloc_in_condition_re l = false
    /\ found alloc_assign_re l = true.
Proof.
  apply (engine_raises_only_unclosed
           [("a.c", ["int main() {"; "p = malloc(4);"])]).
  vm_compute. reflexivity.
Defined.
(** ** Where the issues point *)

Lemma span_checks_line (path : string) (lines : list string) (sp : span)
    (o : list Issue) (x : Issue) :
  located lines sp -> span_checks path lines sp = OK o -> In x o ->
  line x <= length lines.
Proof.
  intros Hloc H Hx. destruct Hloc as [l0 [Hl0 _]].
  assert (Hs : sp_start sp < length lines)
    by (apply nth_error_Some; congruence).
  unfold span_checks in H.
  apply bind_OK in H. destruct H as [checks [_ H]].
  inversion H; subst; clear H.
  unfold length_issues, nesting_issues, span_param_issues,
    unused_param_issues, scanf_issues, exit_goto_issues, float_cmp_issues
    in Hx.
  repeat (apply in_app_or in Hx; destruct Hx as [Hx | Hx]);
    try (apply in_flat_map in Hx; destruct Hx as [y [Hy Hx]];
         try (destruct y as [k l]; apply span_lines_in in Hy;
              destruct Hy as [_ Hy];
              assert (k < length lines)
                by (apply nth_error_Some; congruence)));
    in_cases Hx; simpl in *; lia.
Qed.

Lemma redundant_issues_line (path : string) (lines : list string)
    (x : Issue) :
  In x (redundant_issues path lines) -> 1 <= line x <= length lines.
Proof.
  unfold redundant_issues, redundant_line_issues. intros H.
  apply in_flat_map in H. destruct H as [[i l] [Hin H]].
  apply in_enumerate in Hin. destruct Hin as [Hle Hn].
  assert (i - 1 < length lines) by (apply nth_error_Some; congruence).
  in_cases H. simpl in *. lia.
Qed.

Lemma issue_in_file (files : list (string * list string))
    (out : list Issue) (x : Issue) :
  run_checks_on_files files = OK out -> In x out ->
  exists lines, In (file x, lines) files /\ 1 <= line x <= length lines.
Proof.
  intros Hrun Hx. rewrite run_collect in Hrun.
  apply (collect_in _ _ _ x Hrun) in Hx.
  destruct Hx as [[path lines] [o [Hin [Ho Hx]]]].
  unfold check_item in Ho. simpl in Ho.
  destruct (check_file_rules _ _ _ _ Ho Hx) as [Hfile _].
  exists lines. rewrite Hfile. split; [assumption|].
  destruct (check_file_in _ _ _ x Ho) as [sl [Hc Hiff]].
  apply Hiff in Hx. destruct Hx as [Hx | [Hx | [Hx | Hx]]].
  - apply in_line_pass in Hx. destruct Hx as [i [l [Hl Hx]]].
    apply line_checks_facts in Hx. destruct Hx as [_ [Hline _]].
    assert (i < length lines) by (apply nth_error_Some; congruence). lia.
  - apply (collect_in _ _ _ x Hc) in Hx.
    destruct Hx as [sp [osp [Hsp [Hosp Hx]]]].
    pose proof (span_checks_line _ _ _ _ _
                  (function_spans_located _ _ Hsp) Hosp Hx).
    destruct (span_checks_facts _ _ _ _ _ Hosp Hx) as [_ [_ [Hlow _]]]. lia.
  - apply magic_issues_in in Hx. destruct Hx as [i [l [val [Hl [_ [_ ->]]]]]].
    assert (i < length lines) by (apply nth_error_Some; congruence).
    simpl. lia.
  - now apply redundant_issues_line in Hx.
Qed.

(** X3. Every issue of a returned list names a file of the
    dictionary and a line of that file, counted from 1. *)
Theorem issues_point_into_their_file (files : list (string * list string))
    (out : list Issue) (x : Issue) :
  run_checks_on_files files = OK out -> In x out ->
  exists lines, In (file x, lines) files /\ 1 <= line x <= length lines.
Proof. exact (issue_in_file files out x). Qed.

Lemma issues_point_into_their_file_witness :
  exists lines,
    In ("a.c", lines) [("a.c", ["int my_Var2;"; "x = x + 0;"])]
    /\ 1 <= 2 <= length lines.
Proof.
  exact (issues_point_into_their_file
           [("a.c", ["int my_Var2;"; "x = x + 0;"])]
           [mkIssue "a.c" 1 2 (var_style_msg "my_Var2");
            mkIssue "a.c" 2 21 redundant_msg]
           (mkIssue "a.c" 2 21 redundant_msg)
           ltac:(vm_compute; reflexivity)
           ltac:(simpl; auto)).
Defined.

(** ** The located functions *)

Lemma spans_from_sorted (lines : list string) (fuel idx : nat) :
  StronglySorted (fun a b => sp_end a < sp_start b)
                 (spans_from lines fuel idx).
Proof.
  revert idx. induction fuel as [|fuel IH]; intros idx.
  - unfold spans_from. simpl. constructor.
  - unfold spans_from. simpl.
    destruct (nth_error lines idx) as [l|] eqn:Hl; [|constructor].
    destruct (Py.startswith "#" (Py.strip l)); [apply IH|].
    destruct (func_def l) as [[fname params]|]; [|apply IH].
    destruct (find_end _ _ _ _ _) as [end_idx max_brace].
    simpl. rewrite scan_spans. simpl.
    constructor; [apply IH|].
    apply Forall_forall. intros sp' Hin.
    apply spans_from_located in Hin. simpl. lia.
Qed.

(** X4. The functions located in a file lie one behind the other:
    each ends before the next one starts; none ends before its
    definition line or behind the end of the file, and each definition
    line is a line of the file. *)
Theorem located_functions_disjoint (lines : list string) :
  StronglySorted (fun a b => sp_end a < sp_start b) (function_spans lines)
  /\ Forall (fun sp => sp_start sp <= sp_end sp <= length lines
                       /\ sp_start sp < length lines)
            (function_spans lines).
Proof.
  split; [apply spans_from_sorted|].
  apply Forall_forall. intros sp Hsp.
  apply function_spans_located in Hsp.
  split; [now apply located_end|].
  destruct Hsp as [l [Hl _]]. apply nth_error_Some. congruence.
Qed.

Lemma sorted_pair {A : Type} (R : A -> A -> Prop) (l : list A) (a b : A) :
  StronglySorted R l -> In a l -> In b l -> a = b \/ R a b \/ R b a.
Proof.
  induction 1 as [|x l Hs IH Hf]; intros Ha Hb; [contradiction|].
  rewrite Forall_forall in Hf.
  destruct Ha as [-> | Ha], Hb as [-> | Hb]; auto.
Qed.

(** X5. A located function whose braces never close is the last
    function located in its file: every other one ends before it
    starts. *)
Theorem unclosed_function_is_last (lines : list string) (sp sp' : span) :
  In sp (function_spans lines) -> sp_end sp = length lines ->
  In sp' (function_spans lines) -> sp' <> sp ->
  sp_end sp' < sp_start sp.
Proof.
  intros Hsp Hend Hsp' Hne.
  assert (Hsorted : StronglySorted (fun a b => sp_end a < sp_start b)
                                   (function_spans lines))
    by apply spans_from_sorted.
  destruct (sorted_pair _ _ sp' sp Hsorted Hsp' Hsp) as [Heq | [H | H]].
  - contradiction.
  - assumption.
  - destruct (function_spans_located _ _ Hsp') as [l [Hl _]].
    assert (sp_start sp' < length lines)
      by (apply nth_error_Some; congruence).
    lia.
Qed.

Lemma unclosed_function_is_last_witness : 1 < 2.
Proof.
  exact (unclosed_function_is_last
           ["int f() {"; "}"; "int main() {"; "goto end;"]
           (mkSpan "main" "" 2 4 1%Z) (mkSpan "f" "" 0 1 1%Z)
           ltac:(vm_compute; auto) ltac:(reflexivity)
           ltac:(vm_compute; auto) ltac:(discriminate)).
Defined.

(** ** The files of a run, one after the other *)

Lemma collect_app_eq {S A : Type} (act : S -> result (list A))
    (l1 l2 : list S) :
  collect act (l1 ++ l2)
  = (o1 <- collect act l1 ;; o2 <- collect act l2 ;; OK (o1 ++ o2)).
Proof.
  induction l1 as [|x l1 IH]; simpl.
  - destruct (collect act l2); reflexivity.
  - destruct (act x) as [o|]; simpl; [|reflexivity]. rewrite IH.
    destruct (collect act l1) as [o1|]; simpl; [|reflexivity].
    destruct (collect act l2) as [o2|]; simpl; [|reflexivity].
    now rewrite app_assoc.
Qed.

(** X6. The run on the items of two dictionaries, one after the
    other, is the run on the first followed by the run on the second:
    the lists of issues are appended, and the run raises when one of
    the two runs does. *)
Theorem run_on_appended_files (files1 files2 : list (string * list string)) :
  run_checks_on_files (files1 ++ files2)
  = (out1 <- run_checks_on_files files1 ;;
     out2 <- run_checks_on_files files2 ;;
     OK (out1 ++ out2)).
Proof. rewrite !run_collect. apply collect_app_eq. Qed.

(** ** Parameters *)

Lemma split_on_length (c : ascii) (s : string) :
  length (Py.split_on c s) = Py.count c s + 1.
Proof.
  induction s as [|a s IH]; simpl; [reflexivity|].
  destruct (Py.split_on c s) as [|p ps]; [simpl in IH; lia|].
  destruct (Ascii.eqb a c); simpl in *; lia.
Qed.

Lemma flat_map_length_le {A B : Type} (f : A -> list B) (l : list A) :
  (forall a, length (f a) <= 1) -> length (flat_map f l) <= length l.
Proof.
  intros H. induction l as [|a l IH]; simpl; [lia|].
  rewrite length_app. specialize (H a). lia.
Qed.

(** X7. Rule 18 takes at most as many parameter names from a
    parameter list as rule 12 counts parameters in it. *)
Theorem param_names_at_most_param_count (params : string) :
  length (param_names params) <= param_count params.
Proof.
  unfold param_names, param_count.
  destruct (negb (params =? "")%string && negb (params =? "void")%string);
    [|simpl; lia].
  rewrite <- split_on_length. apply flat_map_length_le.
  intros p. unfold param_name.
  destruct (rev (Py.split_ws (Py.strip p))); [simpl; lia|].
  destruct (_ =? "")%string; simpl; lia.
Qed.

(** ** Rule 10 *)

Lemma count_returns_outside (ls : list string) (brace_level : Z)
    (return_count : nat) :
  (forall l, In l ls -> Py.contains "{" l = false) ->
  count_returns ls brace_level return_count false = return_count.
Proof.
  revert brace_level. induction ls as [|l ls IH]; intros brace_level H.
  - reflexivity.
  - unfold count_returns; fold count_returns.
    rewrite (H l) by now left. simpl. rewrite andb_false_r.
    apply IH. intros l' Hl'. apply H. now right.
Qed.

(** X8. Rule 10 is not reported at a line when no line behind it in
    the file holds an opening brace: the returns are counted from the
    first opening brace behind the definition line, whatever the
    definition line and the lines behind it hold else. *)
Theorem no_later_brace_no_rule_10 (files : list (string * list string))
    (out : list Issue) (path : string) (lines : list string) (i : nat)
    (x : Issue) :
  run_checks_on_files files = OK out -> NoDup (map fst files) ->
  In (path, lines) files ->
  (forall l, In l (skipn (S i) lines) -> Py.contains "{" l = false) ->
  In x out -> file x = path -> line x = S i -> rule x <> 10.
Proof.
  intros Hrun Hkeys Hfile Hno Hx Hpath Hline Hrule.
  destruct (run_file_OK _ _ Hrun _ _ Hfile) as [o Ho].
  apply (run_in_file files out Hrun Hkeys path lines Hfile o x Ho Hpath) in Hx.
  apply (line_only_rule _ _ _ x Ho) in Hx; [|rewrite Hrule; simpl; auto].
  apply in_line_pass in Hx. destruct Hx as [i' [l [Hl Hx]]].
  pose proof (line_checks_facts _ _ _ _ _ Hx) as [_ [Hline' _]].
  assert (i' = i) by lia. subst i'.
  unfold line_checks in Hx. destruct (skipped_line l); [contradiction|].
  apply in_app_or in Hx. destruct Hx as [Hx | Hx].
  { apply translit_issues_in in Hx. destruct Hx as [t [_ [_ ->]]].
    discriminate. }
  unfold amp_index_issues, func_line_issues, func_style_issues,
    line_param_issues, return_issues, var_style_issues in Hx.
  rewrite (count_returns_outside _ _ _ Hno) in Hx.
  in_cases Hx; discriminate.
Qed.

Lemma no_later_brace_no_rule_10_witness : 2 <> 10.
Proof.
  exact (no_later_brace_no_rule_10
           [("a.c", ["int My_f(int x) {"; "return 1;"; "return 1;";
                     "return 1;"; "}"])]
           [mkIssue "a.c" 1 2 (func_style_msg "My_f");
            mkIssue "a.c" 1 2 (var_style_msg "My_f")]
           "a.c" ["int My_f(int x) {"; "return 1;"; "return 1;";
                  "return 1;"; "}"] 0
           (mkIssue "a.c" 1 2 (func_style_msg "My_f"))
           ltac:(vm_compute; reflexivity)
           ltac:(repeat constructor; simpl; tauto)
           ltac:(simpl; auto)
           ltac:(intros l H; simpl in H;
                 repeat (destruct H as [<- | H]; [vm_compute; reflexivity|]);
                 contradiction)
           ltac:(simpl; auto) eq_refl eq_refl).
Defined.


(** ** The rules of the pass over the functions stay inside them *)

Lemma span_lines_range (lines : list string) (sp : span) (k : nat)
    (l : string) :
  In (k, l) (span_lines lines sp) ->
  sp_start sp <= k /\ k <= sp_end sp /\ nth_error lines k = Some l.
Proof.
  intros H. pose proof (span_lines_in _ _ _ _ H) as [Hs Hl].
  split; [assumption|]. split; [|assumption].
  unfold span_lines in H. apply in_enumerate in H. destruct H as [_ H].
  assert (Hlt : k - sp_start sp
                < length (Py.slice (sp_start sp)
                                   (Nat.min (sp_end sp + 1) (nlines lines))
                                   lines))
    by (apply nth_error_Some; congruence).
  unfold Py.slice in Hlt. rewrite length_firstn in Hlt. lia.
Qed.

(** The issues of the detectors on one function, by detector. *)
Lemma span_checks_by_detector (path : string) (lines : list string)
    (sp : span) (o : list Issue) (x : Issue) :
  span_checks path lines sp = OK o -> In x o ->
  (In (rule x) [4; 12; 18] /\ line x = sp_start sp + 1)
  \/ In x (scanf_issues path lines sp)
  \/ In x (exit_goto_issues path lines sp)
  \/ In x (float_cmp_issues path lines sp).
Proof.
  unfold span_checks. intros H Hx.
  apply bind_OK in H. destruct H as [checks [_ H]].
  inversion H; subst; clear H.
  repeat (apply in_app_or in Hx; destruct Hx as [Hx | Hx]); auto;
    left; unfold length_issues, nesting_issues, span_param_issues,
      unused_param_issues in Hx;
    try (apply in_flat_map in Hx; destruct Hx as [pn [_ Hx]]);
    in_cases Hx; simpl; auto.
Qed.

Lemma line_scoped_issue (path : string) (lines : list string) (sp : span)
    (x : Issue) :
  In x (scanf_issues path lines sp) \/ In x (exit_goto_issues path lines sp)
  \/ In x (float_cmp_issues path lines sp) ->
  exists k l, In (k, l) (span_lines lines sp) /\ line x = k + 1
              /\ In (rule x) [8; 25; 26; 14].
Proof.
  unfold scanf_issues, exit_goto_issues, float_cmp_issues.
  intros [H | [H | H]]; apply in_flat_map in H;
    destruct H as [[k l] [Hkl H]]; exists k, l; in_cases H; simpl; auto 10.
Qed.

(** X9. An issue of the rules 4, 18, 8, 25, 26 and 14 lies in a
    located function of its file, between the definition line and the
    end line; the issues of the rules 4 and 18 lie on the definition
    line. *)
Theorem span_rules_inside_functions (files : list (string * list string))
    (out : list Issue) (x : Issue) :
  run_checks_on_files files = OK out -> In x out ->
  In (rule x) [4; 18; 8; 25; 26; 14] ->
  exists lines sp,
    In (file x, lines) files /\ In sp (function_spans lines)
    /\ sp_start sp + 1 <= line x <= sp_end sp + 1
    /\ (In (rule x) [4; 18] -> line x = sp_start sp + 1).
Proof.
  intros Hrun Hx Hrule. rewrite run_collect in Hrun.
  apply (collect_in _ _ _ x Hrun) in Hx.
  destruct Hx as [[path lines] [o [Hin [Ho Hx]]]].
  unfold check_item in Ho. simpl in Ho.
  destruct (check_file_rules _ _ _ _ Ho Hx) as [Hfile _].
  destruct (check_file_in _ _ _ x Ho) as [sl [Hc Hiff]].
  apply Hiff in Hx. destruct Hx as [Hx | [Hx | [Hx | Hx]]].
  - exfalso. apply line_pass_facts in Hx. destruct Hx as [_ Hr].
    simpl in Hr, Hrule.
    repeat (destruct Hr as [Hr | Hr];
            [rewrite <- Hr in Hrule;
             repeat (destruct Hrule as [Hrule | Hrule]; [discriminate|]);
             contradiction|]).
    contradiction.
  - apply (collect_in _ _ _ x Hc) in Hx.
    destruct Hx as [sp [osp [Hsp [Hosp Hx]]]].
    exists lines, sp. rewrite Hfile. split; [assumption|].
    split; [assumption|].
    pose proof (located_end _ _ (function_spans_located _ _ Hsp)) as Hb.
    destruct (span_checks_by_detector _ _ _ _ _ Hosp Hx) as [[Hr Hl] | Hd].
    + split; [lia | auto].
    + apply line_scoped_issue in Hd. destruct Hd as [k [l [Hkl [Hl Hr]]]].
      apply span_lines_range in Hkl. split; [lia|].
      intros H418. exfalso. simpl in Hr, H418.
      repeat (destruct Hr as [Hr | Hr];
              [rewrite <- Hr in H418;
               repeat (destruct H418 as [H418 | H418]; [discriminate|]);
               contradiction|]).
      contradiction.
  - exfalso. apply magic_issues_in in Hx.
    destruct Hx as [? [? [? [_ [_ [_ ->]]]]]]. simpl in Hrule.
    repeat (destruct Hrule as [Hrule | Hrule]; [discriminate|]).
    contradiction.
  - exfalso. apply redundant_issues_facts in Hx. destruct Hx as [_ Hx].
    rewrite Hx in Hrule. simpl in Hrule.
    repeat (destruct Hrule as [Hrule | Hrule]; [discriminate|]).
    contradiction.
Qed.

Lemma span_rules_inside_functions_witness :
  exists lines sp,
    In ("a.c", lines) [("a.c", ["exit(1);"; "int main() {"; "exit(2);"; "}"])]
    /\ In sp (function_spans lines)
    /\ sp_start sp + 1 <= 3 <= sp_end sp + 1
    /\ (In 25 [4; 18] -> 3 = sp_start sp + 1).
Proof.
  exact (span_rules_inside_functions
           [("a.c", ["exit(1);"; "int main() {"; "exit(2);"; "}"])]
           [mkIssue "a.c" 3 25 exit_msg; mkIssue "a.c" 3 5 (magic_msg "2")]
           (mkIssue "a.c" 3 25 exit_msg)
           ltac:(vm_compute; reflexivity) ltac:(simpl; auto)
           ltac:(simpl; auto)).
Defined.

(** ** Rule 8 *)

Lemma prefix_append (n a b : string) :
  String.prefix n a = true -> String.prefix n (a ++ b)%string = true.
Proof.
  revert a. induction n as [|c n IH]; intros a H.
  - now destruct (a ++ b)%string.
  - destruct a as [|d a]; [discriminate|]. simpl in *.
    destruct (ascii_dec c d); [now apply IH | discriminate].
Qed.

Lemma contains_cons (n : string) (c : ascii) (a : string) :
  Py.contains n (String c a)
  = String.prefix n (String c a) || Py.contains n a.
Proof. reflexivity. Qed.

Lemma contains_append_l (n a b : string) :
  Py.contains n a = true -> Py.contains n (a ++ b)%string = true.
Proof.
  induction a as [|c a IH]; intros H.
  - destruct n; [now destruct b | discriminate].
  - rewrite contains_cons in H. apply orb_true_iff in H.
    change (String c a ++ b)%string with (String c (a ++ b)%string).
    rewrite contains_cons. destruct H as [H | H].
    + change (String c (a ++ b)%string) with ((String c a) ++ b)%string.
      rewrite (prefix_append _ _ _ H). reflexivity.
    + rewrite (IH H). apply orb_true_r.
Qed.

Lemma contains_append_r (n a b : string) :
  Py.contains n b = true -> Py.contains n (a ++ b)%string = true.
Proof.
  intros H. induction a as [|c a IH]; [assumption|].
  change (String c a ++ b)%string with (String c (a ++ b)%string).
  rewrite contains_cons, IH. apply orb_true_r.
Qed.

Lemma contains_join (n l : string) (ls : list string) :
  In l ls -> Py.contains n l = true ->
  Py.contains n (Py.join_lines ls) = true.
Proof.
  unfold Py.join_lines. intros Hin Hn.
  induction ls as [|l0 ls IH]; [contradiction|].
  destruct ls as [|l1 ls].
  - destruct Hin as [<- | []]. assumption.
  - change (String.concat (String newline "") (l0 :: l1 :: ls))
      with (l0 ++ String newline ""
               ++ String.concat (String newline "") (l1 :: ls))%string.
    destruct Hin as [<- | Hin].
    + now apply contains_append_l.
    + apply contains_append_r, contains_append_r. now apply IH.
Qed.

Lemma slice_in {A : Type} (a b k : nat) (l : list A) (x : A) :
  a <= k < b -> nth_error l k = Some x -> In x (Py.slice a b l).
Proof.
  intros Hk Hx. unfold Py.slice. apply (nth_error_In _ (k - a)).
  rewrite nth_error_firstn.
  destruct (k - a <? b - a) eqn:E; [|apply Nat.ltb_ge in E; lia].
  rewrite nth_error_skipn. now replace (a + (k - a)) with k by lia.
Qed.

(** X10. Rule 8 is not reported at a line that holds an [=],
    whatever else the line and the lines around it hold. *)
Theorem scanf_line_with_equals_not_reported
    (files : list (string * list string)) (out : list Issue)
    (path : string) (lines : list string) (k : nat) (l : string) (x : Issue) :
  run_checks_on_files files = OK out -> NoDup (map fst files) ->
  In (path, lines) files -> nth_error lines k = Some l ->
  Py.contains "=" l = true ->
  In x out -> file x = path -> line x = k + 1 -> rule x <> 8.
Proof.
  intros Hrun Hkeys Hfile Hl Heq Hx Hpath Hline Hrule.
  destruct (run_file_OK _ _ Hrun _ _ Hfile) as [o Ho].
  apply (run_in_file files out Hrun Hkeys path lines Hfile o x Ho Hpath) in Hx.
  destruct (check_file_in _ _ _ x Ho) as [sl [Hc Hiff]].
  apply Hiff in Hx. destruct Hx as [Hx | [Hx | [Hx | Hx]]].
  - apply line_pass_facts in Hx. destruct Hx as [_ Hr]. rewrite Hrule in Hr.
    simpl in Hr. repeat (destruct Hr as [Hr | Hr]; [discriminate|]).
    contradiction.
  - apply (collect_in _ _ _ x Hc) in Hx.
    destruct Hx as [sp [osp [Hsp [Hosp Hx]]]].
    destruct (span_checks_by_detector _ _ _ _ _ Hosp Hx)
      as [[Hr _] | [Hd | [Hd | Hd]]].
    + rewrite Hrule in Hr. simpl in Hr.
      repeat (destruct Hr as [Hr | Hr]; [discriminate|]). contradiction.
    + unfold scanf_issues in Hd. apply in_flat_map in Hd.
      destruct Hd as [[k' l'] [Hkl Hd]]. simpl in Hd.
      apply span_lines_range in Hkl. destruct Hkl as [Hs [He Hl']].
      destruct (found scanf_re l'); [|contradiction].
      match type of Hd with
      | In _ (if ?c then _ else _) => destruct c eqn:Econd
      end; [|contradiction].
      destruct Hd as [Hd | []]. subst x. simpl in Hline.
      assert (k' = k) by lia. subst k'.
      assert (Hctx : Py.contains "=" (scanf_context lines sp k) = true).
      { unfold scanf_context. apply (contains_join _ l); [|assumption].
        apply (slice_in _ _ k); [|assumption].
        assert (k < length lines) by (apply nth_error_Some; congruence).
        unfold nlines. lia. }
      rewrite Hctx in Econd. simpl in Econd. rewrite andb_false_r in Econd.
      discriminate.
    + unfold exit_goto_issues in Hd. apply in_flat_map in Hd.
      destruct Hd as [[k' l'] [_ Hd]]. in_cases Hd; apply (f_equal rule) in Hd; simpl in Hd; congruence.
    + unfold float_cmp_issues in Hd. apply in_flat_map in Hd.
      destruct Hd as [[k' l'] [_ Hd]]. in_cases Hd; apply (f_equal rule) in Hd; simpl in Hd; congruence.
  - apply magic_issues_in in Hx. destruct Hx as [? [? [? [_ [_ [_ ->]]]]]].
    discriminate.
  - apply redundant_issues_facts in Hx. destruct Hx as [_ Hx]. congruence.
Qed.

Lemma scanf_line_with_equals_not_reported_witness : 5 <> 8.
Proof.
  exact (scanf_line_with_equals_not_reported
           [("a.c", ["int main() {"; "rc = scanf(fmt, 7);"; "}"])]
           [mkIssue "a.c" 2 5 (magic_msg "7")]
           "a.c" ["int main() {"; "rc = scanf(fmt, 7);"; "}"]
           1 "rc = scanf(fmt, 7);"
           (mkIssue "a.c" 2 5 (magic_msg "7"))
           ltac:(vm_compute; reflexivity)
           ltac:(repeat constructor; simpl; tauto)
           ltac:(simpl; auto) eq_refl
           ltac:(vm_compute; reflexivity)
           ltac:(simpl; auto) eq_refl eq_refl).
Defined.

(** ** The accepted styles, character by character *)

Lemma star_class_eos (p : ascii -> bool) :
  p newline = false ->
  forall (t : string) (n : nat) (pr : option ascii) (i : nat)
         (g : list (nat * string)),
    String.length t < n ->
    is_some (star_loop true (exec (Cls p)) (fun s' => exec Eos s' Some) n
                       (mkState (mkCursor pr i t) g))
    = all_chars p (chomp t).
Proof.
  intros Hnl t. induction t as [|a t IH]; intros n pr i g Hn.
  - destruct n; [simpl in Hn; lia|]. reflexivity.
  - destruct n as [|n]; [simpl in Hn; lia|].
    cbn [star_loop exec cur rest groups pos].
    destruct (p a) eqn:Ha.
    + assert (Hlt : (String.length t <? String.length (String a t)) = true)
        by (apply Nat.ltb_lt; simpl; lia).
      rewrite Hlt.
      assert (Hne : Ascii.eqb a newline = false).
      { destruct (Ascii.eqb a newline) eqn:E; [|reflexivity].
        apply Ascii.eqb_eq in E. congruence. }
      specialize (IH n (Some a) (S i) g ltac:(simpl in Hn; lia)).
      assert (Hchomp : all_chars p (chomp (String a t))
                       = all_chars p (chomp t)).
      { destruct t as [|b t]; simpl; rewrite ?Hne; simpl; rewrite Ha;
          reflexivity. }
      rewrite Hchomp, <- IH.
      destruct (star_loop _ _ _ n _) as [r|]; [reflexivity|].
      unfold at_eos. cbn [rest].
      destruct t; [rewrite Hne|]; reflexivity.
    + unfold at_eos. cbn [rest]. destruct t as [|b t].
      * simpl. destruct (Ascii.eqb a newline); simpl; [reflexivity|].
        now rewrite Ha.
      * simpl. now rewrite Ha.
Qed.

Lemma style_shape (first others : ascii -> bool) (name : string) :
  first newline = false -> others newline = false ->
  matches (seqs [Bos; Cls first; Star true (Cls others); Eos]) name
  = shaped first others (chomp name).
Proof.
  intros Hf Ho. unfold matches, re_match, match_at, start.
  cbn [seqs exec cur pos rest groups Nat.eqb].
  destruct name as [|c t]; [reflexivity|].
  destruct (first c) eqn:Hc.
  - rewrite (star_class_eos others Ho t _ (Some c) 1 [])
      by (simpl; lia).
    assert (Hne : Ascii.eqb c newline = false).
    { destruct (Ascii.eqb c newline) eqn:E; [|reflexivity].
      apply Ascii.eqb_eq in E. congruence. }
    destruct t as [|b t]; simpl; rewrite ?Hne; simpl; now rewrite Hc.
  - destruct t as [|b t]; simpl.
    + destruct (Ascii.eqb c newline); simpl; [reflexivity | now rewrite Hc].
    + now rewrite Hc.
Qed.

(** X11. The three accepted styles, character by character.  Without
    the newline that may end it, a name fits camelCase when it is a
    lower-case letter followed by letters and digits, snake_case when it
    is a lower-case letter followed by lower-case letters, digits and
    underscores, and CamelCase when it is an upper-case letter followed
    by letters and digits (letters of ASCII). *)
Theorem styles_by_characters (name : string) :
  matches camel_style name = is_camel name
  /\ matches snake_style name = is_snake name
  /\ matches pascal_style name = is_pascal name
  /\ fits_a_style name = is_camel name || is_snake name || is_pascal name.
Proof.
  assert (H1 : matches camel_style name = is_camel name)
    by (apply style_shape; reflexivity).
  assert (H2 : matches snake_style name = is_snake name)
    by (apply style_shape; reflexivity).
  assert (H3 : matches pascal_style name = is_pascal name)
    by (apply style_shape; reflexivity).
  unfold fits_a_style. rewrite H1, H2, H3. auto.
Qed.

(** ** Where a located function ends *)

Lemma find_end_closes (ls : list string) (j : nat) (brace : Z)
    (started : bool) (max_brace : Z) :
  let e := fst (find_end ls j brace started max_brace) in
  (e < j + length ls ->
   let '(b, s) := braces_over (firstn (e - j + 1) ls) brace started in
   s && (b =? 0)%Z = true)
  /\ (forall d, d < e - j ->
        let '(b, s) := braces_over (firstn (d + 1) ls) brace started in
        s && (b =? 0)%Z = false).
Proof.
  revert j brace started max_brace.
  induction ls as [|l ls IH]; intros j brace started max_brace.
  - unfold find_end. simpl. split; intros; lia.
  - unfold find_end; fold find_end.
    pose proof (find_end_bounds ls (S j)) as Hb.
    destruct (count_braces _ brace started) as [brace' started'] eqn:Ec.
    destruct (started' && (brace' =? 0)%Z) eqn:Eclosed.
    + simpl. split.
      * intros _. rewrite Nat.sub_diag. simpl. now rewrite Ec.
      * intros d Hd. lia.
    + specialize (IH (S j) brace' started'
                     (if started' then Z.max max_brace brace' else max_brace)).
      specialize (Hb brace' started'
                     (if started' then Z.max max_brace brace' else max_brace)).
      destruct (find_end ls (S j) _ _ _) as [e m]. simpl in *.
      destruct IH as [IH1 IH2]. split.
      * intros He. replace (e - j + 1) with (S (e - S j + 1)) by lia.
        simpl. rewrite Ec. apply IH1. lia.
      * intros d Hd. destruct d as [|d].
        -- simpl. now rewrite Ec.
        -- simpl. rewrite Ec. apply IH2. lia.
Qed.

(** X12. The end line of a located function is the first line, from
    the definition line on, behind which a brace has been opened and
    every opened brace is closed, the braces counted with the string
    literals replaced: this holds at the end line when the end line is
    a line of the file, and at no line before it. *)
Theorem function_ends_where_braces_close (lines : list string) (sp : span) :
  In sp (function_spans lines) ->
  (sp_end sp < length lines ->
   closed_at lines (sp_start sp) (sp_end sp) = true)
  /\ (forall j, sp_start sp <= j < sp_end sp ->
                closed_at lines (sp_start sp) j = false).
Proof.
  intros Hsp. apply function_spans_located in Hsp.
  pose proof (located_end _ _ Hsp) as Hb.
  destruct Hsp as [l [Hl [_ [_ He]]]].
  assert (Hs : sp_start sp < length lines)
    by (apply nth_error_Some; congruence).
  pose proof (find_end_closes (skipn (sp_start sp) lines) (sp_start sp)
                0%Z false 0%Z) as H.
  rewrite He in H. simpl in H. destruct H as [H1 H2].
  unfold closed_at, Py.slice. split.
  - intros Hend. rewrite length_skipn in H1.
    replace (sp_end sp + 1 - sp_start sp) with (sp_end sp - sp_start sp + 1)
      by lia.
    clear H2. specialize (H1 ltac:(lia)).
    destruct (braces_over _ _ _). exact H1.
  - intros j Hj. clear H1.
    replace (j + 1 - sp_start sp) with (j - sp_start sp + 1) by lia.
    specialize (H2 (j - sp_start sp) ltac:(lia)).
    destruct (braces_over _ _ _). exact H2.
Qed.

Lemma function_ends_where_braces_close_witness :
  closed_at ["int f(int x) {"; "if (x) {"; "}"; "}"; "int y;"] 0 3 = true.
Proof.
  exact (proj1 (function_ends_where_braces_close
                  ["int f(int x) {"; "if (x) {"; "}"; "}"; "int y;"]
                  (mkSpan "f" "int x" 0 3 2%Z)
                  ltac:(vm_compute; auto))
               ltac:(vm_compute; lia)).
Defined.

(** ** Rule 18 and the definition line *)

Lemma exec_lit (p : string) (s : mstate) (k : cont) :
  exec (Lit p) s k
  = match eat p (cur s) with
    | Some c' => k (mkState c' (groups s))
    | None => None
    end.
Proof.
  revert s. induction p as [|c p IH]; intros s.
  - destruct s. reflexivity.
  - destruct p as [|d p].
    + cbn [Lit Chr exec eat]. unfold is_char.
      destruct (rest (cur s)); [reflexivity|].
      destruct (Ascii.eqb c a); reflexivity.
    + change (Lit (String c (String d p)))
        with (Seq (Chr c) (Lit (String d p))).
      cbn [exec Chr]. unfold is_char.
      change (eat (String c (String d p)) (cur s))
        with (match rest (cur s) with
              | String b s' =>
                  if Ascii.eqb c b
                  then eat (String d p) (mkCursor (Some b) (S (pos (cur s))) s')
                  else None
              | EmptyString => None
              end).
      destruct (rest (cur s)); [reflexivity|].
      destruct (Ascii.eqb c a); [|reflexivity].
      rewrite IH. reflexivity.
Qed.

Lemma eat_append (p s t : string) (pr : option ascii) (i : nat) (c' : cursor) :
  eat p (mkCursor pr i s) = Some c' ->
  eat p (mkCursor pr i (s ++ t))
  = Some (mkCursor (prev c') (pos c') (rest c' ++ t)).
Proof.
  revert s pr i. induction p as [|a p IH]; intros s pr i; simpl.
  - intros H. inversion H; subst. reflexivity.
  - destruct s as [|b s]; [discriminate|]. simpl.
    destruct (Ascii.eqb a b); [apply IH | discriminate].
Qed.

Lemma at_wordb_append (s t : string) (pr : option ascii) (i : nat) :
  no_word_start t = true ->
  at_wordb (mkCursor pr i (s ++ t)) = at_wordb (mkCursor pr i s).
Proof.
  intros Ht. unfold at_wordb, next. simpl. destruct s as [|a s]; simpl.
  - destruct t as [|c t]; [reflexivity|]. simpl in *.
    apply negb_true_iff in Ht. now rewrite Ht.
  - reflexivity.
Qed.

Lemma word_match_append (pn s t : string) (pr : option ascii) (i : nat) :
  no_word_start t = true ->
  is_some (match_at (word_re pn) (mkCursor pr i s)) = true ->
  is_some (match_at (word_re pn) (mkCursor pr i (s ++ t))) = true.
Proof.
  intros Ht. unfold match_at, word_re.
  change (seqs [WordB; Lit pn; WordB]) with (Seq WordB (Seq (Lit pn) WordB)).
  cbn [exec cur]. rewrite (at_wordb_append _ _ _ _ Ht).
  destruct (at_wordb (mkCursor pr i s)); [|discriminate].
  rewrite !exec_lit. cbn [cur groups].
  destruct (eat pn (mkCursor pr i s)) as [c'|] eqn:E; [|discriminate].
  rewrite (eat_append _ _ t _ _ _ E). cbn [exec cur].
  destruct c' as [pr' i' s']. cbn [prev pos rest].
  rewrite (at_wordb_append _ _ _ _ Ht).
  destruct (at_wordb (mkCursor pr' i' s')); [reflexivity | discriminate].
Qed.

Lemma search_from_hit (r : regex) (pr : option ascii) (i : nat) (s : string) :
  is_some (match_at r (mkCursor pr i s)) = true ->
  is_some (search_from r pr i s) = true.
Proof.
  destruct s; cbn [search_from]; destruct (match_at r _);
    solve [reflexivity | discriminate].
Qed.

Lemma word_found_append (pn s t : string) :
  no_word_start t = true ->
  found (word_re pn) s = true -> found (word_re pn) (s ++ t)%string = true.
Proof.
  intros Ht. unfold found, re_search. generalize (@None ascii) 0.
  induction s as [|a s IH]; intros pr i.
  - cbn [search_from].
    destruct (match_at (word_re pn) (mkCursor pr i "")) eqn:E; [|discriminate].
    intros _. apply search_from_hit. apply word_match_append; [assumption|].
    now rewrite E.
  - cbn [search_from].
    destruct (match_at (word_re pn) (mkCursor pr i (String a s))) eqn:E.
    + intros _. apply search_from_hit. apply word_match_append; [assumption|].
      now rewrite E.
    + intros H. change (String a s ++ t)%string with (String a (s ++ t)%string).
      cbn [search_from].
      destruct (match_at (word_re pn) (mkCursor pr i (String a (s ++ t))));
        [reflexivity|].
      now apply IH.
Qed.

Lemma join_lines_first (l0 : string) (tl : list string) :
  exists t, Py.join_lines (l0 :: tl) = (l0 ++ t)%string
            /\ no_word_start t = true.
Proof.
  unfold Py.join_lines. destruct tl as [|l1 tl].
  - exists "". split; [|reflexivity]. simpl.
    induction l0 as [|c l0 IH]; simpl; [reflexivity | now rewrite <- IH].
  - exists (String newline "" ++ String.concat (String newline "") (l1 :: tl))%string.
    split; reflexivity.
Qed.

Lemma body_text_first (lines : list string) (sp : span) (l0 : string) :
  nth_error lines (sp_start sp) = Some l0 -> sp_start sp <= sp_end sp ->
  exists tl, body_text lines sp = Py.join_lines (l0 :: tl).
Proof.
  intros Hl Hle. unfold body_text.
  destruct (nth_error_split_at _ _ _ Hl) as [l1 [l2 [Heq Hlen]]].
  assert (Hskip : skipn (sp_start sp) lines = l0 :: l2).
  { rewrite Heq, <- Hlen. rewrite skipn_app, Nat.sub_diag, skipn_all.
    reflexivity. }
  destruct (sp_end sp <? nlines lines).
  - unfold Py.slice. rewrite Hskip.
    replace (sp_end sp + 1 - sp_start sp) with (S (sp_end sp - sp_start sp))
      by lia.
    simpl. eauto.
  - rewrite Hskip. eauto.
Qed.

Lemma rule18_reported_body (files : list (string * list string))
    (out : list Issue) (path : string) (lines : list string) (sp : span)
    (pn : string) :
  run_checks_on_files files = OK out -> NoDup (map fst files) ->
  In (path, lines) files -> In sp (function_spans lines) ->
  In (mkIssue path (sp_start sp + 1) 18 (unused_param_msg pn (sp_name sp))) out ->
  found (word_re pn) (body_text lines sp) = false.
Proof.
  intros Hrun Hkeys Hfile Hsp Hx.
  set (x := mkIssue path (sp_start sp + 1) 18
                    (unused_param_msg pn (sp_name sp))) in *.
  destruct (run_file_OK _ _ Hrun _ _ Hfile) as [o Ho].
  apply (run_in_file files out Hrun Hkeys path lines Hfile o x Ho eq_refl)
    in Hx.
  destruct (check_file_in _ _ _ x Ho) as [sl [Hc Hin]]. apply Hin in Hx.
  destruct Hx as [Hx | [Hx | [Hx | Hx]]].
  - exfalso. apply line_pass_facts in Hx. destruct Hx as [_ Hr].
    simpl in Hr. repeat (destruct Hr as [Hr | Hr]; [discriminate|]).
    contradiction.
  - apply (collect_in _ _ _ x Hc) in Hx.
    destruct Hx as [sp' [o' [Hsp' [Ho' Hx]]]].
    destruct (span_checks_facts _ _ _ _ _ Ho' Hx) as [_ [_ [_ Hline]]].
    assert (Hs : sp_start sp' = sp_start sp).
    { assert (H : In (rule x) [4; 12; 18]) by (simpl; auto).
      specialize (Hline H). simpl in Hline. lia. }
    assert (sp' = sp).
    { apply (located_start_unique lines); auto using function_spans_located. }
    subst sp'. apply span_checks_split in Ho'.
    destruct Ho' as [others [-> Hothers]].
    repeat (apply in_app_or in Hx; destruct Hx as [Hx | Hx]).
    + exfalso. unfold length_issues in Hx. in_cases Hx. discriminate.
    + exfalso. unfold nesting_issues in Hx. in_cases Hx. discriminate.
    + exfalso. unfold span_param_issues in Hx. in_cases Hx. discriminate.
    + unfold unused_param_issues in Hx. apply in_flat_map in Hx.
      destruct Hx as [pn' [_ H]]. in_cases H.
      apply (f_equal message) in H. cbn [message] in H.
      apply unused_param_msg_inj in H. subst pn'.
      apply andb_true_iff in E. destruct E as [_ E].
      now apply negb_true_iff in E.
    + exfalso. apply Hothers in Hx. simpl in Hx.
      repeat (destruct Hx as [Hx | Hx]; [discriminate|]). contradiction.
  - exfalso. apply magic_issues_in in Hx.
    destruct Hx as [? [? [? [_ [_ [_ Hx]]]]]]. discriminate.
  - exfalso. apply redundant_issues_facts in Hx. destruct Hx as [_ Hx].
    discriminate.
Qed.

(** X13. Rule 18 is not reported for a name that occurs as a word on
    the definition line of the function: the text that is searched for
    the uses of a parameter begins with the definition line. *)
Theorem name_on_definition_line_not_reported
    (files : list (string * list string)) (out : list Issue)
    (path : string) (lines : list string) (sp : span) (l0 pn : string) :
  run_checks_on_files files = OK out -> NoDup (map fst files) ->
  In (path, lines) files -> In sp (function_spans lines) ->
  nth_error lines (sp_start sp) = Some l0 ->
  found (word_re pn) l0 = true ->
  ~ In (mkIssue path (sp_start sp + 1) 18
                (unused_param_msg pn (sp_name sp))) out.
Proof.
  intros Hrun Hkeys Hfile Hsp Hl Hfound Hx.
  pose proof (rule18_reported_body _ _ _ _ _ _ Hrun Hkeys Hfile Hsp Hx) as Hb.
  pose proof (located_end _ _ (function_spans_located _ _ Hsp)) as [Hle _].
  destruct (body_text_first _ _ _ Hl Hle) as [tl Htl].
  destruct (join_lines_first l0 tl) as [t [Ht Hsafe]].
  rewrite Htl, Ht in Hb.
  rewrite (word_found_append _ _ _ Hsafe Hfound) in Hb. discriminate.
Qed.

Lemma name_on_definition_line_not_reported_witness :
  ~ In (mkIssue "a.c" 1 18 (unused_param_msg "b" "f")) [].
Proof.
  exact (name_on_definition_line_not_reported
           [("a.c", ["int f(int a, int b) {"; "return a;"; "}"])] []
           "a.c" ["int f(int a, int b) {"; "return a;"; "}"]
           (mkSpan "f" "int a, int b" 0 2 1%Z) "int f(int a, int b) {" "b"
           ltac:(vm_compute; reflexivity)
           ltac:(repeat constructor; simpl; tauto)
           ltac:(simpl; auto) ltac:(vm_compute; auto) eq_refl
           ltac:(vm_compute; reflexivity)).
Defined.


(** ** The latest pipeline *)

Lemma insert_desc_nonempty (p : pipeline) (l : list pipeline) :
  insert_desc p l <> [].
Proof.
  destruct l as [|q l]; simpl; [discriminate|].
  destruct (pipeline_key p <? pipeline_key q)%Z; discriminate.
Qed.

Lemma sorted_desc_head (l : list pipeline) (p : pipeline)
    (rest : list pipeline) :
  sorted_desc l = p :: rest ->
  exists before after,
    l = before ++ p :: after
    /\ (forall q, In q before -> (pipeline_key q < pipeline_key p)%Z)
    /\ (forall q, In q after -> (pipeline_key q <= pipeline_key p)%Z).
Proof.
  revert p rest. induction l as [|x l IH]; intros p rest H.
  - discriminate.
  - simpl in H. destruct (sorted_desc l) as [|q r] eqn:Hs.
    + destruct l as [|y l'];
        [|simpl in Hs; now apply insert_desc_nonempty in Hs].
      simpl in H. inversion H; subst.
      exists [], []. simpl. repeat split; intros q [].
    + destruct (IH q r eq_refl) as [before [after [Hl [Hb Ha]]]].
      simpl in H.
      destruct (pipeline_key x <? pipeline_key q)%Z eqn:Hk;
        inversion H; subst p.
      * apply Z.ltb_lt in Hk. exists (x :: before), after.
        rewrite Hl. simpl. repeat split; [|assumption].
        intros q' [<- | Hq]; [assumption | now apply Hb].
      * apply Z.ltb_ge in Hk. exists [], l. simpl. repeat split.
        -- intros q' [].
        -- intros q' Hq. rewrite Hl in Hq. apply in_app_or in Hq.
           destruct Hq as [Hq | [<- | Hq]].
           ++ specialize (Hb q' Hq). lia.
           ++ assumption.
           ++ specialize (Ha q' Hq). lia.
Qed.

Lemma sorted_desc_first_greatest (before after : list pipeline)
    (p : pipeline) :
  (forall q, In q before -> (pipeline_key q < pipeline_key p)%Z) ->
  (forall q, In q after -> (pipeline_key q <= pipeline_key p)%Z) ->
  exists rest, sorted_desc (before ++ p :: after) = p :: rest.
Proof.
  intros Hb Ha. induction before as [|x before IH].
  - simpl. destruct (sorted_desc after) as [|q r] eqn:Hs.
    + now exists [].
    + destruct (sorted_desc_head _ _ _ Hs) as [b [a [Hl _]]].
      assert (Hq : In q after)
        by (rewrite Hl; apply in_or_app; right; now left).
      specialize (Ha q Hq). simpl.
      destruct (pipeline_key p <? pipeline_key q)%Z eqn:Hk;
        [apply Z.ltb_lt in Hk; lia|].
      now exists (q :: r).
  - destruct IH as [rest Hrest];
      [intros q Hq; apply Hb; now right|].
    simpl. rewrite Hrest. simpl.
    assert (Hx : (pipeline_key x < pipeline_key p)%Z)
      by (apply Hb; now left).
    apply Z.ltb_lt in Hx. rewrite Hx. now eexists.
Qed.

(** X14. [mr_has_successful_pipeline] answers True exactly when the
    list of pipelines has an entry with status ["success"] whose id (0
    when it is missing) is greater than the id of every entry before it
    and at least the id of every entry behind it: among the pipelines
    with the greatest id the first of the response decides, and an
    empty list gives False. *)
Theorem latest_pipeline_decides (pipelines : list pipeline) :
  mr_has_successful_pipeline (Got pipelines) = Done true
  <-> exists before p after,
        pipelines = before ++ p :: after
        /\ (forall q, In q before -> (pipeline_key q < pipeline_key p)%Z)
        /\ (forall q, In q after -> (pipeline_key q <= pipeline_key p)%Z)
        /\ pl_status p = Some "success".
Proof.
  unfold mr_has_successful_pipeline. split.
  - destruct (sorted_desc pipelines) as [|p rest] eqn:Hs; [discriminate|].
    intros H. assert (Hok : is_success p = true) by congruence.
    destruct (sorted_desc_head _ _ _ Hs) as [before [after [Hl [Hb Ha]]]].
    exists before, p, after. repeat split; try assumption.
    unfold is_success in Hok. destruct (pl_status p) as [st|];
      [|discriminate].
    apply String.eqb_eq in Hok. now subst.
  - intros [before [p [after [Hl [Hb [Ha Hst]]]]]].
    destruct (sorted_desc_first_greatest before after p Hb Ha) as [rest Hr].
    rewrite Hl, Hr. unfold is_success. rewrite Hst. reflexivity.
Qed.

(** ** The pages of merge requests *)

Section PagesFacts.

Context {A : Type}.
Variable page_of : nat -> response (list A).

Lemma list_pages_full (k : nat) :
  forall (turns page : nat) (mrs : list A),
    (forall i, page <= i < page + k ->
               exists c, page_of i = Got c /\ 100 <= length c) ->
    list_pages page_of (k + turns) page mrs
    = list_pages page_of turns (page + k)
        (mrs ++ flat_map (fun i => chunk_of (page_of i)) (seq page k)).
Proof.
  induction k as [|k IH]; intros turns page mrs Hfull.
  - simpl. now rewrite Nat.add_0_r, app_nil_r.
  - destruct (Hfull page ltac:(lia)) as [c [Hc Hlen]].
    cbn [Nat.add list_pages seq flat_map]. rewrite Hc.
    destruct c as [|a c]; [simpl in Hlen; lia|].
    destruct (length (a :: c) <? 100) eqn:Hlt;
      [apply Nat.ltb_lt in Hlt; lia|].
    rewrite (IH turns (page + 1) (mrs ++ a :: c)).
    + replace (page + 1 + k) with (page + S k) by lia.
      replace (page + 1) with (S page) by lia.
      cbn [chunk_of]. now rewrite <- app_assoc.
    + intros i Hi. apply Hfull. lia.
Qed.

End PagesFacts.

(** X15. [list_assigned_mrs] asks for the pages 1, 2, ... in turn: when
    the pages before page [k] are full (100 entries or more), the loop
    ends at page [k]; it returns the entries of the pages up to [k] in
    order when page [k] has fewer than 100 entries, and the exception of
    the request is raised when the request for page [k] fails. *)
Theorem list_assigned_mrs_pages {A : Type}
    (page_of : nat -> response (list A)) (k turns : nat) :
  1 <= k <= turns ->
  (forall i, 1 <= i < k -> exists c, page_of i = Got c /\ 100 <= length c) ->
  (forall c, page_of k = Got c -> length c < 100 ->
     list_assigned_mrs page_of turns
     = Some (Done (flat_map (fun i => chunk_of (page_of i)) (seq 1 k))))
  /\ ((forall c, page_of k <> Got c) ->
      list_assigned_mrs page_of turns = Some (Raised RequestFailed)).
Proof.
  intros Hk Hfull. unfold list_assigned_mrs.
  replace turns with ((k - 1) + S (turns - k)) by lia.
  rewrite list_pages_full by (intros i Hi; apply Hfull; lia).
  replace (1 + (k - 1)) with k by lia. cbn [list_pages app].
  split.
  - intros c Hc Hlen. rewrite Hc.
    assert (Hseq : seq 1 k = seq 1 (k - 1) ++ [k]).
    { replace (seq 1 k) with (seq 1 ((k - 1) + 1)) by (f_equal; lia).
      rewrite seq_app. now replace (1 + (k - 1)) with k by lia. }
    rewrite Hseq, flat_map_app.
    cbn [seq flat_map]. rewrite Hc. cbn [chunk_of]. rewrite app_nil_r.
    destruct c as [|a c]; [now rewrite app_nil_r|].
    apply Nat.ltb_lt in Hlen. now rewrite Hlen.
  - intros Hno. destruct (page_of k) as [c| |]; [now destruct (Hno c)| |];
      reflexivity.
Qed.

Lemma list_assigned_mrs_pages_witness :
  list_assigned_mrs
    (fun i => if i =? 1 then Got (repeat 7 100) else Got [8; 9]) 5
  = Some (Done (repeat 7 100 ++ [8; 9])).
Proof.
  exact (proj1 (list_assigned_mrs_pages
                  (fun i => if i =? 1 then Got (repeat 7 100)
                            else Got [8; 9])
                  2 5 ltac:(lia)
                  ltac:(intros i Hi; exists (repeat 7 100);
                        replace i with 1 by lia;
                        split; [reflexivity | vm_compute; lia]))
               [8; 9] eq_refl ltac:(simpl; lia)).
Defined.

(** ** The fetched files *)

Lemma drop_split (n : nat) (s : string) :
  exists stem, s = (stem ++ Py.drop n s)%string.
Proof.
  revert s. induction n as [|n IH]; intros s.
  - exists EmptyString. now destruct s.
  - destruct s as [|c s]; [now exists EmptyString|].
    destruct (IH s) as [stem Hs]. exists (String c stem).
    simpl. now rewrite <- Hs.
Qed.

Lemma drop_append (a b : string) :
  Py.drop (String.length a) (a ++ b)%string = b.
Proof.
  induction a as [|c a IH]; simpl; [now destruct b | assumption].
Qed.

Lemma endswith_stem (suffix s : string) :
  endswith suffix s = true <-> exists stem, s = (stem ++ suffix)%string.
Proof.
  unfold endswith. split.
  - intros H. apply andb_prop in H. destruct H as [_ H].
    apply String.eqb_eq in H.
    destruct (drop_split (String.length s - String.length suffix) s)
      as [stem Hs].
    exists stem. now rewrite H in Hs.
  - intros [stem ->]. rewrite string_length_append.
    replace (String.length stem + String.length suffix
             - String.length suffix) with (String.length stem) by lia.
    rewrite drop_append, String.eqb_refl.
    apply andb_true_intro. split; [apply Nat.leb_le; lia | reflexivity].
Qed.

Lemma dict_set_in {V : Type} (k : string) (v : V) (d : list (string * V))
    (k' : string) (v' : V) :
  In (k', v') (dict_set k v d) -> (k' = k /\ v' = v) \/ In (k', v') d.
Proof.
  induction d as [|[k0 v0] d IH]; simpl.
  - intros [H | []]. inversion H. now left.
  - destruct (String.eqb k0 k) eqn:Hk; simpl.
    + intros [H | H]; [inversion H; now left | right; now right].
    + intros [H | H]; [right; now left|].
      destruct (IH H) as [? | ?]; [now left | right; now right].
Qed.

Lemma dict_set_keys {V : Type} (k : string) (v : V)
    (d : list (string * V)) :
  map fst (dict_set k v d)
  = if existsb (String.eqb k) (map fst d) then map fst d
    else map fst d ++ [k].
Proof.
  induction d as [|[k0 v0] d IH]; simpl; [reflexivity|].
  rewrite (String.eqb_sym k k0).
  destruct (String.eqb k0 k) eqn:Hk; simpl.
  - apply String.eqb_eq in Hk. now subst.
  - rewrite IH. now destruct (existsb (String.eqb k) (map fst d)).
Qed.

Lemma dict_set_NoDup {V : Type} (k : string) (v : V)
    (d : list (string * V)) :
  NoDup (map fst d) -> NoDup (map fst (dict_set k v d)).
Proof.
  intros H. rewrite dict_set_keys.
  destruct (existsb (String.eqb k) (map fst d)) eqn:He; [assumption|].
  apply NoDup_app; [assumption | repeat constructor; intros [] |].
  intros x Hx [Hk | []]. subst x.
  assert (existsb (String.eqb k) (map fst d) = true)
    by (apply existsb_exists; exists k; split;
        [assumption | apply String.eqb_refl]).
  congruence.
Qed.

Lemma dict_get_set {V : Type} (k : string) (v : V) (d : list (string * V))
    (k' : string) :
  dict_get k' (dict_set k v d)
  = if String.eqb k k' then Some v else dict_get k' d.
Proof.
  induction d as [|[k0 v0] d IH]; simpl.
  - reflexivity.
  - destruct (String.eqb k0 k) eqn:Hk; simpl.
    + apply String.eqb_eq in Hk. subst k0.
      now destruct (String.eqb k k').
    + rewrite IH. destruct (String.eqb k0 k') eqn:Hk'; [|reflexivity].
      apply String.eqb_eq in Hk'. rewrite <- Hk', (String.eqb_sym k k0).
      now rewrite Hk.
Qed.

Lemma dict_get_in {V : Type} (k : string) (v : V) (d : list (string * V)) :
  NoDup (map fst d) -> (In (k, v) d <-> dict_get k d = Some v).
Proof.
  induction d as [|[k0 v0] d IH]; simpl; intros Hnd.
  - split; [intros [] | discriminate].
  - inversion Hnd as [|? ? Hnot Hnd']; subst.
    destruct (String.eqb k0 k) eqn:Hk.
    + apply String.eqb_eq in Hk. subst k0. split.
      * intros [H | H]; [now inversion H|].
        exfalso. apply Hnot. apply in_map_iff. now exists (k, v).
      * intros H. inversion H. now left.
    + apply String.eqb_neq in Hk. rewrite <- (IH Hnd'). split.
      * intros [H | H]; [inversion H; congruence | assumption].
      * intros H. now right.
Qed.

Lemma fetch_step_keeps (changes : list change) (ch : change)
    (result : list (string * list string)) :
  In ch changes -> fetched_from changes result ->
  fetched_from changes (fetch_step result ch).
Proof.
  intros Hch [Hnd Hall]. unfold fetch_step.
  destruct ch as [[p|] [text|]]; simpl in *; try (split; assumption);
    destruct (String.eqb p ""); try (split; assumption);
    destruct (is_c_path p) eqn:Hc; simpl; try (split; assumption).
  split; [now apply dict_set_NoDup|].
  intros path lines H. apply dict_set_in in H.
  destruct H as [[-> ->] | H]; [|now apply Hall].
  split; [assumption|]. now exists text.
Qed.

Lemma fetch_fold_keeps (changes chs : list change) :
  forall result, incl chs changes -> fetched_from changes result ->
                 fetched_from changes (fold_left fetch_step chs result).
Proof.
  induction chs as [|ch chs IH]; intros result Hincl H; [assumption|].
  simpl. apply IH.
  - intros x Hx. apply Hincl. now right.
  - apply fetch_step_keeps; [apply Hincl; now left | assumption].
Qed.

Lemma fetched_files_facts (r : response (list change))
    (files : list (string * list string)) :
  fetch_changed_c_files r = Done files -> fetched_from (chunk_of r) files.
Proof.
  destruct r as [changes| |]; simpl; intros H; inversion H; subst.
  - apply fetch_fold_keeps; [apply incl_refl|].
    split; [constructor | intros ? ? []].
  - split; [constructor | intros ? ? []].
Qed.

(** X16. The dictionary that [fetch_changed_c_files] returns has no key
    twice, every key ends in [.c] or [.h], and the value of a key is the
    [splitlines] of a text that a request with status 200 gave for an
    entry of ["changes"] with this [new_path]; when the request for the
    changes fails with an HTTP error the dictionary is empty. *)
Theorem fetched_files_are_c_files (r : response (list change))
    (files : list (string * list string)) :
  fetch_changed_c_files r = Done files ->
  NoDup (map fst files)
  /\ (forall path lines, In (path, lines) files ->
        (exists stem, path = (stem ++ ".c")%string
                      \/ path = (stem ++ ".h")%string)
        /\ exists text, In (mkChange (Some path) (Some text)) (chunk_of r)
                        /\ lines = splitlines text)
  /\ (r = HttpError -> files = []).
Proof.
  intros H. destruct (fetched_files_facts r files H) as [Hnd Hall].
  split; [assumption|]. split.
  - intros path lines Hin. destruct (Hall path lines Hin) as [Hc Ht].
    split; [|assumption]. unfold is_c_path in Hc.
    apply orb_prop in Hc. destruct Hc as [Hc | Hc];
      apply endswith_stem in Hc; destruct Hc as [stem Hs]; exists stem;
      [now left | now right].
  - intros ->. simpl in H. now inversion H.
Qed.

Lemma fetched_files_are_c_files_witness :
  NoDup (map fst [("b.h", ["int x;"]); ("a.c", ["int y;"; "int z;"])]).
Proof.
  exact (proj1 (fetched_files_are_c_files
                  (Got [mkChange (Some "b.h") (Some "int q;");
                        mkChange (Some "README.md") (Some "text");
                        mkChange (Some "a.c") (Some ("int y;" ++ nl ++ "int z;" ++ nl)%string);
                        mkChange None (Some "gone");
                        mkChange (Some "c.c") None;
                        mkChange (Some "b.h") (Some "int x;")])
                  [("b.h", ["int x;"]); ("a.c", ["int y;"; "int z;"])]
                  ltac:(vm_compute; reflexivity))).
Defined.

Lemma fetch_fold_other (path : string) (chs : list change) :
  forall result,
    (forall ch, In ch chs -> new_path ch = Some path -> raw_text ch = None) ->
    dict_get path (fold_left fetch_step chs result) = dict_get path result.
Proof.
  induction chs as [|ch chs IH]; intros result Hno; [reflexivity|].
  simpl. rewrite IH by (intros c Hc; apply Hno; now right).
  specialize (Hno ch (or_introl eq_refl)). unfold fetch_step.
  destruct ch as [[p|] [text|]]; simpl in *; try reflexivity;
    destruct (String.eqb p ""); try reflexivity;
    destruct (is_c_path p); simpl; try reflexivity.
  rewrite dict_get_set. destruct (String.eqb p path) eqn:Hp; [|reflexivity].
  apply String.eqb_eq in Hp. subst p. now specialize (Hno eq_refl).
Qed.

(** X17. When several entries of ["changes"] have the same [new_path],
    ending in [.c] or [.h], the dictionary holds for it the lines of the
    last entry whose file was fetched with status 200: entries behind it
    whose request failed change nothing. *)
Theorem last_fetched_text_is_kept (before after : list change)
    (path text : string) (files : list (string * list string)) :
  is_c_path path = true ->
  (forall ch, In ch after -> new_path ch = Some path -> raw_text ch = None) ->
  fetch_changed_c_files
    (Got (before ++ mkChange (Some path) (Some text) :: after)) = Done files ->
  forall lines, In (path, lines) files <-> lines = splitlines text.
Proof.
  intros Hc Hno H lines.
  destruct (fetched_files_facts _ _ H) as [Hnd _].
  rewrite (dict_get_in path lines files Hnd).
  simpl in H. inversion H as [Hf]. clear H.
  rewrite fold_left_app. simpl. rewrite fetch_fold_other by assumption.
  unfold fetch_step at 1. simpl.
  assert (Hne : String.eqb path "" = false).
  { destruct path; [|reflexivity]. discriminate Hc. }
  rewrite Hne, Hc. simpl. rewrite dict_get_set, String.eqb_refl.
  split; [intros E; now inversion E | now intros ->].
Qed.

Lemma last_fetched_text_is_kept_witness :
  In ("a.c", ["new"]) [("a.c", ["new"])] <-> ["new"] = splitlines "new".
Proof.
  exact (last_fetched_text_is_kept
           [mkChange (Some "a.c") (Some "old")]
           [mkChange (Some "a.c") None]
           "a.c" "new" [("a.c", ["new"])]
           ltac:(reflexivity)
           ltac:(intros ch [<- | []] _; reflexivity)
           ltac:(vm_compute; reflexivity) ["new"]).
Defined.

(** ** The lines of a fetched file *)

Lemma all_chars_of_list (p : ascii -> bool) (l : list ascii) :
  all_chars p (string_of_list_ascii l) = forallb p l.
Proof. induction l as [|c l IH]; simpl; [reflexivity | now rewrite IH]. Qed.

Lemma forallb_rev {A : Type} (p : A -> bool) (l : list A) :
  forallb p l = true -> forallb p (rev l) = true.
Proof.
  rewrite !forallb_forall. intros H x Hx. apply H. now apply in_rev.
Qed.

Lemma splitlines_from_clean (n : nat) :
  forall (s : string) (line_rev : list ascii) (l : string),
    String.length s <= n ->
    forallb (fun c => negb (is_line_end c)) line_rev = true ->
    In l (splitlines_from line_rev s) ->
    all_chars (fun c => negb (is_line_end c)) l = true.
Proof.
  induction n as [|n IH]; intros s line_rev l Hlen Hacc Hin.
  - destruct s; [|simpl in Hlen; lia]. simpl in Hin.
    destruct line_rev as [|c r]; [destruct Hin|].
    destruct Hin as [<- | []].
    rewrite all_chars_of_list. now apply forallb_rev.
  - destruct s as [|c s].
    + simpl in Hin. destruct line_rev as [|c r]; [destruct Hin|].
      destruct Hin as [<- | []].
      rewrite all_chars_of_list. now apply forallb_rev.
    + simpl in Hlen. cbn [splitlines_from] in Hin.
      destruct (is_line_end c) eqn:Hc.
      * destruct Hin as [<- | Hin].
        -- rewrite all_chars_of_list. now apply forallb_rev.
        -- destruct s as [|d s'].
           ++ destruct Hin.
           ++ simpl in Hlen.
              destruct ((code c =? 13) && (code d =? 10));
                [apply (IH s' [] l) | apply (IH (String d s') [] l)];
                simpl; try lia; auto.
      * apply (IH s (c :: line_rev) l); [lia | | assumption].
        simpl. now rewrite Hc, Hacc.
Qed.

(** X18. No line of a fetched file holds a line end: a character of a
    line of the dictionary of [fetch_changed_c_files] is none of the
    characters at which [splitlines] splits, the newline among them. *)
Theorem fetched_lines_have_no_line_end (r : response (list change))
    (files : list (string * list string)) (path : string)
    (lines : list string) (l : string) :
  fetch_changed_c_files r = Done files ->
  In (path, lines) files -> In l lines ->
  all_chars (fun c => negb (is_line_end c)) l = true
  /\ all_chars (fun c => negb (Ascii.eqb c newline)) l = true.
Proof.
  intros H Hin Hl.
  destruct (fetched_files_facts r files H) as [_ Hall].
  destruct (Hall path lines Hin) as [_ [text [_ ->]]].
  assert (Hclean : all_chars (fun c => negb (is_line_end c)) l = true)
    by (apply (splitlines_from_clean (String.length text) text [] l);
        auto).
  split; [assumption|].
  clear - Hclean. induction l as [|c l IH]; [reflexivity|].
  simpl in *. apply andb_prop in Hclean. destruct Hclean as [Hc Hl].
  rewrite (IH Hl), andb_true_r.
  destruct (Ascii.eqb c newline) eqn:E; [|reflexivity].
  apply Ascii.eqb_eq in E. subst c. discriminate Hc.
Qed.

Lemma fetched_lines_have_no_line_end_witness :
  all_chars (fun c => negb (is_line_end c)) "int z;" = true
  /\ all_chars (fun c => negb (Ascii.eqb c newline)) "int z;" = true.
Proof.
  exact (fetched_lines_have_no_line_end
           (Got [mkChange (Some "a.c")
                   (Some ("int y;" ++ nl ++ "int z;" ++ nl)%string)])
           [("a.c", ["int y;"; "int z;"])] "a.c" ["int y;"; "int z;"]
           "int z;"
           ltac:(vm_compute; reflexivity)
           ltac:(simpl; auto) ltac:(simpl; auto)).
Defined.

(** ** One merge request *)

Lemma obind_Done {A B : Type} (o : outcome A) (f : A -> outcome B) (b : B) :
  obind o f = Done b -> exists a, o = Done a /\ f a = Done b.
Proof. destruct o as [a|e]; simpl; [now exists a | discriminate]. Qed.

Lemma unresolved_Done (r : response (list discussion)) :
  r <> Failed -> exists b, mr_has_unresolved_discussions r = Done b.
Proof.
  destruct r as [ds| |]; simpl; intros H;
    [now eexists | now eexists | now destruct H].
Qed.

Lemma unresolved_Raised (r : response (list discussion)) (e : exn) :
  mr_has_unresolved_discussions r = Raised e ->
  r = Failed /\ e = RequestFailed.
Proof. destruct r; simpl; intros H; inversion H; auto. Qed.

(** The engine runs on the dictionary when it is not empty; on the empty
    dictionary it would return no issue. *)
Lemma run_if_files (files : list (string * list string)) :
  match files with
  | [] => Done []
  | _ => lift (run_checks_on_files files)
  end = lift (run_checks_on_files files).
Proof. now destruct files. Qed.

(** A turn of the loop that ends without an exception. *)
Lemma review_Done (flag : bool) (mr : merge_request) (rs : responses)
    (acts : list action) :
  review flag mr rs = Done acts <->
  (mr_has_successful_pipeline (rs_pipelines rs) = Done false /\ acts = [])
  \/ (mr_has_successful_pipeline (rs_pipelines rs) = Done true
      /\ rs_discussions rs <> Failed
      /\ exists files found_issues,
           fetch_changed_c_files (rs_changes rs) = Done files
           /\ run_checks_on_files files = OK found_issues
           /\ acts = report flag (rs_approved rs) (mr_project mr) (mr_iid mr)
                       (map of_issue found_issues ++ early_issues mr)).
Proof.
  unfold review. split.
  - intros H. apply obind_Done in H. destruct H as [ok [Hp H]].
    destruct ok; simpl in H.
    + right. split; [assumption|].
      apply obind_Done in H. destruct H as [u [Hu H]].
      split; [intros Hf; rewrite Hf in Hu; discriminate|].
      apply obind_Done in H. destruct H as [files [Hf H]].
      rewrite run_if_files in H.
      apply obind_Done in H. destruct H as [found_issues [Hr H]].
      exists files, found_issues. split; [assumption|].
      destruct (run_checks_on_files files); [|discriminate].
      simpl in Hr. inversion Hr; subst. split; [reflexivity|].
      now inversion H.
    + left. split; [assumption | now inversion H].
  - intros [[Hp ->] | [Hp [Hd [files [found_issues [Hf [Hr ->]]]]]]];
      rewrite Hp; simpl; [reflexivity|].
    destruct (unresolved_Done _ Hd) as [u ->]. simpl.
    rewrite Hf. simpl. rewrite run_if_files, Hr. reflexivity.
Qed.

Lemma early_issues_none (mr : merge_request) :
  early_issues mr = []
  <-> found lab_title_re (mr_title mr) = true
      /\ mr_has_conflicts mr = false
      /\ (forall d, hd_error (mr_discussions mr) = Some d -> d <> Some false).
Proof.
  unfold early_issues, title_issues, conflict_issues, discussion_issues.
  destruct (found lab_title_re (mr_title mr));
    destruct (mr_has_conflicts mr);
    destruct (mr_discussions mr) as [|[[|]|] ds]; simpl;
    split; intros H; try discriminate; try tauto;
    try (repeat split; try reflexivity; intros d Hd; congruence);
    destruct H as [H1 [H2 H3]]; try discriminate.
  now destruct (H3 (Some false) eq_refl).
Qed.

Lemma inline_actions_are_inline (p i : Z) (issues : list finding)
    (a : action) :
  In a (inline_actions p i issues) ->
  exists path n body, a = PostInline p i path n body.
Proof.
  unfold inline_actions. intros H. apply in_flat_map in H.
  destruct H as [it [_ H]]. destruct (has_place it) as [[path n]|];
    [|destruct H].
  destruct H as [<- | []]. now eexists _, _, _.
Qed.

Lemma report_approves (flag approved : bool) (p i : Z)
    (issues : list finding) (p' i' : Z) :
  In (Approve p' i') (report flag approved p i issues)
  <-> p' = p /\ i' = i /\ flag = true /\ issues = [].
Proof.
  unfold report. destruct issues as [|it issues].
  - destruct flag; simpl; split.
    + intros [H | [H | []]]; [inversion H; auto | discriminate].
    + intros [-> [-> _]]. now left.
    + intros [H | []]. discriminate.
    + intros [_ [_ [H _]]]. discriminate.
  - split.
    + intros H. apply in_app_or in H. destruct H as [H | [H | []]].
      * apply inline_actions_are_inline in H.
        destruct H as [? [? [? H]]]. discriminate.
      * discriminate.
    + intros [_ [_ [_ H]]]. discriminate.
Qed.

Lemma report_nonempty (flag approved : bool) (p i : Z)
    (issues : list finding) :
  report flag approved p i issues <> [].
Proof.
  unfold report. destruct issues as [|it issues].
  - destruct flag; discriminate.
  - intros H. apply app_eq_nil in H. destruct H as [_ H]. discriminate.
Qed.

(** X19. A turn of the loop of [main] that ends without an exception
    sends a request to approve exactly when all of this holds: the
    request is for this merge request, [APPROVE_ON_PASS] is set, the
    latest pipeline is successful, the title has the form of [lab N],
    [has_conflicts] is not set, the first entry of ["discussions"], if
    there is one, is not unresolved, and the engine returns no issue for
    the fetched files.  What [mr_has_unresolved_discussions] answered
    is no part of the condition. *)
Theorem approval_condition (approve_on_pass : bool) (mr : merge_request)
    (rs : responses) (acts : list action) :
  review approve_on_pass mr rs = Done acts ->
  forall project iid,
    In (Approve project iid) acts
    <-> project = mr_project mr /\ iid = mr_iid mr
        /\ approve_on_pass = true
        /\ mr_has_successful_pipeline (rs_pipelines rs) = Done true
        /\ found lab_title_re (mr_title mr) = true
        /\ mr_has_conflicts mr = false
        /\ (forall d, hd_error (mr_discussions mr) = Some d ->
                      d <> Some false)
        /\ exists files,
             fetch_changed_c_files (rs_changes rs) = Done files
             /\ run_checks_on_files files = OK [].
Proof.
  intros H project iid. apply review_Done in H.
  destruct H as [[Hp ->] | [Hp [Hd [files [found_issues [Hf [Hr ->]]]]]]].
  - split; [intros [] | intros [_ [_ [_ [H _]]]]; congruence].
  - rewrite report_approves. split.
    + intros [-> [-> [-> Hnil]]]. apply app_eq_nil in Hnil.
      destruct Hnil as [Hfound Hearly].
      apply early_issues_none in Hearly. destruct Hearly as [H1 [H2 H3]].
      repeat split; try assumption. exists files. split; [assumption|].
      destruct found_issues; [assumption | discriminate].
    + intros [-> [-> [-> [_ [H1 [H2 [H3 [files' [Hf' Hr']]]]]]]]].
      repeat split; try reflexivity.
      assert (files' = files) by congruence. subst files'.
      assert (found_issues = []) by congruence. subst found_issues.
      simpl. apply early_issues_none. auto.
Qed.

(** X20. A turn of the loop of [main] that ends without an exception
    sends no request at all exactly when [mr_has_successful_pipeline]
    answers False; every other merge request gets requests, the last of
    them the summary note. *)
Theorem silent_only_without_pipeline (approve_on_pass : bool)
    (mr : merge_request) (rs : responses) (acts : list action) :
  review approve_on_pass mr rs = Done acts ->
  (acts = []
   <-> mr_has_successful_pipeline (rs_pipelines rs) = Done false)
  /\ (acts <> [] ->
      exists others body,
        acts = others ++ [PostNote (mr_project mr) (mr_iid mr) body]
        /\ forall a, In a others ->
                     forall p i body', a <> PostNote p i body').
Proof.
  intros H. apply review_Done in H.
  destruct H as [[Hp ->] | [Hp [Hd [files [found_issues [Hf [Hr ->]]]]]]].
  - split; [tauto | congruence].
  - split.
    + split; [intros H; now apply report_nonempty in H | congruence].
    + intros _. unfold report.
      destruct (map of_issue found_issues ++ early_issues mr)
        as [|it issues].
      * destruct approve_on_pass.
        -- eexists [_], _. split; [reflexivity|].
           intros a [<- | []]; discriminate.
        -- exists [], pass_summary. split; [reflexivity | intros a []].
      * eexists _, _. split; [reflexivity|].
        intros a Ha. apply inline_actions_are_inline in Ha.
        destruct Ha as [? [? [? ->]]]. discriminate.
Qed.

Lemma has_place_early (mr : merge_request) (it : finding) :
  In it (early_issues mr) -> has_place it = None.
Proof.
  unfold early_issues, title_issues, conflict_issues, discussion_issues.
  intros H.
  repeat (apply in_app_or in H; destruct H as [H | H]);
    repeat match type of H with
           | In _ (if ?c then _ else _) => destruct c
           | In _ (match ?l with [] => _ | _ :: _ => _ end) => destruct l
           | In _ [] => destruct H
           | In _ [_] => destruct H as [<- | []]
           end; reflexivity.
Qed.

Lemma inline_actions_app (p i : Z) (a b : list finding) :
  inline_actions p i (a ++ b) = inline_actions p i a ++ inline_actions p i b.
Proof. unfold inline_actions. apply flat_map_app. Qed.

Lemma inline_actions_none (p i : Z) (l : list finding) :
  (forall it, In it l -> has_place it = None) -> inline_actions p i l = [].
Proof.
  induction l as [|it l IH]; intros H; [reflexivity|].
  unfold inline_actions in *. simpl. rewrite (H it (or_introl eq_refl)).
  simpl. apply IH. intros it' Hit. apply H. now right.
Qed.

Lemma c_path_nonempty (path : string) :
  is_c_path path = true -> String.eqb path "" = false.
Proof. destruct path; [discriminate | reflexivity]. Qed.

Lemma inline_actions_engine (p i : Z) (l : list Issue) :
  (forall x, In x l -> String.eqb (file x) "" = false /\ 1 <= line x) ->
  inline_actions p i (map of_issue l)
  = map (fun x => PostInline p i (file x) (line x)
                    (inline_text (of_issue x))) l.
Proof.
  induction l as [|x l IH]; intros H; [reflexivity|].
  unfold inline_actions in *. cbn [map flat_map].
  rewrite IH by (intros y Hy; apply H; now right).
  destruct (H x (or_introl eq_refl)) as [Hf Hl].
  unfold has_place. cbn [of_issue f_file f_line]. rewrite Hf.
  destruct (line x =? 0) eqn:E; [apply Nat.eqb_eq in E; lia|].
  reflexivity.
Qed.

(** X21. For a merge request with a successful pipeline whose files
    were fetched and checked, and with some issue: the requests sent
    are one inline comment for every issue of the engine, in the order
    of its output and at the file and line of the issue, and then one
    note with a line for every issue; the issues of the merge request
    itself (title, conflicts, discussions) get no inline comment. *)
Theorem inline_comment_per_engine_issue (approve_on_pass : bool)
    (mr : merge_request) (rs : responses)
    (files : list (string * list string)) (found_issues : list Issue) :
  mr_has_successful_pipeline (rs_pipelines rs) = Done true ->
  rs_discussions rs <> Failed ->
  fetch_changed_c_files (rs_changes rs) = Done files ->
  run_checks_on_files files = OK found_issues ->
  map of_issue found_issues ++ early_issues mr <> [] ->
  review approve_on_pass mr rs
  = Done (map (fun x => PostInline (mr_project mr) (mr_iid mr)
                          (file x) (line x) (inline_text (of_issue x)))
              found_issues
          ++ [PostNote (mr_project mr) (mr_iid mr)
                (note_head
                 ++ Py.join_lines
                      (fail_head
                       ++ map summary_line
                            (map of_issue found_issues
                             ++ early_issues mr)))%string]).
Proof.
  intros Hp Hd Hf Hr Hne. apply review_Done. right.
  split; [assumption|]. split; [assumption|].
  exists files, found_issues. split; [assumption|]. split; [assumption|].
  unfold report.
  destruct (map of_issue found_issues ++ early_issues mr)
    as [|it issues] eqn:Hi; [now destruct Hne|].
  rewrite <- Hi. rewrite inline_actions_app.
  rewrite (inline_actions_none _ _ (early_issues mr))
    by apply has_place_early.
  rewrite app_nil_r.
  rewrite inline_actions_engine; [reflexivity|].
  intros x Hx. destruct (issue_in_file files found_issues x Hr Hx)
    as [lines [Hin Hline]].
  split; [|lia].
  destruct (fetched_files_facts _ _ Hf) as [_ Hall].
  destruct (Hall _ _ Hin) as [Hc _]. now apply c_path_nonempty.
Qed.

Lemma approval_condition_witness :
  In (Approve 7 3) (report true true 7 3 []).
Proof.
  apply (proj2 (approval_condition true lab_mr (responses_with clean_text)
                  (report true true 7 3 [])
                  ltac:(vm_compute; reflexivity) 7%Z 3%Z)).
  split; [reflexivity|]. split; [reflexivity|]. split; [reflexivity|].
  split; [vm_compute; reflexivity|]. split; [vm_compute; reflexivity|].
  split; [reflexivity|]. split; [intros d Hd; discriminate Hd|].
  exists [("a.c", ["int main(void) {"; "return 0;"; "}"])].
  split; vm_compute; reflexivity.
Defined.

Lemma silent_only_without_pipeline_witness :
  @nil action = []
  <-> mr_has_successful_pipeline
        (Got [mkPipeline (Some 5%Z) (Some "success");
              mkPipeline (Some 9%Z) (Some "failed")]) = Done false.
Proof.
  exact (proj1 (silent_only_without_pipeline true lab_mr
                  (mkResponses (Got [mkPipeline (Some 5%Z) (Some "success");
                                     mkPipeline (Some 9%Z) (Some "failed")])
                               (Got []) (Got []) true)
                  [] ltac:(vm_compute; reflexivity))).
Defined.

Lemma inline_comment_per_engine_issue_witness :
  review true untitled_mr (responses_with "int my_Var2;")
  = Done (map (fun x => PostInline 7 4 (file x) (line x)
                          (inline_text (of_issue x)))
              [mkIssue "a.c" 1 2 (var_style_msg "my_Var2")]
          ++ [PostNote 7 4
                (note_head
                 ++ Py.join_lines
                      (fail_head
                       ++ map summary_line
                            (map of_issue
                               [mkIssue "a.c" 1 2 (var_style_msg "my_Var2")]
                             ++ early_issues untitled_mr)))%string]).
Proof.
  exact (inline_comment_per_engine_issue true untitled_mr
           (responses_with "int my_Var2;")
           [("a.c", ["int my_Var2;"])]
           [mkIssue "a.c" 1 2 (var_style_msg "my_Var2")]
           ltac:(vm_compute; reflexivity)
           ltac:(discriminate)
           ltac:(vm_compute; reflexivity)
           ltac:(vm_compute; reflexivity)
           ltac:(discriminate)).
Defined.

(** ** Exceptions and the loop *)

Lemma obind_Raised {A B : Type} (o : outcome A) (f : A -> outcome B)
    (e : exn) :
  obind o f = Raised e
  <-> o = Raised e \/ exists a, o = Done a /\ f a = Raised e.
Proof.
  destruct o as [a|e']; simpl; split.
  - intros H. right. now exists a.
  - intros [H | [a' [H H']]]; [discriminate | now inversion H].
  - intros H. left. now inversion H.
  - intros [H | [a' [H _]]]; [now inversion H | discriminate].
Qed.

Lemma pipeline_Raised (r : response (list pipeline)) (e : exn) :
  mr_has_successful_pipeline r = Raised e
  <-> r = Failed /\ e = RequestFailed.
Proof.
  destruct r as [l| |]; simpl; split; intros H;
    try (destruct (sorted_desc l)); try discriminate;
    try (destruct H; discriminate); try (inversion H; auto).
  destruct H as [_ ->]. reflexivity.
Qed.

Lemma fetch_Raised (r : response (list change)) (e : exn) :
  fetch_changed_c_files r = Raised e <-> r = Failed /\ e = RequestFailed.
Proof.
  destruct r as [l| |]; simpl; split; intros H;
    try discriminate; try (destruct H; discriminate);
    try (inversion H; auto).
  destruct H as [_ ->]. reflexivity.
Qed.

(** X22. A turn of the loop of [main] raises in these cases only.  A
    request for the pipelines, the discussions or the changes fails with
    an exception that is not an [HTTPError] (the pipelines first; the
    other two are sent only behind a successful pipeline); or the
    pipeline is successful, the requests gave their answers and the
    engine raises its [IndexError] on the fetched files.  An
    [HTTPError] of these requests raises nothing. *)
Theorem review_raises (approve_on_pass : bool) (mr : merge_request)
    (rs : responses) (e : exn) :
  review approve_on_pass mr rs = Raised e
  <-> (e = RequestFailed
       /\ (rs_pipelines rs = Failed
           \/ (mr_has_successful_pipeline (rs_pipelines rs) = Done true
               /\ (rs_discussions rs = Failed
                   \/ rs_changes rs = Failed))))
      \/ (e = LineIndexError
          /\ mr_has_successful_pipeline (rs_pipelines rs) = Done true
          /\ rs_discussions rs <> Failed
          /\ exists files,
               fetch_changed_c_files (rs_changes rs) = Done files
               /\ run_checks_on_files files = IndexError).
Proof.
  unfold review. rewrite obind_Raised, pipeline_Raised. split.
  - intros [[Hp ->] | [ok [Hp H]]]; [left; auto|].
    destruct ok; simpl in H; [|discriminate].
    apply obind_Raised in H. destruct H as [H | [u [Hu H]]].
    { apply unresolved_Raised in H. destruct H as [Hd ->]. left. auto. }
    assert (Hd : rs_discussions rs <> Failed)
      by (intros Hd; rewrite Hd in Hu; discriminate).
    apply obind_Raised in H. destruct H as [H | [files [Hf H]]].
    { apply fetch_Raised in H. destruct H as [Hc ->]. left. auto. }
    rewrite run_if_files in H.
    apply obind_Raised in H. destruct H as [H | [x [_ H]]];
      [|discriminate].
    destruct (run_checks_on_files files) eqn:Hr; [discriminate|].
    simpl in H. inversion H; subst. right.
    repeat split; try assumption. now exists files.
  - intros [[-> [Hp | [Hp [Hd | Hc]]]]
           | [-> [Hp [Hd [files [Hf Hr]]]]]].
    + left. auto.
    + right. exists true. split; [assumption|]. simpl.
      rewrite Hd. reflexivity.
    + right. exists true. split; [assumption|]. simpl.
      destruct (rs_discussions rs); simpl; try rewrite Hc; reflexivity.
    + right. exists true. split; [assumption|]. simpl.
      destruct (unresolved_Done _ Hd) as [u ->]. simpl.
      rewrite Hf. simpl. rewrite run_if_files, Hr. reflexivity.
Qed.

(** X23. An exception in the turn for one merge request ends the loop
    of [main]: the requests sent are those of the turns before it, and
    the merge requests behind it get none, whatever they are. *)
Theorem exception_ends_the_loop (approve_on_pass : bool)
    (before after : list (merge_request * responses))
    (mr : merge_request) (rs : responses) (e : exn) :
  snd (review_all approve_on_pass before) = None ->
  review approve_on_pass mr rs = Raised e ->
  review_all approve_on_pass (before ++ (mr, rs) :: after)
  = (fst (review_all approve_on_pass before), Some e).
Proof.
  intros Hb Hr. induction before as [|[mr0 rs0] before IH].
  - simpl. now rewrite Hr.
  - simpl in *. destruct (review approve_on_pass mr0 rs0) as [acts|e0];
      [|discriminate].
    destruct (review_all approve_on_pass before) as [more e1].
    simpl in Hb. rewrite (IH Hb). reflexivity.
Qed.

Lemma exception_ends_the_loop_witness :
  review_all true
    ([(lab_mr, responses_with clean_text)]
     ++ (lab_mr, responses_with unclosed_text)
        :: [(untitled_mr, responses_with clean_text)])
  = (fst (review_all true [(lab_mr, responses_with clean_text)]),
     Some LineIndexError).
Proof.
  exact (exception_ends_the_loop true
           [(lab_mr, responses_with clean_text)]
           [(untitled_mr, responses_with clean_text)]
           lab_mr (responses_with unclosed_text) LineIndexError
           ltac:(vm_compute; reflexivity)
           ltac:(vm_compute; reflexivity)).
Defined.

(** X24. What the request for the discussions answers changes nothing
    of what a turn of the loop of [main] does, as long as it does not
    fail with an exception that is not an [HTTPError]: a merge request
    with unresolved discussions is reviewed, and approved, like one
    without. *)
Theorem unresolved_discussions_not_used (approve_on_pass : bool)
    (mr : merge_request) (rs : responses)
    (answer : response (list discussion)) :
  rs_discussions rs <> Failed -> answer <> Failed ->
  review approve_on_pass mr
         (mkResponses (rs_pipelines rs) answer (rs_changes rs)
                      (rs_approved rs))
  = review approve_on_pass mr rs.
Proof.
  intros Hd Ha. unfold review. cbn [rs_pipelines rs_discussions rs_changes
                                    rs_approved].
  destruct (mr_has_successful_pipeline (rs_pipelines rs)) as [ok|e];
    [|reflexivity].
  simpl. destruct ok; [|reflexivity]. simpl.
  destruct (unresolved_Done _ Hd) as [u ->].
  destruct (unresolved_Done _ Ha) as [u' ->]. reflexivity.
Qed.

Lemma unresolved_discussions_not_used_witness :
  review true lab_mr
    (mkResponses (rs_pipelines (responses_with clean_text))
                 (Got [open_discussion])
                 (rs_changes (responses_with clean_text))
                 (rs_approved (responses_with clean_text)))
  = review true lab_mr (responses_with clean_text).
Proof.
  exact (unresolved_discussions_not_used true lab_mr
           (responses_with clean_text) (Got [open_discussion])
           ltac:(discriminate) ltac:(discriminate)).
Defined.
